(** * gofind: a type-directed search over type-checked Go packages

    A shallow embedding of [cmd/gofind/main.go]: the query parser, the
    [fieldMatches] predicate, the four scanners over the binding planes of a
    package, the collector/sorter ([result.Less]) and the grouping loop that
    builds the display records.

    Go strings are byte strings, modelled by [string] (a list of 8-bit
    [ascii]); Go [int] values that hold positions are modelled by [Z]; a
    run-time panic is a value of the error monad [Res]. *)

From Stdlib Require Import String Ascii List ZArith Lia Bool Arith.
From Stdlib Require Import Permutation Sorted DecimalString OrderedTypeEx.
Import ListNotations.

#[local] Set Warnings "-register-all".

Local Open Scope string_scope.
Local Open Scope list_scope.

(* ================================================================== *)
(** * Run-time panics *)

Module Panics.

(** A Go computation either yields a value or panics with a message. *)
Inductive Res (A : Type) : Type :=
| Ok (a : A)
| Panic (msg : string).

Arguments Ok {A} a.
Arguments Panic {A} msg.

Definition bind {A B : Type} (m : Res A) (k : A -> Res B) : Res B :=
  match m with
  | Ok a => k a
  | Panic msg => Panic msg
  end.

(** [l[i]] on a slice: Go panics when the index is out of range. *)
Definition index {A : Type} (l : list A) (i : nat) : Res A :=
  match nth_error l i with
  | Some a => Ok a
  | None => Panic "index out of range"
  end.

End Panics.

Export Panics.

Declare Scope res_scope.
Delimit Scope res_scope with res.
Notation "x <- m ;; k" := (bind m (fun x => k))
  (at level 61, m at next level, right associativity) : res_scope.

(* ================================================================== *)
(** * The [strings] package: [Split] and [Join] *)

Module GoStrings.

(** [strings.Split(s, sep)] for a one-byte separator, which is how the
    program calls it (["/"] and ["."]): the substrings between the
    separators; a string without separator gives one segment, the empty
    string gives one empty segment. *)
Fixpoint Split (s : string) (sep : ascii) : list string :=
  match s with
  | EmptyString => [EmptyString]
  | String c s' =>
      if Ascii.eqb c sep then EmptyString :: Split s' sep
      else match Split s' sep with
           | [] => [String c EmptyString]
           | seg :: rest => String c seg :: rest
           end
  end.

(** [strings.Join(elems, sep)]. *)
Definition Join (elems : list string) (sep : string) : string :=
  String.concat sep elems.

(** [c] does not occur in [s]. *)
Fixpoint free_of (c : ascii) (s : string) : bool :=
  match s with
  | EmptyString => true
  | String a s' => negb (Ascii.eqb a c) && free_of c s'
  end.

Definition sep_str (c : ascii) : string := String c EmptyString.

End GoStrings.

Export GoStrings.

(* ================================================================== *)
(** * The semantic model handed over by [go/types], [go/ast], [loader] *)

Module GoTypes.

(** [*types.Package]: only [Path()] and [Name()] are used. *)
Record Package : Type := mkPackage {
  Path : string;
  PkgName : string
}.

(** [*types.TypeName], the object behind a named type ([tn.Obj()]);
    [Pkg()] is nil for the types of the universe scope. *)
Record TypeName : Type := mkTypeName {
  tn_Pkg : option Package;
  tn_Name : string
}.

(** [types.Type], by dynamic kind.  [TOther] stands for the kinds the
    program never inspects (basic, slice, map, signature, ...). *)
Inductive GoType : Type :=
| TPointer (elem : GoType)
| TNamed (obj : TypeName) (underlying : GoType)
| TStruct (fields : list (string * GoType))
| TOther.

(** [typ.Underlying()]. *)
Definition Underlying (typ : GoType) : GoType :=
  match typ with
  | TNamed _ u => u
  | _ => typ
  end.

(** [types.Object], by dynamic kind. *)
Inductive ObjKind : Type :=
| KTypeName | KFunc | KVar | KConst | KPkgName | KBuiltin | KNil | KLabel.

Record Object : Type := mkObject {
  obj_kind : ObjKind;
  obj_Pkg : option Package;
  obj_Name : string;
  obj_Type : GoType
}.

(** [*types.Selection]: [Obj()] and [Recv()]. *)
Record Selection : Type := mkSelection {
  sel_Obj : Object;
  sel_Recv : GoType
}.

(** [ast.Node]: [Pos()] and [End()], both [token.Pos]. *)
Record Node : Type := mkNode {
  Pos : Z;
  End : Z
}.

(** [*ast.Ident]. *)
Record Ident : Type := mkIdent {
  id_node : Node;
  id_Name : string
}.

(** [ast.Expr], by dynamic kind; [EOther] stands for the kinds the
    program never inspects. *)
Inductive Expr : Type :=
| EIdent (id : Ident)
| EKeyValue (Key Value : Expr)
| ECompositeLit (n : Node) (Elts : list Expr)
| EOther (n : Node).

(** The expression seen as an [ast.Node]. *)
Fixpoint node_of (e : Expr) : Node :=
  match e with
  | EIdent id => id_node id
  | EKeyValue k v => mkNode (Pos (node_of k)) (End (node_of v))
  | ECompositeLit n _ => n
  | EOther n => n
  end.

(** [*ast.SelectorExpr]: [X.Sel]. *)
Record SelectorExpr : Type := mkSelectorExpr {
  sx_X : Expr;
  sx_Sel : Ident
}.

(** [*loader.PackageInfo].  The four binding planes are Go maps keyed
    by syntax nodes; they are listed in the order a [range] visits
    them, which Go leaves unspecified. *)
Record PackageInfo : Type := mkPackageInfo {
  Pkg : Package;
  Errors : list string;
  Selections : list (SelectorExpr * Selection);
  Uses : list (Ident * Object);
  Defs : list (Ident * option Object);
  Types : list (Expr * GoType)
}.

(** [token.Position]. *)
Record Position : Type := mkPosition {
  Filename : string;
  Offset : Z;
  Line : Z;
  Column : Z
}.

(** [*token.FileSet], through its [Position] method. *)
Definition FileSet : Type := Z -> Position.

End GoTypes.

Export GoTypes.

(* ================================================================== *)
(** * The query: [pkgPath], [objName], [selName] *)

Module QueryParser.

Record Query : Type := mkQuery {
  pkgPath : string;
  objName : string;
  selName : string
}.

Local Open Scope res_scope.

(** The first statements of [main] after the argument check:
<<
    paths := strings.Split(target, "/")
    names := strings.Split(paths[len(paths)-1], ".")
    pkgPath := strings.Join(append(paths[0:len(paths)-1], names[0]), "/")
    objName := names[1]
    selName := ""
    if len(names) > 2 { selName = names[2] }
>>
    [append] writes [names[0]] over the last element of [paths], whose
    backing array it shares; [paths] is not read again, and [names] was
    split off before. *)
Definition parseQuery (target : string) : Res Query :=
  let paths := Split target "/" in
  last_seg <- index paths (length paths - 1) ;;
  let names := Split last_seg "." in
  name0 <- index names 0 ;;
  let pkgPath := Join (firstn (length paths - 1) paths ++ [name0]) "/" in
  objName <- index names 1 ;;
  selName <- (if (2 <? length names)%nat then index names 2 else Ok "") ;;
  Ok (mkQuery pkgPath objName selName).

(** The dot-segments of the last [/]-segment of the query string. *)
Definition dot_segments (target : string) : list string :=
  Split (last (Split target "/") "") ".".

End QueryParser.

Export QueryParser.

(* ================================================================== *)
(** * The type matcher: the closure [fieldMatches] of [main] *)

Module TypeMatcher.

(** The loop
<<
    for { if typ is a pointer type p { typ = p.Elem() } else { break } }
>>
    which ends because a type has finitely many pointer constructors
    above its first non-pointer constructor. *)
Fixpoint stripPointers (typ : GoType) : GoType :=
  match typ with
  | TPointer elem => stripPointers elem
  | _ => typ
  end.

(** [fieldMatches(typ, sel)], with the captured [selName], [pkgPath]
    and [objName] passed as the query [q]. *)
Definition fieldMatches (q : Query) (typ : GoType) (sel : string) : bool :=
  if negb (sel =? selName q) then false
  else
    match stripPointers typ with
    | TNamed tn _ =>
        match tn_Pkg tn with
        | None => false
        | Some pkg => (Path pkg =? pkgPath q) && (tn_Name tn =? objName q)
        end
    | _ => false
    end.

(** [n] pointer indirections above [base]. *)
Definition pointers (n : nat) (base : GoType) : GoType :=
  Nat.iter n TPointer base.

Definition is_pointer (typ : GoType) : bool :=
  match typ with TPointer _ => true | _ => false end.

End TypeMatcher.

Export TypeMatcher.

(* ================================================================== *)
(** * The four scanners *)

Module Scanners.

Local Open Scope res_scope.

(** What one goroutine sends on the channel [c] while it ranges over a
    plane: the sends of each entry, in visiting order.  A panic in the
    body ends the program. *)
Fixpoint rangeOver {A : Type} (body : A -> Res (list Node)) (plane : list A)
  : Res (list Node) :=
  match plane with
  | [] => Ok []
  | entry :: rest =>
      sent <- body entry ;;
      more <- rangeOver body rest ;;
      Ok (sent ++ more)
  end.

(** ** Selections *)

Definition scanSelection (q : Query) (entry : SelectorExpr * Selection)
  : Res (list Node) :=
  let (expr, sel) := entry in
  match obj_kind (sel_Obj sel) with
  | KVar | KFunc =>
      if fieldMatches q (sel_Recv sel) (obj_Name (sel_Obj sel))
      then Ok [id_node (sx_Sel expr)]
      else Ok []
  | _ => Panic "unreachable"
  end.

(** ** Uses *)

(** [funcType.Pkg() != nil && funcType.Pkg().Path() == pkgPath &&
    funcType.Name() == objName]. *)
Definition funcNamed (q : Query) (obj : Object) : bool :=
  match obj_Pkg obj with
  | None => false
  | Some pkg => (Path pkg =? pkgPath q) && (obj_Name obj =? objName q)
  end.

Definition scanUse (q : Query) (entry : Ident * Object) : list Node :=
  let (ident, obj) := entry in
  match obj_kind obj with
  | KTypeName => []
  | KFunc =>
      if funcNamed q obj then [id_node ident]
      else if fieldMatches q (obj_Type obj) "" then [id_node ident] else []
  | _ => if fieldMatches q (obj_Type obj) "" then [id_node ident] else []
  end.

(** ** Defs *)

Definition scanDef (q : Query) (entry : Ident * option Object) : list Node :=
  let (ident, o) := entry in
  match o with
  | None => []
  | Some obj => if fieldMatches q (obj_Type obj) "" then [id_node ident] else []
  end.

(** ** Composite literals *)

(** The loop over the elements of a keyed literal; the assertions of
    [elt] to a key-value expression and of [kv.Key] to an identifier are
    unchecked and panic when they fail. *)
Fixpoint scanKeyed (sel : string) (elts : list Expr) : Res (list Node) :=
  match elts with
  | [] => Ok []
  | EKeyValue key _ :: rest =>
      match key with
      | EIdent id =>
          if id_Name id =? sel then Ok [node_of key] else scanKeyed sel rest
      | _ => Panic "interface conversion"
      end
  | _ :: _ => Panic "interface conversion"
  end.

(** The loop over the elements of a positional literal, from index [i];
    [st.Field(i)] indexes the field slice. *)
Fixpoint scanPositional (fields : list (string * GoType)) (sel : string)
    (elts : list Expr) (i : nat) : Res (list Node) :=
  match elts with
  | [] => Ok []
  | elt :: rest =>
      field <- index fields i ;;
      if fst field =? sel then Ok [node_of elt]
      else scanPositional fields sel rest (S i)
  end.

(** The index of the first field named [sel]. *)
Fixpoint firstFieldNamed (sel : string) (fields : list (string * GoType))
  : option nat :=
  match fields with
  | [] => None
  | field :: rest =>
      if fst field =? sel then Some 0
      else option_map S (firstFieldNamed sel rest)
  end.

Definition is_KeyValue (e : Expr) : bool :=
  match e with EKeyValue _ _ => true | _ => false end.

(** The body of the loop over [pi.Types]. *)
Definition scanTypeExpr (q : Query) (entry : Expr * GoType) : Res (list Node) :=
  let (expr, tvType) := entry in
  match expr with
  | ECompositeLit _ [] => Ok []
  | ECompositeLit _ ((elt0 :: _) as elts) =>
      if negb (fieldMatches q tvType (selName q)) then Ok []
      else
        match Underlying tvType with
        | TStruct fields =>
            if is_KeyValue elt0 then scanKeyed (selName q) elts
            else scanPositional fields (selName q) elts 0
        | _ => Ok []
        end
  | _ => Ok []
  end.

(** ** One package: the goroutines started for [pi] *)

Definition pure {A : Type} (f : A -> list Node) (a : A) : Res (list Node) :=
  Ok (f a).

Definition scanPackage (q : Query) (pi : PackageInfo) : Res (list Node) :=
  sels <- rangeOver (scanSelection q) (Selections pi) ;;
  uses <- rangeOver (pure (scanUse q)) (Uses pi) ;;
  defs <- rangeOver (pure (scanDef q)) (Defs pi) ;;
  lits <- (if negb (selName q =? "")
           then rangeOver (scanTypeExpr q) (Types pi)
           else Ok []) ;;
  Ok (sels ++ uses ++ defs ++ lits).

End Scanners.

Export Scanners.


(* ================================================================== *)
(** * The loop of [main] over [prog.InitialPackages()] *)

Module PackageLoop.

(** [log.Printf] under [log.SetFlags(0)] and [log.SetPrefix("gofind: ")]:
    one line of the error stream. *)
Definition logPrintf (msg : string) : string := ("gofind: " ++ msg)%string.

(** [%d] on a non-negative [int]. *)
Definition decimal (n : nat) : string :=
  DecimalString.NilEmpty.string_of_uint (Nat.to_uint n).

(** The diagnostic for a package with [len(pi.Errors) != 0]. *)
Definition diagnostic (pi : PackageInfo) : string :=
  match Errors pi with
  | [] => logPrintf ""
  | [err] => logPrintf (PkgName (Pkg pi) ++ ": " ++ err)%string
  | err :: rest =>
      logPrintf (PkgName (Pkg pi) ++ ": " ++ err ++ " and "
                 ++ decimal (length rest) ++ " error(s)")%string
  end.

(** One iteration: the lines the loop itself logs, and what the
    goroutines started for [pi] send on [c].  The lines that the
    goroutines log through [debugf] when [GOFIND_DEBUG] is set are not
    among them; [runLog] adds them. *)
Definition visitPackage (q : Query) (flagQuiet : bool) (pi : PackageInfo)
  : list string * Res (list Node) :=
  match Errors pi with
  | _ :: _ =>
      ((if negb flagQuiet then [diagnostic pi] else []), Ok [])
  | [] => ([], scanPackage q pi)
  end.

(** The whole loop, followed by [wg.Wait()]: every line the loop logs
    and every node sent, package by package. *)
Fixpoint scanProgram (q : Query) (flagQuiet : bool) (prog : list PackageInfo)
  : list string * Res (list Node) :=
  match prog with
  | [] => ([], Ok [])
  | pi :: rest =>
      let (log1, sent1) := visitPackage q flagQuiet pi in
      let (log2, sent2) := scanProgram q flagQuiet rest in
      (log1 ++ log2,
       bind sent1 (fun s1 => bind sent2 (fun s2 => Ok (s1 ++ s2))))
  end.

End PackageLoop.

Export PackageLoop.

(* ================================================================== *)
(** * The collected nodes and their order: [result], [Len], [Less], [Swap] *)

Module Collector.

Record result : Type := mkResult {
  fset : FileSet;
  nodes : list Node
}.

Definition Len (r : result) : nat := length (nodes r).

(** The comparison of [Less] on two nodes:
<<
    if p.Filename == q.Filename { return p.Offset < q.Offset }
    else { return p.Filename < q.Filename }
>>
    Go compares strings bytewise, as [String.ltb] does. *)
Definition lessNodes (fs : FileSet) (a b : Node) : bool :=
  let p := fs (Pos a) in
  let q := fs (Pos b) in
  if (Filename p =? Filename q)%string then (Offset p <? Offset q)%Z
  else (Filename p <? Filename q)%string.

Definition Less (r : result) (i j : nat) : Res bool :=
  bind (index (nodes r) i) (fun a =>
  bind (index (nodes r) j) (fun b =>
  Ok (lessNodes (fset r) a b))).

Fixpoint store (l : list Node) (i : nat) (x : Node) : list Node :=
  match l, i with
  | [], _ => []
  | _ :: l', O => x :: l'
  | y :: l', S i' => y :: store l' i' x
  end.

Definition Swap (r : result) (i j : nat) : Res result :=
  bind (index (nodes r) i) (fun a =>
  bind (index (nodes r) j) (fun b =>
  Ok (mkResult (fset r) (store (store (nodes r) i b) j a)))).

(** ** [sort.Sort]

    [sort.Sort] belongs to the Go library.  Its contract: the slice is
    permuted, and afterwards no element is [Less] than its predecessor
    (what [sort.IsSorted] checks); the sort is not stable. *)
Definition IsSorted (fs : FileSet) (l : list Node) : Prop :=
  Sorted (fun a b => lessNodes fs b a = false) l.

Definition SortResult (fs : FileSet) (input output : list Node) : Prop :=
  Permutation input output /\ IsSorted fs output.

(** A function that can stand for [sort.Sort]. *)
Definition sorts (sorter : FileSet -> list Node -> list Node) : Prop :=
  forall fs l, SortResult fs l (sorter fs l).

(** The library's insertion sort (the one [sort.Sort] runs on short
    slices), on lists: each element in turn is put into the sorted part
    before it, behind the elements it is not [Less] than. *)
Fixpoint insertSorted (fs : FileSet) (x : Node) (sorted : list Node)
  : list Node :=
  match sorted with
  | [] => [x]
  | y :: rest =>
      if lessNodes fs x y then x :: sorted
      else y :: insertSorted fs x rest
  end.

Definition insertionSort (fs : FileSet) (l : list Node) : list Node :=
  fold_left (fun sorted x => insertSorted fs x sorted) l [].

(** ** Arrival order

    The goroutines send concurrently, so the collector appends the
    nodes in some order of arrival: a schedule permutes what was sent. *)
Definition schedules (schedule : list Node -> list Node) : Prop :=
  forall l, Permutation l (schedule l).

(** No two different nodes start at the same offset of the same file. *)
Definition tie_free (fs : FileSet) (l : list Node) : Prop :=
  forall a b, In a l -> In b l ->
    Filename (fs (Pos a)) = Filename (fs (Pos b)) ->
    Offset (fs (Pos a)) = Offset (fs (Pos b)) ->
    a = b.

End Collector.

Export Collector.

(* ================================================================== *)
(** * The grouping loop: display records with their highlights *)

Record highlight : Type := mkHighlight {
  hl_start : Z;
  hl_end : Z
}.

Module Display.

(** The [result] type local to [main]. *)
Record result : Type := mkResult {
  filename : string;
  line : Z;
  highlights : list highlight
}.

End Display.

Module Grouper.

(** [results] holds pointers to the records, and [curr] points to one
    of them: a record is addressed by its index in [results], where
    every record is put as soon as it is allocated. *)
Record groupState : Type := mkGroupState {
  results : list Display.result;
  curr : option nat
}.

Definition initialState : groupState := mkGroupState [] None.

(** [highlight{p.Column - 1, p.Column - 1 + int(n.End()-n.Pos())}]. *)
Definition highlightOf (fs : FileSet) (n : Node) : highlight :=
  let p := fs (Pos n) in
  mkHighlight (Column p - 1) (Column p - 1 + (End n - Pos n)).

Fixpoint updateAt (l : list Display.result) (i : nat)
    (f : Display.result -> Display.result) : list Display.result :=
  match l, i with
  | [], _ => []
  | r :: l', O => f r :: l'
  | r :: l', S i' => r :: updateAt l' i' f
  end.

Definition appendHighlight (hl : highlight) (r : Display.result)
  : Display.result :=
  Display.mkResult (Display.filename r) (Display.line r)
                   (Display.highlights r ++ [hl]).

(** The body of the loop over [res.nodes]. *)
Definition groupStep (fs : FileSet) (st : groupState) (n : Node) : groupState :=
  let p := fs (Pos n) in
  let hl := highlightOf fs n in
  let fresh :=
    mkGroupState
      (results st ++ [Display.mkResult (Filename p) (Line p) [hl]])
      (Some (length (results st))) in
  match curr st with
  | None => fresh
  | Some a =>
      match nth_error (results st) a with
      | None => fresh
      | Some r =>
          if (Filename p =? Display.filename r)%string
             && (Line p =? Display.line r)%Z
          then mkGroupState (updateAt (results st) a (appendHighlight hl))
                            (Some a)
          else fresh
      end
  end.

(** The state after the loop has walked [sorted]. *)
Definition groupRun (fs : FileSet) (sorted : list Node) : groupState :=
  fold_left (groupStep fs) sorted initialState.

Definition groupNodes (fs : FileSet) (sorted : list Node)
  : list Display.result :=
  results (groupRun fs sorted).

(** Two column ranges without a common column. *)
Definition spansDisjoint (a b : highlight) : Prop :=
  (hl_end a <= hl_start b)%Z \/ (hl_end b <= hl_start a)%Z.

(** The record allocated for a node that starts a new line. *)
Definition recordOf (fs : FileSet) (n : Node) : Display.result :=
  Display.mkResult (Filename (fs (Pos n))) (Line (fs (Pos n)))
                   [highlightOf fs n].

(** Two nodes on the same line of the same file. *)
Definition sameLine (fs : FileSet) (a b : Node) : Prop :=
  Filename (fs (Pos a)) = Filename (fs (Pos b))
  /\ Line (fs (Pos a)) = Line (fs (Pos b)).

End Grouper.

Export Grouper.

(* ================================================================== *)
(** * [main] *)

Module Main.

(** The front end ([conf.FromArgs] and [conf.Load]): an error, or the
    file set and the initial packages. *)
Inductive LoadResult : Type :=
| LoadError (err : string)
| Loaded (fs : FileSet) (prog : list PackageInfo).

(** How a run ends: the usage message and [os.Exit(2)], [log.Fatal],
    a run-time panic, or the display records handed to the printing
    loop together with the lines the loop over the packages logged.
    With [GOFIND_DEBUG] set the goroutines log lines of their own in
    between; [runLog] describes the whole log. *)
Inductive Outcome : Type :=
| Exit2
| Fatal (err : string)
| Panicked (msg : string)
| Completed (log : list string) (records : list Display.result).

(** [main] up to the printing loop.  [args] is [flag.Args()];
    [schedule] is the order in which the collector receives the nodes
    and [sort_Sort] the library sort. *)
Definition gofind
    (schedule : list Node -> list Node)
    (sort_Sort : FileSet -> list Node -> list Node)
    (flagQuiet : bool) (args : list string)
    (frontEnd : list string -> LoadResult) : Outcome :=
  match args with
  | target :: ((_ :: _) as pkgArgs) =>
      match parseQuery target with
      | Panic msg => Panicked msg
      | Ok q =>
          match frontEnd pkgArgs with
          | LoadError err => Fatal err
          | Loaded fs prog =>
              let (log, sent) := scanProgram q flagQuiet prog in
              match sent with
              | Panic msg => Panicked msg
              | Ok emitted =>
                  let res := mkResult fs (schedule emitted) in
                  let sorted := sort_Sort (fset res) (nodes res) in
                  Completed log (groupNodes fs sorted)
              end
          end
      end
  | _ => Exit2
  end.

(** Two views of one package that differ only in the order in which
    [range] visits the maps of the four planes. *)
Definition samePlanes (pi pi' : PackageInfo) : Prop :=
  Pkg pi = Pkg pi'
  /\ Errors pi = Errors pi'
  /\ Permutation (Selections pi) (Selections pi')
  /\ Permutation (Uses pi) (Uses pi')
  /\ Permutation (Defs pi) (Defs pi')
  /\ Permutation (Types pi) (Types pi').

(** What two visits of one plane in different orders send: the same
    nodes up to order, or a panic in both. *)
Definition sendAlike (r r' : Res (list Node)) : Prop :=
  match r, r' with
  | Ok out, Ok out' => Permutation out out'
  | Panic _, Panic _ => True
  | _, _ => False
  end.

(** Two loads of the same corpus. *)
Definition sameCorpus (r r' : LoadResult) : Prop :=
  match r, r' with
  | LoadError err, LoadError err' => err = err'
  | Loaded fs prog, Loaded fs' prog' =>
      fs = fs' /\ Forall2 samePlanes prog prog'
  | _, _ => False
  end.

(** Two runs end alike: with the same outcome, a panic counting as one
    outcome whatever its message. *)
Definition endAlike (o o' : Outcome) : Prop :=
  match o, o' with
  | Panicked _, Panicked _ => True
  | _, _ => o = o'
  end.

(** The display records of a run that completes. *)
Definition recordsOf (o : Outcome) : option (list Display.result) :=
  match o with
  | Completed _ records => Some records
  | _ => None
  end.

(** The nodes a run sends to the collector, in the order of the
    planes, when the run gets as far as collecting. *)
Definition collected (flagQuiet : bool) (args : list string)
    (frontEnd : list string -> LoadResult) : option (FileSet * list Node) :=
  match args with
  | target :: ((_ :: _) as pkgArgs) =>
      match parseQuery target, frontEnd pkgArgs with
      | Ok q, Loaded fs prog =>
          match snd (scanProgram q flagQuiet prog) with
          | Ok emitted => Some (fs, emitted)
          | Panic _ => None
          end
      | _, _ => None
      end
  | _ => None
  end.

End Main.

Export Main.

(* ================================================================== *)
(** * Data used to instantiate the theorems *)

Module Demo.

Definition httpPkg : Package := mkPackage "net/http" "http".
Definition ClientType : GoType :=
  TNamed (mkTypeName (Some httpPkg) "Client") (TStruct [("Transport", TOther); ("Jar", TOther)]).
Definition errorType : GoType := TNamed (mkTypeName None "error") TOther.

Definition qClient : Query := mkQuery "net/http" "Client" "".
Definition qClientJar : Query := mkQuery "net/http" "Client" "Jar".
Definition qGet : Query := mkQuery "net/http" "Get" "Do".

(** A file set with one file of 80-byte lines, [Pos] being the offset
    plus one. *)
Definition oneFile : FileSet :=
  fun pos => mkPosition "client.go" (pos - 1) ((pos - 1) / 80 + 1)
                        ((pos - 1) mod 80 + 1).

(** A file set with two files of 1000 bytes each. *)
Definition twoFiles : FileSet :=
  fun pos =>
    if (pos <=? 1000)%Z
    then mkPosition "a.go" (pos - 1) ((pos - 1) / 80 + 1) ((pos - 1) mod 80 + 1)
    else mkPosition "b.go" (pos - 1001) ((pos - 1001) / 80 + 1)
                    ((pos - 1001) mod 80 + 1).

Definition ident (pos : Z) (name : string) : Ident :=
  mkIdent (mkNode pos (pos + Z.of_nat (String.length name))) name.

Definition clientVar : Object := mkObject KVar (Some httpPkg) "c" ClientType.
Definition GetFunc : Object := mkObject KFunc (Some httpPkg) "Get" TOther.
Definition ClientTypeName : Object :=
  mkObject KTypeName (Some httpPkg) "Client" ClientType.

Definition goodPkg : PackageInfo :=
  mkPackageInfo httpPkg []
    []
    [(ident 110 "c", clientVar); (ident 21 "c", clientVar);
     (ident 50 "Client", ClientTypeName)]
    [(ident 5 "c", Some clientVar); (ident 90 "_", None)]
    [].

(** [goodPkg] with its maps visited in another order. *)
Definition goodPkgReordered : PackageInfo :=
  mkPackageInfo httpPkg []
    []
    [(ident 21 "c", clientVar); (ident 50 "Client", ClientTypeName);
     (ident 110 "c", clientVar)]
    [(ident 90 "_", None); (ident 5 "c", Some clientVar)]
    [].

Definition badPkg : PackageInfo :=
  mkPackageInfo (mkPackage "example.org/broken" "broken")
    ["undeclared name: x"; "missing return"; "unused variable y"]
    [] [(ident 700 "c", clientVar)] [] [].

End Demo.


(* ================================================================== *)
(** * Predicates on plane entries *)

Module PlaneEntries.

(** The object of a selection is a [*types.Var] or a [*types.Func]. *)
Definition isVarOrFunc (obj : Object) : bool :=
  match obj_kind obj with
  | KVar | KFunc => true
  | _ => false
  end.

(** The receiver of the selection matches, with the member's name as
    selector. *)
Definition selectionMatches (q : Query) (entry : SelectorExpr * Selection) : bool :=
  fieldMatches q (sel_Recv (snd entry)) (obj_Name (sel_Obj (snd entry))).

(** The package was loaded without errors. *)
Definition errorFree (pi : PackageInfo) : bool :=
  match Errors pi with
  | [] => true
  | _ :: _ => false
  end.

End PlaneEntries.

Export PlaneEntries.

Module PlaneEntries2.

(** The use is bound to a function or method named [objName] of a
    package with path [pkgPath]. *)
Definition callableNamed (q : Query) (entry : Ident * Object) : bool :=
  match obj_kind (snd entry) with
  | KFunc => funcNamed q (snd entry)
  | _ => false
  end.

(** The element [key: value] of a keyed literal. *)
Definition keyed (kv : Ident * Expr) : Expr :=
  EKeyValue (EIdent (fst kv)) (snd kv).

(** [pi] with another [Types] plane. *)
Definition withTypes (pi : PackageInfo) (types : list (Expr * GoType)) : PackageInfo :=
  mkPackageInfo (Pkg pi) (Errors pi) (Selections pi) (Uses pi) (Defs pi) types.

End PlaneEntries2.

Export PlaneEntries2.

(* ================================================================== *)
(** * Predicates on display records *)

Module Records.

(** Two records for the same line of the same file. *)
Definition sameKey (r1 r2 : Display.result) : Prop :=
  Display.filename r1 = Display.filename r2
  /\ Display.line r1 = Display.line r2.

(** No record is followed by a record for the same line of the same
    file. *)
Fixpoint linesChange (records : list Display.result) : Prop :=
  match records with
  | r1 :: ((r2 :: _) as rest) => ~ sameKey r1 r2 /\ linesChange rest
  | _ => True
  end.

End Records.

Export Records.

(* ================================================================== *)
(** * More data used to instantiate the theorems *)

Module DemoPlanes.

Definition JarField : Object := mkObject KVar (Some Demo.httpPkg) "Jar" TOther.
Definition DoMethod : Object := mkObject KFunc (Some Demo.httpPkg) "Do" TOther.

(** [c.Jar] with [c] a [*Client], and [c.Do] with [c] a [Client]. *)
Definition selections : list (SelectorExpr * Selection) :=
  [(mkSelectorExpr (EOther (mkNode 10 11)) (Demo.ident 12 "Jar"),
    mkSelection JarField (TPointer Demo.ClientType));
   (mkSelectorExpr (EOther (mkNode 20 21)) (Demo.ident 22 "Do"),
    mkSelection DoMethod Demo.ClientType)].

(** A selection whose object is neither a variable nor a function. *)
Definition oddSelections : list (SelectorExpr * Selection) :=
  [(mkSelectorExpr (EOther (mkNode 10 11)) (Demo.ident 12 "Jar"),
    mkSelection (mkObject KConst (Some Demo.httpPkg) "Jar" TOther)
                Demo.ClientType)].

End DemoPlanes.

(* ================================================================== *)
(** * The printing loop of [main] *)

Module Renderer.

Local Open Scope res_scope.

(** The escape sequences [\x1b[31m] and [\x1b[0m]. *)
Definition esc : ascii := ascii_of_nat 27.
Definition red : string := String esc "[31m".
Definition reset : string := String esc "[0m".

(** [line[lo:hi]] on the bytes of a line.  Go panics unless
    [0 <= lo <= hi <= cap(line)]; the lines come from [bytes.Split],
    which gives every line a capacity equal to its length (Go 1.10 and
    later), so that the bound is the length of the line. *)
Definition slice (line : string) (lo hi : Z) : Res string :=
  if ((0 <=? lo) && (lo <=? hi) && (hi <=? Z.of_nat (String.length line)))%Z
  then Ok (substring (Z.to_nat lo) (Z.to_nat (hi - lo)) line)
  else Panic "slice bounds out of range".

(** The loop over [result.highlights]:
<<
    fmt.Fprintf(&hlBuf, "%s\x1b[31m%s\x1b[0m", line[pos:hl.start], line[hl.start:hl.end])
    pos = hl.end
>>
    from the buffer [hlBuf] and the position [pos]. *)
Fixpoint writeHighlights (line : string) (hls : list highlight)
    (pos : Z) (hlBuf : string) : Res (string * Z) :=
  match hls with
  | [] => Ok (hlBuf, pos)
  | hl :: rest =>
      before <- slice line pos (hl_start hl) ;;
      token <- slice line (hl_start hl) (hl_end hl) ;;
      writeHighlights line rest (hl_end hl)
        (hlBuf ++ before ++ red ++ token ++ reset)%string
  end.

(** The annotated text of a line: the loop, then
    [fmt.Fprintf(&hlBuf, "%s", line[pos:])]. *)
Definition renderLine (line : string) (hls : list highlight) : Res string :=
  st <- writeHighlights line hls 0 "" ;;
  rest <- slice line (snd st) (Z.of_nat (String.length line)) ;;
  Ok (fst st ++ rest)%string.

(** [%d] on an [int]. *)
Definition decimalZ (z : Z) : string :=
  if (z <? 0)%Z then ("-" ++ decimal (Z.to_nat (- z)))%string
  else decimal (Z.to_nat z).

(** [lines[i]] with an [int] index. *)
Definition indexZ (lines : list string) (i : Z) : Res string :=
  if (i <? 0)%Z then Panic "index out of range"
  else index lines (Z.to_nat i).

(** [ioutil.ReadFile]: the bytes of the file, or an error. *)
Inductive FileRead : Type :=
| FileBytes (b : string)
| ReadError (err : string).

Definition FileSystem : Type := string -> FileRead.

(** The state of the printing loop: the map [fileLines], and as traces
    of its effects the files read with [ioutil.ReadFile] and the lines
    written to the standard output, both in order. *)
Record PrintState : Type := mkPrintState {
  fileLines : list (string * list string);
  filesRead : list string;
  printed : list string
}.

Definition initialPrintState : PrintState := mkPrintState [] [] [].

(** How the printing loop ends: at the end of [results], in
    [log.Fatal(err)] after a failed read, or in a panic. *)
Inductive PrintEnd : Type :=
| PrintDone
| ReadFatal (err : string)
| PrintPanic (msg : string).

(** [fileLines[filename]]: the lines stored for the key, [None] for the
    nil slice of a missing key.  A stored value is never nil, since
    [bytes.Split] returns at least one line. *)
Fixpoint lookupLines (cache : list (string * list string)) (filename : string)
  : option (list string) :=
  match cache with
  | [] => None
  | (name, lines) :: rest =>
      if (name =? filename)%string then Some lines
      else lookupLines rest filename
  end.

(** The line printed for a record. *)
Definition outputLine (displayName : string) (lineNo : Z) (text : string) : string :=
  (displayName ++ ":" ++ decimalZ lineNo ++ ":" ++ text
   ++ String (ascii_of_nat 10) "")%string.

(** The loop [for _, result := range results] that prints the records.
    [simplify] is [simplifyFilename]. *)
Fixpoint printResults (simplify : string -> string) (fsys : FileSystem)
    (results : list Display.result) (st : PrintState) : PrintState * PrintEnd :=
  match results with
  | [] => (st, PrintDone)
  | result :: rest =>
      let filename := Display.filename result in
      let loaded :=
        match lookupLines (fileLines st) filename with
        | Some lines => inl (lines, st)
        | None =>
            let st' := mkPrintState (fileLines st)
                                    (filesRead st ++ [filename]) (printed st) in
            match fsys filename with
            | ReadError err => inr (st', ReadFatal err)
            | FileBytes b =>
                let lines := Split b (ascii_of_nat 10) in
                inl (lines,
                     mkPrintState ((filename, lines) :: fileLines st)
                                  (filesRead st') (printed st'))
            end
        end in
      match loaded with
      | inr stopped => stopped
      | inl (lines, st1) =>
          match indexZ lines (Display.line result - 1) with
          | Panic msg => (st1, PrintPanic msg)
          | Ok line =>
              match renderLine line (Display.highlights result) with
              | Panic msg => (st1, PrintPanic msg)
              | Ok text =>
                  printResults simplify fsys rest
                    (mkPrintState (fileLines st1) (filesRead st1)
                       (printed st1
                        ++ [outputLine (simplify filename)
                                       (Display.line result) text]))
              end
          end
      end
  end.

(** The text between and around the escape sequences: every escape
    sequence, from the escape byte to the next [m], is left out. *)
Fixpoint stripEscapes (s : string) (inEscape : bool) : string :=
  match s with
  | EmptyString => EmptyString
  | String c s' =>
      if inEscape then stripEscapes s' (negb (Ascii.eqb c "m"))
      else if Ascii.eqb c esc then stripEscapes s' true
      else String c (stripEscapes s' false)
  end.

(** The highlights lie in the line from [pos] on, one after the other. *)
Fixpoint fits (len : Z) (pos : Z) (hls : list highlight) : Prop :=
  match hls with
  | [] => (pos <= len)%Z
  | hl :: rest =>
      (pos <= hl_start hl)%Z /\ (hl_start hl <= hl_end hl)%Z
      /\ fits len (hl_end hl) rest
  end.

End Renderer.

Export Renderer.

(* ================================================================== *)
(** * [simplifyFilename] and the local-package test of [main] *)

Module Filenames.

(** [strings.HasPrefix] and [strings.HasSuffix]. *)
Definition HasPrefix (s prefix : string) : bool :=
  (String.length prefix <=? String.length s)%nat
  && (substring 0 (String.length prefix) s =? prefix)%string.

Definition HasSuffix (s suffix : string) : bool :=
  (String.length suffix <=? String.length s)%nat
  && (substring (String.length s - String.length suffix)
                (String.length suffix) s =? suffix)%string.

(** The test on one argument; [separator] is [filepath.Separator]. *)
Definition isLocalArg (separator : ascii) (a : string) : bool :=
  HasSuffix a ".go" || HasPrefix a "./"
  || HasPrefix a (String "." (String separator "")).

(** The loop over [args] that sets [hasLocalPkg], with its [break]. *)
Fixpoint localPkgLoop (separator : ascii) (args : list string)
    (hasLocalPkg : bool) : bool :=
  match args with
  | [] => hasLocalPkg
  | a :: rest =>
      if isLocalArg separator a then true
      else localPkgLoop separator rest hasLocalPkg
  end.

(** What [simplifyFilename] reads from outside: the flags [-p] and [-s],
    [hasLocalPkg], [build.Default.SrcDirs()], [os.Getwd()] ([None] for an
    error), [filepath.Rel] (the empty string when it returns an error, as
    the program drops the error) and [filepath.Base]. *)
Record PathEnv : Type := mkPathEnv {
  flagFullpath : bool;
  flagSimple : bool;
  hasLocalPkg : bool;
  SrcDirs : list string;
  Getwd : option string;
  Rel : string -> string -> string;
  Base : string -> string
}.

(** The directories the loop of [simplifyFilename] tries. *)
Definition searchDirs (env : PathEnv) : list string :=
  SrcDirs env
  ++ (if hasLocalPkg env
      then match Getwd env with Some wd => [wd] | None => [] end
      else []).

(** The body of the loop: [fn] replaces [simple] when it is not empty
    and shorter. *)
Definition shorter (env : PathEnv) (filename simple d : string) : string :=
  let fn := Rel env d filename in
  if negb (fn =? "")%string && (String.length fn <? String.length simple)%nat
  then fn else simple.

Definition simplifyFilename (env : PathEnv) (filename : string) : string :=
  if flagFullpath env then filename
  else if flagSimple env then Base env filename
  else fold_left (shorter env filename) (searchDirs env) filename.

End Filenames.

Export Filenames.

(* ================================================================== *)
(** * A type with a method of its own name *)

Module DemoMethod.

Definition pkg : Package := mkPackage "example.org/p" "p".
Definition FooType : GoType := TNamed (mkTypeName (Some pkg) "Foo") (TStruct []).
Definition FooMethod : Object := mkObject KFunc (Some pkg) "Foo" TOther.
Definition query : Query := mkQuery "example.org/p" "Foo" "Foo".

(** [x.Foo] with [x] of type [Foo]. *)
Definition call : SelectorExpr :=
  mkSelectorExpr (EOther (mkNode 41 42)) (Demo.ident 43 "Foo").

Definition package : PackageInfo :=
  mkPackageInfo pkg []
    [(call, mkSelection FooMethod FooType)]
    [(sx_Sel call, FooMethod)]
    [] [].

(** A file system with one file. *)
Definition files : FileSystem :=
  fun name =>
    if (name =? "client.go")%string
    then FileBytes ("package http" ++ String (ascii_of_nat 10)
                    ("var c Client = x" ++ String (ascii_of_nat 10) ""))%string
    else ReadError "no such file".

(** Paths are shown relative to [/go/src]. *)
Definition pathEnv : PathEnv :=
  mkPathEnv false false true ["/go/src"] (Some "/home/me")
    (fun d filename =>
       if HasPrefix filename (d ++ "/")%string
       then substring (S (String.length d))
                      (String.length filename - S (String.length d)) filename
       else "")
    (fun filename => filename).

End DemoMethod.

(* ================================================================== *)
(** * Invariants of the printing loop *)

Module PrintInvariants.

(** The files read so far were read once each, and are the keys of the
    cache; the cache holds for each key the lines of the file. *)
Definition cacheInvariant (fsys : FileSystem) (st : PrintState) : Prop :=
  NoDup (filesRead st)
  /\ (forall name,
        In name (filesRead st) <-> lookupLines (fileLines st) name <> None)
  /\ (forall name lines,
        lookupLines (fileLines st) name = Some lines ->
        exists b, fsys name = FileBytes b /\ lines = Split b (ascii_of_nat 10)).

(** The state after a record was printed. *)
Definition afterPrint (st : PrintState) (line : string) : PrintState :=
  mkPrintState (fileLines st) (filesRead st) (printed st ++ [line]).

(** The state after a file was read, successfully or not. *)
Definition afterRead (st : PrintState) (filename : string)
    (lines : option (list string)) : PrintState :=
  mkPrintState
    (match lines with
     | Some ls => (filename, ls) :: fileLines st
     | None => fileLines st
     end)
    (filesRead st ++ [filename]) (printed st).

(** The line [text] is what the loop prints for [record]: the display
    name, the line number and the annotated line of the file. *)
Definition printsRecord (simplify : string -> string) (fsys : FileSystem)
    (record : Display.result) (text : string) : Prop :=
  exists b src annotated,
    fsys (Display.filename record) = FileBytes b
    /\ indexZ (Split b (ascii_of_nat 10)) (Display.line record - 1) = Ok src
    /\ renderLine src (Display.highlights record) = Ok annotated
    /\ text = outputLine (simplify (Display.filename record))
                         (Display.line record) annotated.

(** What the loop does with a record once it has the lines of its
    file. *)
Definition continueWith (simplify : string -> string) (fsys : FileSystem)
    (result : Display.result) (rest : list Display.result)
    (lines : list string) (st1 : PrintState) : PrintState * PrintEnd :=
  match indexZ lines (Display.line result - 1) with
  | Panic msg => (st1, PrintPanic msg)
  | Ok line =>
      match renderLine line (Display.highlights result) with
      | Panic msg => (st1, PrintPanic msg)
      | Ok text =>
          printResults simplify fsys rest
            (afterPrint st1 (outputLine (simplify (Display.filename result))
                                        (Display.line result) text))
      end
  end.

End PrintInvariants.

Export PrintInvariants.

(* ================================================================== *)
(** * What the type checker guarantees of positional literals *)

Module FrontEndContract.

(** The invariant the positional branch relies on ("here must hold
    st.NumFields() == len(comp.Elts)"): [go/types] accepts a struct
    literal with positional elements only with one element for each field,
    and reports a literal with too few or too many values as a type error
    of its package, which is then listed in [pi.Errors]. *)
Definition positionalCountsChecked (pi : PackageInfo) : Prop :=
  forall lit elt0 elts typ fields,
    In (ECompositeLit lit (elt0 :: elts), typ) (Types pi) ->
    Underlying typ = TStruct fields ->
    is_KeyValue elt0 = false ->
    length (elt0 :: elts) <> length fields ->
    Errors pi <> [].

End FrontEndContract.

Export FrontEndContract.

(* ================================================================== *)
(** * Packages with positional literals *)

Module DemoLiterals.

(** [Client{t, jar}]. *)
Definition fullLiteral : Expr :=
  ECompositeLit (mkNode 200 230)
    [EOther (mkNode 207 208); EOther (mkNode 210 213)].

(** [Client{t}]: too few values. *)
Definition shortLiteral : Expr :=
  ECompositeLit (mkNode 200 230) [EOther (mkNode 207 208)].

Definition checkedPkg : PackageInfo :=
  mkPackageInfo Demo.httpPkg [] [] [] [] [(fullLiteral, Demo.ClientType)].

Definition brokenPkg : PackageInfo :=
  mkPackageInfo (mkPackage "example.org/broken" "broken")
    ["too few values in struct literal"]
    [] [] [] [(shortLiteral, Demo.ClientType)].

End DemoLiterals.

(* ================================================================== *)
(** * The debug lines of the goroutines: [debugf] *)

Module DebugLog.

(** [debugf(format, args...)]: one line of the log when [GOFIND_DEBUG]
    is set, nothing otherwise.  [message] is the text [fmt] makes of the
    format and its arguments. *)
Definition debugf (debugMode : bool) (message : string) : list string :=
  if debugMode then [logPrintf ("debug: " ++ message)%string] else [].

(** The nodes sent by a goroutine that does not panic. *)
Definition sentBy (r : Res (list Node)) : list Node :=
  match r with
  | Ok out => out
  | Panic _ => []
  end.

(** The debug lines of the goroutines started for [pi], one sequence
    for each goroutine: every send is preceded by one call of [debugf].
    [show n] is what [%v] prints for the node; the definition scanner
    calls [debugf("def: found %v")] without the argument.  Only runs in
    which no goroutine panics are described. *)
Definition goroutineDebug (debugMode : bool) (show : Node -> string)
    (q : Query) (pi : PackageInfo) : list (list string) :=
  match Errors pi with
  | _ :: _ => []
  | [] =>
      [flat_map (fun n => debugf debugMode ("sel: found " ++ show n)%string)
                (sentBy (rangeOver (scanSelection q) (Selections pi)));
       flat_map (fun n => debugf debugMode ("use: found " ++ show n)%string)
                (flat_map (scanUse q) (Uses pi));
       flat_map (fun _ => debugf debugMode "def: found %!v(MISSING)")
                (flat_map (scanDef q) (Defs pi));
       flat_map (fun n => debugf debugMode ("field: found " ++ show n)%string)
                (if negb (selName q =? "")%string
                 then sentBy (rangeOver (scanTypeExpr q) (Types pi))
                 else [])]
  end.

(** The lines of several goroutines as the logger receives them: each
    goroutine's lines in its own order, the goroutines in any order. *)
Inductive interleaving {A : Type} : list (list A) -> list A -> Prop :=
| interleaving_end (seqs : list (list A)) :
    Forall (fun s => s = []) seqs -> interleaving seqs []
| interleaving_next (before : list (list A)) (x : A) (s : list A)
    (after : list (list A)) (log : list A) :
    interleaving (before ++ s :: after) log ->
    interleaving (before ++ (x :: s) :: after) (x :: log).

(** [log] can be the log of a run: the lines of the loop over the
    packages and the debug lines of the goroutines, interleaved.  Every
    order in which the logger can receive the lines is among these. *)
Definition runLog (debugMode : bool) (show : Node -> string) (q : Query)
    (flagQuiet : bool) (prog : list PackageInfo) (log : list string) : Prop :=
  interleaving (fst (scanProgram q flagQuiet prog)
                :: flat_map (goroutineDebug debugMode show q) prog) log.

End DebugLog.

Export DebugLog.

(* ================================================================== *)
(** * Uses in two files *)

Module DemoSorting.

Definition twoFilePkg : PackageInfo :=
  mkPackageInfo Demo.httpPkg []
    []
    [(Demo.ident 1005 "c", Demo.clientVar); (Demo.ident 900 "c", Demo.clientVar);
     (Demo.ident 21 "c", Demo.clientVar)]
    [] [].

End DemoSorting.


Module PanicsFacts.


Lemma index_nth {A : Type} (l : list A) (i : nat) (d : A) :
  i < length l -> index l i = Ok (nth i l d).
Proof.
  intros Hi. unfold index.
  rewrite (nth_error_nth' l d Hi). reflexivity.
Qed.

Lemma index_out_of_range {A : Type} (l : list A) (i : nat) :
  length l <= i -> index l i = Panic "index out of range".
Proof.
  intros Hi. unfold index.
  apply nth_error_None in Hi. rewrite Hi. reflexivity.
Qed.


End PanicsFacts.

Export PanicsFacts.


Module GoStringsFacts.


Lemma Split_not_nil s sep : Split s sep <> [].
Proof.
  destruct s as [|c s]; simpl; [discriminate|].
  destruct (Ascii.eqb c sep); [discriminate|].
  destruct (Split s sep); discriminate.
Qed.

Lemma Split_length_pos s sep : 1 <= length (Split s sep).
Proof.
  pose proof (Split_not_nil s sep) as H.
  destruct (Split s sep); [congruence | simpl; lia].
Qed.

(** A separator-free string is its own single segment. *)
Lemma Split_free s sep : free_of sep s = true -> Split s sep = [s].
Proof.
  induction s as [|c s IH]; simpl; intros H; [reflexivity|].
  apply andb_true_iff in H as [Hc Hs].
  apply negb_true_iff in Hc. rewrite Hc, (IH Hs). reflexivity.
Qed.

(** Splitting [a ++ sep ++ b] with [a] separator-free cuts after [a]. *)
Lemma Split_app_sep a b sep :
  free_of sep a = true ->
  Split (a ++ String sep b)%string sep = a :: Split b sep.
Proof.
  induction a as [|c a IH]; simpl; intros H.
  - rewrite Ascii.eqb_refl. reflexivity.
  - apply andb_true_iff in H as [Hc Ha].
    apply negb_true_iff in Hc. rewrite Hc, (IH Ha). reflexivity.
Qed.

(** [Split] undoes [Join] on separator-free segments. *)
Lemma Split_Join segs sep :
  segs <> [] ->
  forallb (free_of sep) segs = true ->
  Split (Join segs (sep_str sep)) sep = segs.
Proof.
  unfold Join, sep_str.
  induction segs as [|a segs IH]; intros Hne Hfree; [congruence|].
  simpl in Hfree. apply andb_true_iff in Hfree as [Ha Hsegs].
  destruct segs as [|b segs].
  - simpl. apply Split_free; assumption.
  - change (String.concat (String sep "") (a :: b :: segs))
      with (a ++ String sep (String.concat (String sep "") (b :: segs)))%string.
    rewrite Split_app_sep by assumption.
    f_equal. apply IH; [discriminate | assumption].
Qed.

(** [Join] undoes [Split]. *)
Lemma Join_Split s sep : Join (Split s sep) (sep_str sep) = s.
Proof.
  unfold Join, sep_str.
  induction s as [|c s IH]; simpl; [reflexivity|].
  destruct (Ascii.eqb_spec c sep) as [->|Hne].
  - pose proof (Split_not_nil s sep) as Hnn.
    destruct (Split s sep) as [|seg rest] eqn:E; [congruence|].
    cbn [String.concat]. simpl. f_equal.
    rewrite <- IH. reflexivity.
  - pose proof (Split_not_nil s sep) as Hnn.
    destruct (Split s sep) as [|seg rest] eqn:E; [congruence|].
    rewrite <- IH. destruct rest; reflexivity.
Qed.

(** Every segment is separator-free. *)
Lemma Split_segments_free s sep :
  forallb (free_of sep) (Split s sep) = true.
Proof.
  induction s as [|c s IH]; simpl; [reflexivity|].
  destruct (Ascii.eqb c sep) eqn:Hc.
  - simpl. exact IH.
  - destruct (Split s sep) as [|seg rest]; simpl in *.
    + rewrite Hc. reflexivity.
    + rewrite Hc. exact IH.
Qed.

(** A string has a single segment exactly when it has no separator. *)
Lemma Split_single_iff s sep :
  length (Split s sep) < 2 <-> free_of sep s = true.
Proof.
  split.
  - intros Hlen.
    pose proof (Split_segments_free s sep) as Hfree.
    pose proof (Join_Split s sep) as HJ.
    destruct (Split s sep) as [|seg [|seg' rest]]; simpl in Hlen; try lia.
    + unfold Join in HJ. simpl in HJ. subst s. reflexivity.
    + unfold Join in HJ. simpl in HJ. subst seg.
      simpl in Hfree. rewrite andb_true_r in Hfree. exact Hfree.
  - intros H. rewrite Split_free by assumption. simpl. lia.
Qed.


End GoStringsFacts.

Export GoStringsFacts.


Module QueryParserFacts.


(** The examples of the source's comment table. *)
Example parse_net_http_Client :
  parseQuery "net/http.Client" = Ok (mkQuery "net/http" "Client" "").
Proof. reflexivity. Qed.

Example parse_json_Encoder_Encode :
  parseQuery "encoding/json.Encoder.Encode"
  = Ok (mkQuery "encoding/json" "Encoder" "Encode").
Proof. reflexivity. Qed.

Example parse_loader_Config :
  parseQuery "golang.org/x/tools/go/loader.Config"
  = Ok (mkQuery "golang.org/x/tools/go/loader" "Config" "").
Proof. reflexivity. Qed.

Example parse_no_dot : parseQuery "fmt" = Panic "index out of range".
Proof. reflexivity. Qed.

Lemma last_index (l : list string) :
  l <> [] -> index l (length l - 1) = Ok (last l "").
Proof.
  induction l as [|a l IH]; intros Hne; [congruence|].
  destruct l as [|b l]; [reflexivity|].
  assert (Hb : b :: l <> []) by discriminate.
  specialize (IH Hb).
  change (last (a :: b :: l) "") with (last (b :: l) "").
  rewrite <- IH. simpl length.
  replace (S (S (length l)) - 1)%nat with (S (S (length l) - 1)) by lia.
  reflexivity.
Qed.

Lemma firstn_removelast (l : list string) :
  firstn (length l - 1) l = removelast l.
Proof.
  rewrite Nat.sub_1_r. symmetry. apply removelast_firstn_len.
Qed.

(** What [parseQuery] computes, in terms of the two splits. *)
Lemma parseQuery_segments (target : string) :
  let paths := Split target "/" in
  let names := dot_segments target in
  parseQuery target =
    if (2 <=? length names)%nat
    then Ok (mkQuery (Join (removelast paths ++ [nth 0 names ""]) "/")
                     (nth 1 names "")
                     (if (3 <=? length names)%nat then nth 2 names "" else ""))
    else Panic "index out of range".
Proof.
  intros paths names. unfold parseQuery, dot_segments in *.
  fold paths. rewrite (last_index paths) by apply Split_not_nil.
  cbn [bind]. change (Split (last paths "") ".") with names.
  rewrite firstn_removelast.
  pose proof (Split_length_pos (last paths "") ".") as Hpos.
  change (Split (last paths "") ".") with names in Hpos.
  rewrite (index_nth names 0 "") by lia. cbn [bind].
  destruct (2 <=? length names)%nat eqn:H2.
  - apply Nat.leb_le in H2.
    rewrite (index_nth names 1 "") by lia. cbn [bind].
    destruct (3 <=? length names)%nat eqn:H3.
    + apply Nat.leb_le in H3.
      assert (Hlt : (2 <? length names)%nat = true) by (apply Nat.ltb_lt; lia).
      rewrite Hlt, (index_nth names 2 "") by lia. reflexivity.
    + apply Nat.leb_gt in H3.
      assert (Hlt : (2 <? length names)%nat = false) by (apply Nat.ltb_ge; lia).
      rewrite Hlt. reflexivity.
  - apply Nat.leb_gt in H2.
    rewrite index_out_of_range by lia. reflexivity.
Qed.


End QueryParserFacts.

Export QueryParserFacts.


Module TypeMatcherFacts.


Lemma stripPointers_pointers n base :
  is_pointer base = false -> stripPointers (pointers n base) = base.
Proof.
  intros Hb. induction n as [|n IH]; simpl.
  - destruct base; simpl in *; congruence.
  - exact IH.
Qed.

Lemma stripPointers_inv typ :
  exists n, typ = pointers n (stripPointers typ)
            /\ is_pointer (stripPointers typ) = false.
Proof.
  induction typ as [elem IH| | |].
  - destruct IH as [n [Heq Hnp]]. exists (S n). simpl. split.
    + f_equal. exact Heq.
    + exact Hnp.
  - exists 0. split; reflexivity.
  - exists 0. split; reflexivity.
  - exists 0. split; reflexivity.
Qed.

Example fieldMatches_pointer_to_Client :
  fieldMatches (mkQuery "net/http" "Client" "")
    (TPointer (TNamed (mkTypeName (Some (mkPackage "net/http" "http")) "Client")
                      (TStruct [])))
    "" = true.
Proof. reflexivity. Qed.

Example fieldMatches_universe_error :
  fieldMatches (mkQuery "" "error" "")
    (TNamed (mkTypeName None "error") TOther) "" = false.
Proof. reflexivity. Qed.


End TypeMatcherFacts.

Export TypeMatcherFacts.


Module ScannersFacts.


Lemma rangeOver_pure {A : Type} (f : A -> list Node) (plane : list A) :
  rangeOver (pure f) plane = Ok (flat_map f plane).
Proof.
  induction plane as [|a plane IH]; simpl; [reflexivity|].
  rewrite IH. reflexivity.
Qed.


End ScannersFacts.

Export ScannersFacts.


(* ================================================================== *)
(** * The order of [Less] *)

Module CollectorFacts.

(** ** Bytewise order on strings *)

Lemma str_ltb_lt a b : (a <? b)%string = true <-> String_as_OT.lt a b.
Proof.
  unfold String.ltb. rewrite <- String_as_OT.cmp_lt.
  unfold String_as_OT.cmp.
  destruct (String.compare a b); split; congruence.
Qed.

Lemma str_ltb_irrefl a : (a <? a)%string = false.
Proof.
  unfold String.ltb.
  assert (H : String.compare a a = Eq) by (apply String_as_OT.cmp_eq; reflexivity).
  rewrite H. reflexivity.
Qed.

Lemma str_ltb_trans a b c :
  (a <? b)%string = true -> (b <? c)%string = true -> (a <? c)%string = true.
Proof.
  rewrite !str_ltb_lt. apply String_as_OT.lt_trans.
Qed.

Lemma str_ltb_asym a b :
  (a <? b)%string = true -> (b <? a)%string = false.
Proof.
  intros Hab. destruct (b <? a)%string eqn:Hba; [|reflexivity].
  pose proof (str_ltb_trans _ _ _ Hab Hba) as Haa.
  rewrite str_ltb_irrefl in Haa. discriminate.
Qed.

Lemma str_ltb_connected a b :
  (a <? b)%string = false -> (b <? a)%string = false -> a = b.
Proof.
  unfold String.ltb. rewrite (String.compare_antisym a b).
  destruct (String.compare b a) eqn:Hc; simpl.
  - intros _ _. symmetry. apply String.compare_eq_iff. exact Hc.
  - intros _ H. discriminate.
  - discriminate.
Qed.

(** ** [lessNodes] orders by file name, then by offset *)

Section Order.

Variable fs : FileSet.

Lemma lessNodes_true a b :
  lessNodes fs a b = true <->
  (Filename (fs (Pos a)) <? Filename (fs (Pos b)))%string = true \/ (Filename (fs (Pos a)) = Filename (fs (Pos b)) /\ (Offset (fs (Pos a)) < Offset (fs (Pos b)))%Z).
Proof.
  unfold lessNodes.
  destruct (String.eqb_spec (Filename (fs (Pos a))) (Filename (fs (Pos b))))
    as [Heq|Hne].
  - rewrite Z.ltb_lt. rewrite Heq, str_ltb_irrefl. split.
    + intros H. right. split; [reflexivity | exact H].
    + intros [H|[_ H]]; [discriminate | exact H].
  - split.
    + intros H. left. exact H.
    + intros [H|[H _]]; [exact H | contradiction].
Qed.

Lemma lessNodes_false a b :
  lessNodes fs a b = false <->
  (Filename (fs (Pos b)) <? Filename (fs (Pos a)))%string = true \/ (Filename (fs (Pos a)) = Filename (fs (Pos b)) /\ (Offset (fs (Pos b)) <= Offset (fs (Pos a)))%Z).
Proof.
  unfold lessNodes.
  destruct (String.eqb_spec (Filename (fs (Pos a))) (Filename (fs (Pos b))))
    as [Heq|Hne].
  - rewrite Z.ltb_ge. rewrite Heq, str_ltb_irrefl. split.
    + intros H. right. split; [reflexivity | exact H].
    + intros [H|[_ H]]; [discriminate | exact H].
  - split.
    + intros H. left.
      destruct (Filename (fs (Pos b)) <? Filename (fs (Pos a)))%string eqn:Hba;
        [reflexivity|].
      exfalso. apply Hne. apply str_ltb_connected; assumption.
    + intros [H|[H _]]; [apply str_ltb_asym; exact H | contradiction].
Qed.

Lemma lessNodes_irrefl a : lessNodes fs a a = false.
Proof.
  apply lessNodes_false. right. split; [reflexivity | lia].
Qed.

Lemma lessNodes_asym a b :
  lessNodes fs a b = true -> lessNodes fs b a = false.
Proof.
  rewrite lessNodes_true, lessNodes_false.
  intros [H|[H1 H2]]; [left; exact H | right; split; [congruence | lia]].
Qed.

Lemma lessNodes_trans a b c :
  lessNodes fs a b = true -> lessNodes fs b c = true ->
  lessNodes fs a c = true.
Proof.
  rewrite !lessNodes_true.
  intros [H1|[E1 O1]] [H2|[E2 O2]].
  - left. eapply str_ltb_trans; eassumption.
  - left. rewrite <- E2. exact H1.
  - left. rewrite E1. exact H2.
  - right. split; [congruence | lia].
Qed.

(** "Not after": [a] may stand before [b] in a sorted slice. *)
Lemma notAfter_trans a b c :
  lessNodes fs b a = false -> lessNodes fs c b = false ->
  lessNodes fs c a = false.
Proof.
  rewrite !lessNodes_false.
  intros [H1|[E1 O1]] [H2|[E2 O2]].
  - left. eapply str_ltb_trans; eassumption.
  - left. rewrite E2. exact H1.
  - left. rewrite <- E1. exact H2.
  - right. split; [congruence | lia].
Qed.

(** Two nodes neither of which is [Less] than the other start at the
    same offset of the same file. *)
Lemma lessNodes_tie a b :
  lessNodes fs a b = false -> lessNodes fs b a = false ->
  Filename (fs (Pos a)) = Filename (fs (Pos b)) /\ Offset (fs (Pos a)) = Offset (fs (Pos b)).
Proof.
  rewrite !lessNodes_false.
  intros [H1|[E1 O1]] [H2|[E2 O2]].
  - apply str_ltb_asym in H1. congruence.
  - rewrite E2, str_ltb_irrefl in H1. discriminate.
  - rewrite E1, str_ltb_irrefl in H2. discriminate.
  - split; [exact E1 | lia].
Qed.

(** Any two nodes are comparable: one is not after the other. *)
Lemma lessNodes_total a b :
  lessNodes fs a b = true \/ lessNodes fs b a = true
  \/ (Filename (fs (Pos a)) = Filename (fs (Pos b)) /\ Offset (fs (Pos a)) = Offset (fs (Pos b))).
Proof.
  destruct (lessNodes fs a b) eqn:Hab; [left; reflexivity|].
  destruct (lessNodes fs b a) eqn:Hba; [right; left; reflexivity|].
  right; right. apply lessNodes_tie; assumption.
Qed.

(** ** Sorted slices *)

Lemma IsSorted_strongly l :
  IsSorted fs l ->
  StronglySorted (fun a b => lessNodes fs b a = false) l.
Proof.
  unfold IsSorted. apply Sorted_StronglySorted.
  intros a b c Hab Hbc. eapply notAfter_trans; eassumption.
Qed.

(** In a sorted slice an element at a smaller index is not after an
    element at a larger index. *)
Lemma sorted_index_order l i j a b :
  IsSorted fs l -> i < j ->
  nth_error l i = Some a -> nth_error l j = Some b ->
  lessNodes fs b a = false.
Proof.
  intros Hs. apply IsSorted_strongly in Hs.
  revert i j. induction Hs as [|x l Hs IH Hall]; intros i j Hij Hi Hj.
  - destruct i; discriminate.
  - destruct j as [|j]; [lia|]. simpl in Hj.
    destruct i as [|i].
    + simpl in Hi. injection Hi as <-.
      rewrite Forall_forall in Hall. apply Hall.
      eapply nth_error_In; eassumption.
    + simpl in Hi. apply (IH i j); [lia | assumption | assumption].
Qed.

(** Two sorted permutations of a tie-free collection are equal. *)
Lemma sorted_unique l1 l2 :
  tie_free fs l1 -> Permutation l1 l2 ->
  IsSorted fs l1 -> IsSorted fs l2 -> l1 = l2.
Proof.
  intros Htf Hp H1 H2.
  apply IsSorted_strongly in H1. apply IsSorted_strongly in H2.
  revert l2 Hp H2.
  induction H1 as [|x l1 Hs1 IH Hall1]; intros l2 Hp H2.
  - apply Permutation_nil in Hp. subst. reflexivity.
  - destruct l2 as [|y l2].
    + apply Permutation_sym, Permutation_nil in Hp. discriminate.
    + inversion H2 as [|y' l2' Hs2 Hall2]; subst.
      assert (Hxy : x = y).
      { assert (Hy : In y (x :: l1)).
        { eapply Permutation_in; [apply Permutation_sym; exact Hp|]. left; reflexivity. }
        assert (Hx : In x (y :: l2)).
        { eapply Permutation_in; [exact Hp|]. left; reflexivity. }
        destruct Hy as [Hy|Hy]; [exact Hy|].
        destruct Hx as [Hx|Hx]; [symmetry; exact Hx|].
        rewrite Forall_forall in Hall1, Hall2.
        pose proof (Hall1 _ Hy) as Hyx.
        pose proof (Hall2 _ Hx) as Hxy.
        destruct (lessNodes_tie x y Hxy Hyx) as [Hf Ho].
        apply Htf; [left; reflexivity | right; exact Hy | exact Hf | exact Ho]. }
      subst y. f_equal. apply IH.
      * intros a b Ha Hb. apply Htf; right; assumption.
      * eapply Permutation_cons_inv; exact Hp.
      * exact Hs2.
Qed.

(** ** The insertion sort meets the contract of [sort.Sort] *)

Lemma insertSorted_perm x l : Permutation (x :: l) (insertSorted fs x l).
Proof.
  induction l as [|y l IH]; simpl; [apply Permutation_refl|].
  destruct (lessNodes fs x y).
  - apply Permutation_refl.
  - eapply Permutation_trans; [apply perm_swap|].
    apply perm_skip. exact IH.
Qed.

Lemma insertSorted_sorted x l :
  IsSorted fs l -> IsSorted fs (insertSorted fs x l).
Proof.
  unfold IsSorted.
  induction l as [|y l IH]; intros Hs; simpl.
  - repeat constructor.
  - destruct (lessNodes fs x y) eqn:Hxy.
    + constructor; [exact Hs|]. constructor.
      apply lessNodes_asym. exact Hxy.
    + inversion Hs as [|? ? Hs' Hhd]; subst.
      constructor; [apply IH; exact Hs'|].
      destruct l as [|z l]; simpl.
      * constructor. exact Hxy.
      * destruct (lessNodes fs x z).
        -- constructor. exact Hxy.
        -- inversion Hhd; subst. constructor. assumption.
Qed.

Lemma insertionSort_contract l : SortResult fs l (insertionSort fs l).
Proof.
  unfold insertionSort, SortResult.
  assert (H : forall acc,
             IsSorted fs acc ->
             Permutation (acc ++ l)
               (fold_left (fun sorted x => insertSorted fs x sorted) l acc)
             /\ IsSorted fs
                  (fold_left (fun sorted x => insertSorted fs x sorted) l acc)).
  { induction l as [|x l IH]; intros acc Hacc; simpl.
    - rewrite app_nil_r. split; [apply Permutation_refl | exact Hacc].
    - destruct (IH (insertSorted fs x acc)) as [Hp Hs];
        [apply insertSorted_sorted; exact Hacc|].
      split; [|exact Hs].
      eapply Permutation_trans; [|exact Hp].
      eapply Permutation_trans; [apply Permutation_sym, Permutation_middle|].
      change (x :: acc ++ l) with ((x :: acc) ++ l).
      apply Permutation_app_tail. apply insertSorted_perm. }
  apply (H []). constructor.
Qed.

End Order.

End CollectorFacts.

Export CollectorFacts.

(* ================================================================== *)
(** * The grouping loop *)

Module GrouperFacts.

Lemma updateAt_length l i f : length (updateAt l i f) = length l.
Proof.
  revert i. induction l as [|r l IH]; intros [|i]; simpl; auto.
Qed.

Lemma updateAt_nth_error l i f r :
  nth_error l i = Some r -> nth_error (updateAt l i f) i = Some (f r).
Proof.
  revert i. induction l as [|x l IH]; intros [|i]; simpl; try discriminate.
  - intros [= ->]. reflexivity.
  - apply IH.
Qed.

(** Updating the last record. *)
Lemma updateAt_last l r f :
  updateAt (l ++ [r]) (length l) f = l ++ [f r].
Proof.
  induction l as [|x l IH]; simpl; [reflexivity|].
  rewrite IH. reflexivity.
Qed.

Section Loop.

Variable fs : FileSet.

Lemma run_snoc l n : groupRun fs (l ++ [n]) = groupStep fs (groupRun fs l) n.
Proof. unfold groupRun. rewrite fold_left_app. reflexivity. Qed.

(** After a node [n], [curr] points to the last record of [results],
    which carries the file and line of [n]. *)
Lemma run_curr l n :
  exists before r,
    results (groupRun fs (l ++ [n])) = before ++ [r]
    /\ curr (groupRun fs (l ++ [n])) = Some (length before)
    /\ Display.filename r = Filename (fs (Pos n))
    /\ Display.line r = Line (fs (Pos n)).
Proof.
  revert n. induction l as [|m l IH] using rev_ind; intros n.
  - exists [], (recordOf fs n). simpl. repeat split; reflexivity.
  - destruct (IH m) as [before [r [Hres [Hcur [Hf Hl]]]]].
    rewrite run_snoc. unfold groupStep; cbv zeta.
    rewrite Hcur, Hres.
    rewrite nth_error_app2, Nat.sub_diag by lia. cbn [nth_error]. cbv iota.
    destruct ((Filename (fs (Pos n)) =? Display.filename r)%string
              && (Line (fs (Pos n)) =? Display.line r)%Z) eqn:Hsame.
    + exists before, (appendHighlight (highlightOf fs n) r).
      apply andb_true_iff in Hsame as [Hsf Hsl].
      apply String.eqb_eq in Hsf. apply Z.eqb_eq in Hsl.
      simpl. rewrite updateAt_last.
      repeat split; simpl; congruence.
    + exists (before ++ [r]), (recordOf fs n).
      simpl. repeat split; reflexivity.
Qed.

(** A node on the line of its predecessor adds its highlight to the
    last record. *)
Lemma groupNodes_snoc_same l m n :
  sameLine fs m n ->
  exists before r,
    groupNodes fs (l ++ [m]) = before ++ [r]
    /\ groupNodes fs ((l ++ [m]) ++ [n])
       = before ++ [appendHighlight (highlightOf fs n) r].
Proof.
  intros [Hf Hl]. unfold groupNodes. fold (groupRun fs (l ++ [m])).
  fold (groupRun fs ((l ++ [m]) ++ [n])).
  destruct (run_curr l m) as [before [r [Hres [Hcur [Hrf Hrl]]]]].
  exists before, r. split; [exact Hres|].
  rewrite run_snoc. unfold groupStep; cbv zeta. rewrite Hcur, Hres.
  rewrite nth_error_app2, Nat.sub_diag by lia. cbn [nth_error]. cbv iota.
  rewrite Hrf, Hrl, <- Hf, <- Hl, String.eqb_refl, Z.eqb_refl. simpl.
  apply updateAt_last.
Qed.

(** A node on another file or line starts a new record. *)
Lemma groupNodes_snoc_new l m n :
  ~ sameLine fs m n ->
  groupNodes fs ((l ++ [m]) ++ [n])
  = groupNodes fs (l ++ [m]) ++ [recordOf fs n].
Proof.
  intros Hdiff. unfold groupNodes. fold (groupRun fs (l ++ [m])).
  fold (groupRun fs ((l ++ [m]) ++ [n])).
  destruct (run_curr l m) as [before [r [Hres [Hcur [Hrf Hrl]]]]].
  rewrite run_snoc. unfold groupStep; cbv zeta. rewrite Hcur, Hres.
  rewrite nth_error_app2, Nat.sub_diag by lia. cbn [nth_error]. cbv iota.
  destruct ((Filename (fs (Pos n)) =? Display.filename r)%string
            && (Line (fs (Pos n)) =? Display.line r)%Z) eqn:Hsame.
  - exfalso. apply Hdiff.
    apply andb_true_iff in Hsame as [Hsf Hsl].
    apply String.eqb_eq in Hsf. apply Z.eqb_eq in Hsl.
    split; congruence.
  - reflexivity.
Qed.

(** Nodes that all lie on one line make one record, whose highlights
    follow the order of the nodes. *)
Lemma groupNodes_one_line n l :
  Forall (sameLine fs n) l ->
  groupNodes fs (n :: l)
  = [Display.mkResult (Filename (fs (Pos n))) (Line (fs (Pos n)))
                      (map (highlightOf fs) (n :: l))].
Proof.
  induction l as [|m l IH] using rev_ind; intros Hall.
  - reflexivity.
  - apply Forall_app in Hall as [Hl Hm].
    inversion Hm as [|? ? Hnm _]; subst.
    specialize (IH Hl).
    assert (Hlast : exists l' k, n :: l = l' ++ [k] /\ sameLine fs k m).
    { destruct l as [|x l0] using rev_ind.
      - exists [], n. split; [reflexivity | exact Hnm].
      - exists (n :: l0), x. split; [reflexivity|].
        apply Forall_app in Hl as [_ Hx].
        inversion Hx as [|? ? [Hx1 Hx2] _]; subst.
        destruct Hnm as [Hn1 Hn2]. split; congruence. }
    destruct Hlast as [l' [k [Heq Hkm]]].
    change (n :: l ++ [m]) with ((n :: l) ++ [m]).
    rewrite Heq.
    destruct (groupNodes_snoc_same l' k m Hkm) as [before [r [H1 H2]]].
    rewrite H2. rewrite <- Heq in *. rewrite IH in H1.
    destruct before as [|b0 before].
    + simpl in H1. injection H1 as <-.
      simpl. unfold appendHighlight. simpl.
      rewrite map_app. reflexivity.
    + destruct before; discriminate.
Qed.

End Loop.

End GrouperFacts.

Export GrouperFacts.


(* ================================================================== *)
(** * The type matcher *)

(** C1.  [fieldMatches(typ, sel)] is true exactly when [sel] equals
    [selName] and [typ] is, under some number (possibly zero) of pointer
    indirections, a named type whose declaring package exists and has the
    import path [pkgPath] and whose name is [objName].  In particular it
    is false for every named type without declaring package (the types of
    the universe scope), under any number of pointers. *)
Theorem fieldMatches_iff (q : Query) (typ : GoType) (sel : string) :
  (fieldMatches q typ sel = true <->
     sel = selName q
     /\ exists n pkg name under,
          typ = pointers n (TNamed (mkTypeName (Some pkg) name) under)
          /\ Path pkg = pkgPath q
          /\ name = objName q)
  /\ (forall n name under,
        fieldMatches q (pointers n (TNamed (mkTypeName None name) under)) sel
        = false).
Proof.
  split.
  - unfold fieldMatches. split.
    + destruct (String.eqb_spec sel (selName q)) as [Hsel|Hsel]; simpl;
        [|discriminate].
      destruct (stripPointers_inv typ) as [n [Htyp Hnp]].
      destruct (stripPointers typ) as [| [pkg name] under | |] eqn:Hstrip;
        try discriminate.
      simpl. destruct pkg as [pkg|]; [|discriminate].
      intros H. apply andb_true_iff in H as [Hp Hn].
      apply String.eqb_eq in Hp. apply String.eqb_eq in Hn.
      split; [exact Hsel|].
      exists n, pkg, name, under. repeat split; assumption.
    + intros [Hsel [n [pkg [name [under [Htyp [Hp Hn]]]]]]].
      subst sel typ. rewrite String.eqb_refl. simpl.
      rewrite stripPointers_pointers by reflexivity. simpl.
      rewrite Hp, Hn, !String.eqb_refl. reflexivity.
  - intros n name under. unfold fieldMatches.
    rewrite stripPointers_pointers by reflexivity. simpl.
    destruct (negb (sel =? selName q)%string); reflexivity.
Qed.

Lemma fieldMatches_iff_witness :
  (fieldMatches Demo.qClient (TPointer (TPointer Demo.ClientType)) "" = true)
  /\ fieldMatches Demo.qClient (TPointer Demo.errorType) "" = false.
Proof.
  split.
  - apply (proj1 (fieldMatches_iff Demo.qClient
                    (TPointer (TPointer Demo.ClientType)) "")).
    split; [reflexivity|].
    exists 2, Demo.httpPkg, "Client",
      (TStruct [("Transport", TOther); ("Jar", TOther)]).
    repeat split; reflexivity.
  - exact (proj2 (fieldMatches_iff Demo.qClient TOther "") 1 "error" TOther).
Defined.

(* ================================================================== *)
(** * The query parser *)

Lemma free_of_app c a b :
  free_of c (a ++ b)%string = free_of c a && free_of c b.
Proof.
  induction a as [|x a IH]; simpl; [reflexivity|].
  rewrite IH. apply andb_assoc.
Qed.

(** Joining segments that are free of [c] with a separator other than
    [c] gives a string free of [c]. *)
Lemma free_of_Join c sep segs :
  Ascii.eqb sep c = false ->
  forallb (free_of c) segs = true ->
  free_of c (Join segs (sep_str sep)) = true.
Proof.
  intros Hsep. unfold Join, sep_str.
  induction segs as [|a segs IH]; intros Hall; [reflexivity|].
  simpl in Hall. apply andb_true_iff in Hall as [Ha Hsegs].
  destruct segs as [|b segs]; [exact Ha|].
  change (String.concat (String sep "") (a :: b :: segs))
    with (a ++ String sep (String.concat (String sep "") (b :: segs)))%string.
  rewrite free_of_app, Ha. simpl. rewrite Hsep. simpl.
  apply IH. exact Hsegs.
Qed.

Lemma forallb_and {A : Type} (f g : A -> bool) (l : list A) :
  forallb (fun x => f x && g x) l = forallb f l && forallb g l.
Proof.
  induction l as [|a l IH]; simpl; [reflexivity|].
  rewrite IH. destruct (f a), (g a), (forallb f l); reflexivity.
Qed.

(** C9.  For a query string made of the [/]-segments [dirs] followed by
    a last segment whose dot-segments are [pkgLast], [obj] and possibly
    more ([rest]), the parser returns: as [pkgPath], the leading segments
    joined with the first dot-segment; as [objName], the second
    dot-segment; as [selName], the third dot-segment when there is one and
    the empty string otherwise. *)
Theorem parseQuery_wellformed
    (dirs : list string) (pkgLast obj : string) (rest : list string) :
  forallb (free_of "/") dirs = true ->
  forallb (fun s => free_of "/" s && free_of "." s) (pkgLast :: obj :: rest)
  = true ->
  parseQuery (Join (dirs ++ [Join (pkgLast :: obj :: rest) "."]) "/")
  = Ok (mkQuery (Join (dirs ++ [pkgLast]) "/") obj (hd "" rest)).
Proof.
  intros Hdirs Hnames.
  rewrite forallb_and in Hnames. apply andb_true_iff in Hnames as [Hslash Hdot].
  set (names := pkgLast :: obj :: rest) in *.
  set (lastSeg := Join names ".").
  assert (HlastFree : free_of "/" lastSeg = true).
  { apply (free_of_Join "/" "." names); [reflexivity | exact Hslash]. }
  assert (Hpaths : Split (Join (dirs ++ [lastSeg]) "/") "/" = dirs ++ [lastSeg]).
  { apply (Split_Join (dirs ++ [lastSeg]) "/").
    - destruct dirs; discriminate.
    - rewrite forallb_app, Hdirs. simpl. rewrite HlastFree. reflexivity. }
  assert (Hnamesplit : Split lastSeg "." = names).
  { apply (Split_Join names "."); [discriminate | exact Hdot]. }
  rewrite parseQuery_segments. unfold dot_segments.
  rewrite Hpaths, last_last, Hnamesplit, removelast_last.
  unfold names. simpl length. simpl Nat.leb. cbv iota.
  simpl nth. destruct rest as [|sel rest']; reflexivity.
Qed.

Lemma parseQuery_wellformed_witness :
  parseQuery "golang.org/x/tools/go/loader.Config.Fset"
  = Ok (mkQuery "golang.org/x/tools/go/loader" "Config" "Fset")
  /\ parseQuery "net/http.Client" = Ok (mkQuery "net/http" "Client" "").
Proof.
  split.
  - apply (parseQuery_wellformed ["golang.org"; "x"; "tools"; "go"]
             "loader" "Config" ["Fset"]); reflexivity.
  - apply (parseQuery_wellformed ["net"] "http" "Client" []); reflexivity.
Defined.

(** C2, as stated, fails: the query ["fmt"] has a single dot-segment,
    and the run does not complete with zero matches; it panics in the
    parser. *)
Lemma malformed_query_run_does_not_complete :
  length (dot_segments "fmt") < 2
  /\ gofind (fun l => l) insertionSort false ["fmt"; "fmt"]
            (fun _ => Loaded Demo.oneFile [Demo.goodPkg])
     = Panicked "index out of range"
  /\ forall log records,
       gofind (fun l => l) insertionSort false ["fmt"; "fmt"]
              (fun _ => Loaded Demo.oneFile [Demo.goodPkg])
       <> Completed log records.
Proof.
  split; [simpl; lia|]. split; [reflexivity|].
  intros log records. discriminate.
Qed.

(** C2, amended.  When the last [/]-segment of the query string has
    fewer than two dot-segments, parsing yields no query: indexing the
    second dot-segment panics, and the run ends there, whatever the
    packages, before the front end is called and before any package is
    scanned.  No display record is produced. *)
Theorem malformed_query_is_fatal
    (schedule : list Node -> list Node)
    (sort_Sort : FileSet -> list Node -> list Node)
    (flagQuiet : bool) (target pkgArg : string) (pkgArgs : list string)
    (frontEnd : list string -> LoadResult) :
  length (dot_segments target) < 2 ->
  parseQuery target = Panic "index out of range"
  /\ gofind schedule sort_Sort flagQuiet (target :: pkgArg :: pkgArgs) frontEnd
     = Panicked "index out of range".
Proof.
  intros Hlen.
  assert (Hparse : parseQuery target = Panic "index out of range").
  { rewrite parseQuery_segments.
    assert (H : (2 <=? length (dot_segments target))%nat = false)
      by (apply Nat.leb_gt; exact Hlen).
    rewrite H. reflexivity. }
  split; [exact Hparse|].
  unfold gofind. rewrite Hparse. reflexivity.
Qed.

Lemma malformed_query_is_fatal_witness :
  parseQuery "net/http" = Panic "index out of range"
  /\ gofind (fun l => l) insertionSort true ["net/http"; "net/http"; "fmt"]
            (fun _ => LoadError "cannot find package")
     = Panicked "index out of range".
Proof.
  apply (malformed_query_is_fatal (fun l => l) insertionSort true
           "net/http" "net/http" ["fmt"]
           (fun _ => LoadError "cannot find package")).
  simpl. lia.
Defined.

(* ================================================================== *)
(** * The scanners *)

Lemma scanPositional_shift field fields sel elts i :
  scanPositional (field :: fields) sel elts (S i)
  = scanPositional fields sel elts i.
Proof.
  revert i. induction elts as [|elt elts IH]; intros i; simpl; [reflexivity|].
  change (index (field :: fields) (S i)) with (index fields i).
  destruct (index fields i) as [f|msg]; simpl; [|reflexivity].
  destruct (fst f =? sel)%string; [reflexivity | apply IH].
Qed.

(** The positional loop, by the first field that has the name. *)
Lemma scanPositional_first fields sel elts :
  scanPositional fields sel elts 0 =
  match firstFieldNamed sel fields with
  | Some i =>
      match nth_error elts i with
      | Some elt => Ok [node_of elt]
      | None => Ok []
      end
  | None =>
      if (length elts <=? length fields)%nat then Ok []
      else Panic "index out of range"
  end.
Proof.
  revert elts. induction fields as [|field fields IH]; intros elts.
  - destruct elts; reflexivity.
  - destruct elts as [|elt elts].
    + simpl. destruct (fst field =? sel)%string; [reflexivity|].
      destruct (firstFieldNamed sel fields); reflexivity.
    + cbn [scanPositional firstFieldNamed]. unfold index at 1. cbn [nth_error bind].
      destruct (fst field =? sel)%string; [reflexivity|].
      rewrite scanPositional_shift, IH.
      destruct (firstFieldNamed sel fields); reflexivity.
Qed.

Lemma firstFieldNamed_Some sel fields i :
  firstFieldNamed sel fields = Some i ->
  i < length fields /\ exists field, nth_error fields i = Some field /\ fst field = sel.
Proof.
  revert i. induction fields as [|field fields IH]; intros i; simpl; [discriminate|].
  destruct (String.eqb_spec (fst field) sel) as [Heq|Hne].
  - intros [= <-]. split; [lia|]. exists field. split; [reflexivity | exact Heq].
  - destruct (firstFieldNamed sel fields) as [j|]; [|discriminate].
    intros [= <-]. destruct (IH j eq_refl) as [Hlt Hfield].
    split; [lia | exact Hfield].
Qed.

(** C3.  A positional (unkeyed) composite literal gives a Match only
    when it has as many elements as its struct type has fields.  The
    program does not count them itself: a literal with another number of
    elements is a type error, the package that holds it is reported with
    errors, and the loop over the packages starts no scanner for it, so
    the literal gives no Match even if a field has the name [selName].  In
    a package that is scanned, the counts agree, the loop over the
    elements does not run out of fields, and the Match is the element at
    the index of the field named [selName]. *)
Theorem positional_match_requires_equal_count
    (q : Query) (flagQuiet : bool) (pi : PackageInfo)
    (lit : Node) (elt0 : Expr) (elts : list Expr)
    (typ : GoType) (fields : list (string * GoType)) :
  positionalCountsChecked pi ->
  In (ECompositeLit lit (elt0 :: elts), typ) (Types pi) ->
  Underlying typ = TStruct fields ->
  is_KeyValue elt0 = false ->
  (length (elt0 :: elts) <> length fields ->
   snd (visitPackage q flagQuiet pi) = Ok [])
  /\ (Errors pi = [] ->
      length (elt0 :: elts) = length fields
      /\ (forall sent n,
            scanTypeExpr q (ECompositeLit lit (elt0 :: elts), typ) = Ok sent ->
            In n sent ->
            sent = [n]
            /\ exists i elt,
                 firstFieldNamed (selName q) fields = Some i
                 /\ nth_error (elt0 :: elts) i = Some elt
                 /\ n = node_of elt)
      /\ (fieldMatches q typ (selName q) = true ->
          scanTypeExpr q (ECompositeLit lit (elt0 :: elts), typ)
          = Ok match firstFieldNamed (selName q) fields with
               | Some i => [node_of (nth i (elt0 :: elts) elt0)]
               | None => []
               end)).
Proof.
  intros Hchecked Hin Hstruct Hpos. split.
  - intros Hcount.
    pose proof (Hchecked lit elt0 elts typ fields Hin Hstruct Hpos Hcount) as Herr.
    unfold visitPackage. destruct (Errors pi); [congruence | reflexivity].
  - intros Hnoerr.
    assert (Hcount : length (elt0 :: elts) = length fields).
    { destruct (Nat.eq_dec (length (elt0 :: elts)) (length fields)) as [H|H];
        [exact H|].
      exfalso.
      exact (Hchecked lit elt0 elts typ fields Hin Hstruct Hpos H Hnoerr). }
    assert (Hscan : fieldMatches q typ (selName q) = true ->
              scanTypeExpr q (ECompositeLit lit (elt0 :: elts), typ)
              = Ok match firstFieldNamed (selName q) fields with
                   | Some i => [node_of (nth i (elt0 :: elts) elt0)]
                   | None => []
                   end).
    { intros Hmatch. unfold scanTypeExpr. rewrite Hmatch, Hstruct, Hpos.
      cbn [negb]. rewrite scanPositional_first.
      destruct (firstFieldNamed (selName q) fields) as [i|] eqn:Hfirst.
      - destruct (firstFieldNamed_Some _ _ _ Hfirst) as [Hlt _].
        rewrite (nth_error_nth' (elt0 :: elts) elt0) by lia. reflexivity.
      - assert (Hle : (length (elt0 :: elts) <=? length fields)%nat = true)
          by (apply Nat.leb_le; lia).
        rewrite Hle. reflexivity. }
    split; [exact Hcount|]. split; [|exact Hscan].
    intros sent n Hsent Hn.
    destruct (fieldMatches q typ (selName q)) eqn:Hmatch.
    + rewrite (Hscan eq_refl) in Hsent.
      destruct (firstFieldNamed (selName q) fields) as [i|] eqn:Hfirst.
      * injection Hsent as <-. destruct Hn as [<-|[]].
        split; [reflexivity|].
        destruct (firstFieldNamed_Some _ _ _ Hfirst) as [Hlt _].
        exists i, (nth i (elt0 :: elts) elt0).
        split; [reflexivity|]. split; [|reflexivity].
        apply nth_error_nth'. lia.
      * injection Hsent as <-. contradiction.
    + unfold scanTypeExpr in Hsent. rewrite Hmatch in Hsent.
      cbn [negb] in Hsent. injection Hsent as <-. contradiction.
Qed.

Lemma checkedPkg_checked : positionalCountsChecked DemoLiterals.checkedPkg.
Proof.
  intros lit elt0 elts typ fields Hin Hstruct Hpos Hcount.
  destruct Hin as [Hin|[]]. injection Hin as <- <- <- <-.
  simpl in Hstruct. injection Hstruct as <-. simpl in Hcount. lia.
Qed.

Lemma brokenPkg_checked : positionalCountsChecked DemoLiterals.brokenPkg.
Proof.
  intros lit elt0 elts typ fields Hin Hstruct Hpos Hcount. discriminate.
Qed.

Lemma positional_match_requires_equal_count_witness :
  (* Client{t} in a package reported with errors: nothing is sent *)
  snd (visitPackage Demo.qClientJar false DemoLiterals.brokenPkg) = Ok []
  (* Client{t, jar} in a package without errors: the element of Jar *)
  /\ scanTypeExpr Demo.qClientJar (DemoLiterals.fullLiteral, Demo.ClientType)
     = Ok [mkNode 210 213].
Proof.
  split.
  - apply (proj1 (positional_match_requires_equal_count
                    Demo.qClientJar false DemoLiterals.brokenPkg
                    (mkNode 200 230) (EOther (mkNode 207 208)) []
                    Demo.ClientType [("Transport", TOther); ("Jar", TOther)]
                    brokenPkg_checked
                    (or_introl eq_refl) eq_refl eq_refl)).
    simpl. lia.
  - apply (proj2 (proj2 (proj2 (positional_match_requires_equal_count
                    Demo.qClientJar false DemoLiterals.checkedPkg
                    (mkNode 200 230) (EOther (mkNode 207 208))
                    [EOther (mkNode 210 213)]
                    Demo.ClientType [("Transport", TOther); ("Jar", TOther)]
                    checkedPkg_checked
                    (or_introl eq_refl) eq_refl eq_refl) eq_refl))).
    reflexivity.
Defined.

(** C4.  For an identifier of the use plane, bound to [obj]: when [obj]
    is a type name, nothing is sent; when [obj] is a function or method
    whose package has the path [pkgPath] and whose name is [objName], the
    identifier is sent, whatever [fieldMatches] says of its type; in every
    other case the identifier is sent exactly when
    [fieldMatches(obj.Type(), "")] holds. *)
Theorem use_scanner_cases (q : Query) (ident : Ident) (obj : Object) :
  (obj_kind obj = KTypeName -> scanUse q (ident, obj) = [])
  /\ (forall pkg,
        obj_kind obj = KFunc ->
        obj_Pkg obj = Some pkg ->
        Path pkg = pkgPath q ->
        obj_Name obj = objName q ->
        scanUse q (ident, obj) = [id_node ident])
  /\ (obj_kind obj <> KTypeName ->
      ~ (obj_kind obj = KFunc
         /\ exists pkg, obj_Pkg obj = Some pkg
                        /\ Path pkg = pkgPath q
                        /\ obj_Name obj = objName q) ->
      scanUse q (ident, obj)
      = if fieldMatches q (obj_Type obj) "" then [id_node ident] else []).
Proof.
  unfold scanUse, funcNamed. split; [|split].
  - intros ->. reflexivity.
  - intros pkg -> -> Hp Hn. rewrite Hp, Hn, !String.eqb_refl. reflexivity.
  - intros Hk Hnot.
    destruct (obj_kind obj) eqn:Hkind; try congruence; try reflexivity.
    destruct (obj_Pkg obj) as [pkg|] eqn:Hpkg; [|reflexivity].
    destruct ((Path pkg =? pkgPath q)%string && (obj_Name obj =? objName q)%string)
      eqn:Hb; [|reflexivity].
    exfalso. apply Hnot. split; [reflexivity|].
    apply andb_true_iff in Hb as [Hp Hn].
    apply String.eqb_eq in Hp. apply String.eqb_eq in Hn.
    exists pkg. repeat split; assumption.
Qed.

Lemma use_scanner_cases_witness :
  scanUse Demo.qClient (Demo.ident 50 "Client", Demo.ClientTypeName) = []
  /\ scanUse (mkQuery "net/http" "Get" "")
       (Demo.ident 60 "Get", Demo.GetFunc) = [mkNode 60 63]
  /\ scanUse Demo.qClient (Demo.ident 21 "c", Demo.clientVar) = [mkNode 21 22].
Proof.
  split; [|split].
  - apply (proj1 (use_scanner_cases Demo.qClient (Demo.ident 50 "Client")
                    Demo.ClientTypeName)).
    reflexivity.
  - apply (proj1 (proj2 (use_scanner_cases (mkQuery "net/http" "Get" "")
                    (Demo.ident 60 "Get") Demo.GetFunc)) Demo.httpPkg);
      reflexivity.
  - apply (proj2 (proj2 (use_scanner_cases Demo.qClient (Demo.ident 21 "c")
                    Demo.clientVar))).
    + discriminate.
    + intros [H _]. discriminate.
Defined.

(** C10.  The callable branch of the use scanner does not look at
    [selName]: with a non-empty [selName], where [fieldMatches(_, "")] is
    false for every type, an identifier bound to a function or method
    whose package has the path [pkgPath] and whose name is [objName] is
    still sent. *)
Theorem callable_bypass_ignores_selName
    (q : Query) (ident : Ident) (obj : Object) (pkg : Package) :
  selName q <> "" ->
  obj_kind obj = KFunc ->
  obj_Pkg obj = Some pkg ->
  Path pkg = pkgPath q ->
  obj_Name obj = objName q ->
  scanUse q (ident, obj) = [id_node ident]
  /\ (forall typ, fieldMatches q typ "" = false)
  /\ (forall ident' obj',
        obj_kind obj' <> KFunc -> scanUse q (ident', obj') = []).
Proof.
  intros Hsel Hkind Hpkg Hpath Hname.
  assert (Hgate : forall typ, fieldMatches q typ "" = false).
  { intros typ. unfold fieldMatches.
    destruct (String.eqb_spec "" (selName q)) as [Heq|Hne]; [|reflexivity].
    exfalso. apply Hsel. symmetry. exact Heq. }
  split; [|split].
  - unfold scanUse, funcNamed.
    rewrite Hkind, Hpkg, Hpath, Hname, !String.eqb_refl. reflexivity.
  - exact Hgate.
  - intros ident' obj' Hk. unfold scanUse.
    destruct (obj_kind obj'); try congruence; try reflexivity;
      rewrite Hgate; reflexivity.
Qed.

Lemma callable_bypass_ignores_selName_witness :
  scanUse Demo.qGet (Demo.ident 60 "Get", Demo.GetFunc) = [mkNode 60 63]
  /\ (forall typ, fieldMatches Demo.qGet typ "" = false)
  /\ (forall ident' obj',
        obj_kind obj' <> KFunc -> scanUse Demo.qGet (ident', obj') = []).
Proof.
  apply (callable_bypass_ignores_selName Demo.qGet (Demo.ident 60 "Get")
           Demo.GetFunc Demo.httpPkg); try reflexivity.
  discriminate.
Defined.

(* ================================================================== *)
(** * Packages with type errors *)

Lemma bind_Ok_id {A : Type} (m : Res A) : bind m (fun a => Ok a) = m.
Proof. destruct m; reflexivity. Qed.

Lemma scanProgram_app q flagQuiet before after :
  scanProgram q flagQuiet (before ++ after)
  = (fst (scanProgram q flagQuiet before) ++ fst (scanProgram q flagQuiet after),
     bind (snd (scanProgram q flagQuiet before)) (fun s1 =>
     bind (snd (scanProgram q flagQuiet after)) (fun s2 => Ok (s1 ++ s2)))).
Proof.
  induction before as [|pi before IH]; simpl.
  - destruct (scanProgram q flagQuiet after) as [log sent]. simpl.
    destruct sent; reflexivity.
  - rewrite IH.
    destruct (visitPackage q flagQuiet pi) as [log1 sent1].
    destruct (scanProgram q flagQuiet before) as [log2 sent2].
    destruct (scanProgram q flagQuiet after) as [log3 sent3]. simpl.
    rewrite app_assoc. f_equal.
    destruct sent1 as [s1|]; [|reflexivity].
    destruct sent2 as [s2|]; [|reflexivity].
    destruct sent3 as [s3|]; [|reflexivity].
    simpl. rewrite app_assoc. reflexivity.
Qed.

(** C8.  A package reported with type errors is passed over: none of
    its planes is scanned (it sends nothing, whatever its planes hold),
    one diagnostic line is logged for it unless the quiet flag is set, and
    what the other packages send and log, and hence the display records of
    the run, are what they are without it. *)
Theorem failing_package_is_isolated
    (q : Query) (flagQuiet : bool) (before after : list PackageInfo)
    (bad : PackageInfo) :
  Errors bad <> [] ->
  visitPackage q flagQuiet bad
  = ((if flagQuiet then [] else [diagnostic bad]), Ok [])
  /\ snd (scanProgram q flagQuiet (before ++ bad :: after))
     = snd (scanProgram q flagQuiet (before ++ after))
  /\ fst (scanProgram q flagQuiet (before ++ bad :: after))
     = fst (scanProgram q flagQuiet before)
       ++ (if flagQuiet then [] else [diagnostic bad])
       ++ fst (scanProgram q flagQuiet after)
  /\ (forall schedule sort_Sort args fs,
        parseQuery (hd "" args) = Ok q ->
        recordsOf (gofind schedule sort_Sort flagQuiet args
                     (fun _ => Loaded fs (before ++ bad :: after)))
        = recordsOf (gofind schedule sort_Sort flagQuiet args
                       (fun _ => Loaded fs (before ++ after)))).
Proof.
  intros Herr.
  assert (Hvisit : visitPackage q flagQuiet bad
                   = ((if flagQuiet then [] else [diagnostic bad]), Ok [])).
  { unfold visitPackage. destruct (Errors bad); [congruence|].
    destruct flagQuiet; reflexivity. }
  assert (Hcons : scanProgram q flagQuiet (bad :: after)
                  = ((if flagQuiet then [] else [diagnostic bad])
                       ++ fst (scanProgram q flagQuiet after),
                     snd (scanProgram q flagQuiet after))).
  { simpl. rewrite Hvisit.
    destruct (scanProgram q flagQuiet after) as [log sent]. simpl.
    destruct sent; reflexivity. }
  assert (Hsnd : snd (scanProgram q flagQuiet (before ++ bad :: after))
                 = snd (scanProgram q flagQuiet (before ++ after))).
  { rewrite !scanProgram_app, Hcons. reflexivity. }
  split; [exact Hvisit|]. split; [exact Hsnd|]. split.
  - rewrite scanProgram_app, Hcons. reflexivity.
  - intros schedule sort_Sort args fs Hq. unfold gofind.
    destruct args as [|target [|pkgArg pkgArgs]]; try reflexivity.
    simpl in Hq. rewrite Hq.
    destruct (scanProgram q flagQuiet (before ++ bad :: after)) as [log1 sent1].
    destruct (scanProgram q flagQuiet (before ++ after)) as [log2 sent2].
    simpl in Hsnd. subst sent2.
    destruct sent1; reflexivity.
Qed.

Lemma failing_package_is_isolated_witness :
  visitPackage Demo.qClient false Demo.badPkg
  = (["gofind: broken: undeclared name: x and 2 error(s)"], Ok [])
  /\ snd (scanProgram Demo.qClient false [Demo.goodPkg; Demo.badPkg; Demo.goodPkg])
     = snd (scanProgram Demo.qClient false [Demo.goodPkg; Demo.goodPkg])
  /\ fst (scanProgram Demo.qClient true [Demo.goodPkg; Demo.badPkg; Demo.goodPkg])
     = [].
Proof.
  assert (Herr : Errors Demo.badPkg <> []) by discriminate.
  split; [|split].
  - exact (proj1 (failing_package_is_isolated Demo.qClient false [] []
                    Demo.badPkg Herr)).
  - exact (proj1 (proj2 (failing_package_is_isolated Demo.qClient false
                           [Demo.goodPkg] [Demo.goodPkg] Demo.badPkg Herr))).
  - exact (proj1 (proj2 (proj2 (failing_package_is_isolated Demo.qClient true
                           [Demo.goodPkg] [Demo.goodPkg] Demo.badPkg Herr)))).
Defined.

(* ================================================================== *)
(** * Sorting and determinism *)

(** A slice that [sort.Sort] has sorted with [Less] stands by file name
    ascending, then by offset ascending: a node whose file name is smaller
    than another's stands before it, and of two nodes of one file the one
    with the smaller offset stands before the other.  The comparison is
    total on (file name, offset). *)
Theorem sorted_by_filename_then_offset
    (fs : FileSet) (arrival sorted : list Node) :
  SortResult fs arrival sorted ->
  (forall i j m1 m2,
     nth_error sorted i = Some m1 ->
     nth_error sorted j = Some m2 ->
     ((Filename (fs (Pos m1)) <? Filename (fs (Pos m2)))%string = true -> i < j)
     /\ (Filename (fs (Pos m1)) = Filename (fs (Pos m2)) ->
         (Offset (fs (Pos m1)) < Offset (fs (Pos m2)))%Z -> i < j))
  /\ (forall m1 m2,
        lessNodes fs m1 m2 = true \/ lessNodes fs m2 m1 = true
        \/ (Filename (fs (Pos m1)) = Filename (fs (Pos m2))
            /\ Offset (fs (Pos m1)) = Offset (fs (Pos m2)))).
Proof.
  intros [_ Hsorted]. split; [|apply lessNodes_total].
  intros i j m1 m2 Hi Hj.
  assert (Hless : lessNodes fs m1 m2 = true -> i < j).
  { intros Hlt.
    destruct (Nat.lt_trichotomy i j) as [Hij|[Hij|Hij]]; [exact Hij| |].
    - subst j. rewrite Hi in Hj. injection Hj as <-.
      rewrite lessNodes_irrefl in Hlt. discriminate.
    - pose proof (sorted_index_order fs sorted j i m2 m1 Hsorted Hij Hj Hi) as Hge.
      congruence. }
  split.
  - intros Hfile. apply Hless. apply lessNodes_true. left. exact Hfile.
  - intros Hfile Hoff. apply Hless. apply lessNodes_true. right.
    split; assumption.
Qed.

Lemma sorted_by_filename_then_offset_witness :
  (forall i j m1 m2,
     nth_error (insertionSort Demo.twoFiles
                  [mkNode 1005 1008; mkNode 900 903; mkNode 21 22]) i = Some m1 ->
     nth_error (insertionSort Demo.twoFiles
                  [mkNode 1005 1008; mkNode 900 903; mkNode 21 22]) j = Some m2 ->
     ((Filename (Demo.twoFiles (Pos m1)) <? Filename (Demo.twoFiles (Pos m2)))%string
      = true -> i < j)
     /\ (Filename (Demo.twoFiles (Pos m1)) = Filename (Demo.twoFiles (Pos m2)) ->
         (Offset (Demo.twoFiles (Pos m1)) < Offset (Demo.twoFiles (Pos m2)))%Z ->
         i < j))
  /\ insertionSort Demo.twoFiles [mkNode 1005 1008; mkNode 900 903; mkNode 21 22]
     = [mkNode 21 22; mkNode 900 903; mkNode 1005 1008].
Proof.
  split; [|reflexivity].
  exact (proj1 (sorted_by_filename_then_offset Demo.twoFiles
                  [mkNode 1005 1008; mkNode 900 903; mkNode 21 22]
                  (insertionSort Demo.twoFiles
                     [mkNode 1005 1008; mkNode 900 903; mkNode 21 22])
                  (insertionSort_contract Demo.twoFiles _))).
Defined.

Lemma tie_free_perm fs l l' :
  Permutation l l' -> tie_free fs l -> tie_free fs l'.
Proof.
  intros Hp Htf a b Ha Hb.
  apply Htf; eapply Permutation_in; try eassumption;
    apply Permutation_sym; exact Hp.
Qed.

(** Whatever the arrival order and whatever sort meets the contract of
    [sort.Sort], a tie-free collection is sorted into one sequence. *)
Lemma sorted_arrivals_agree fs emitted arrival1 arrival2 sorted1 sorted2 :
  tie_free fs emitted ->
  Permutation emitted arrival1 -> Permutation emitted arrival2 ->
  SortResult fs arrival1 sorted1 -> SortResult fs arrival2 sorted2 ->
  sorted1 = sorted2.
Proof.
  intros Htf Hp1 Hp2 [Hs1 Hsorted1] [Hs2 Hsorted2].
  apply (sorted_unique fs); try assumption.
  - apply (tie_free_perm fs emitted); [|exact Htf].
    exact (Permutation_trans Hp1 Hs1).
  - apply Permutation_sym in Hs1. apply Permutation_sym in Hp1.
    exact (Permutation_trans Hs1
             (Permutation_trans Hp1 (Permutation_trans Hp2 Hs2))).
Qed.

Lemma sendAlike_refl r : sendAlike r r.
Proof. destruct r; simpl; auto. Qed.

Lemma sendAlike_trans r1 r2 r3 :
  sendAlike r1 r2 -> sendAlike r2 r3 -> sendAlike r1 r3.
Proof.
  destruct r1, r2, r3; simpl; try tauto.
  apply Permutation_trans.
Qed.

(** Sequencing two sends keeps them alike. *)
Lemma sendAlike_seq r1 r1' r2 r2' :
  sendAlike r1 r1' -> sendAlike r2 r2' ->
  sendAlike (bind r1 (fun s1 => bind r2 (fun s2 => Ok (s1 ++ s2))))
            (bind r1' (fun s1 => bind r2' (fun s2 => Ok (s1 ++ s2)))).
Proof.
  destruct r1, r1', r2, r2'; simpl; try tauto.
  apply Permutation_app.
Qed.

Lemma rangeOver_cons {A : Type} (body : A -> Res (list Node)) entry plane :
  rangeOver body (entry :: plane)
  = bind (body entry) (fun s1 =>
      bind (rangeOver body plane) (fun s2 => Ok (s1 ++ s2))).
Proof. reflexivity. Qed.

(** The order in which [range] visits a plane only permutes what is
    sent. *)
Lemma rangeOver_perm {A : Type} (body : A -> Res (list Node)) plane plane' :
  Permutation plane plane' ->
  sendAlike (rangeOver body plane) (rangeOver body plane').
Proof.
  induction 1 as [|x l l' Hp IH|x y l|l l' l'' Hp1 IH1 Hp2 IH2].
  - apply sendAlike_refl.
  - rewrite !rangeOver_cons. apply sendAlike_seq; [apply sendAlike_refl | exact IH].
  - rewrite !rangeOver_cons.
    destruct (body x) as [sx|], (body y) as [sy|],
             (rangeOver body l) as [rest|]; simpl; auto.
    rewrite !app_assoc. apply Permutation_app_tail, Permutation_app_comm.
  - eapply sendAlike_trans; eassumption.
Qed.

Lemma scanPackage_samePlanes q pi pi' :
  samePlanes pi pi' -> sendAlike (scanPackage q pi) (scanPackage q pi').
Proof.
  intros [_ [_ [Hsel [Huse [Hdef Htyp]]]]]. unfold scanPackage.
  pose proof (rangeOver_perm (scanSelection q) _ _ Hsel) as H1.
  pose proof (rangeOver_perm (pure (scanUse q)) _ _ Huse) as H2.
  pose proof (rangeOver_perm (pure (scanDef q)) _ _ Hdef) as H3.
  assert (H4 : sendAlike
                 (if negb (selName q =? "")%string
                  then rangeOver (scanTypeExpr q) (Types pi) else Ok [])
                 (if negb (selName q =? "")%string
                  then rangeOver (scanTypeExpr q) (Types pi') else Ok [])).
  { destruct (negb (selName q =? "")%string);
      [apply rangeOver_perm; exact Htyp | apply sendAlike_refl]. }
  destruct (rangeOver (scanSelection q) (Selections pi)),
           (rangeOver (scanSelection q) (Selections pi'));
    simpl in *; try tauto.
  destruct (rangeOver (pure (scanUse q)) (Uses pi)),
           (rangeOver (pure (scanUse q)) (Uses pi'));
    simpl in *; try tauto.
  destruct (rangeOver (pure (scanDef q)) (Defs pi)),
           (rangeOver (pure (scanDef q)) (Defs pi'));
    simpl in *; try tauto.
  destruct (if negb (selName q =? "")%string
            then rangeOver (scanTypeExpr q) (Types pi) else Ok []),
           (if negb (selName q =? "")%string
            then rangeOver (scanTypeExpr q) (Types pi') else Ok []);
    simpl in *; try tauto.
  repeat apply Permutation_app; assumption.
Qed.

Lemma scanProgram_sameCorpus q flagQuiet prog prog' :
  Forall2 samePlanes prog prog' ->
  fst (scanProgram q flagQuiet prog) = fst (scanProgram q flagQuiet prog')
  /\ sendAlike (snd (scanProgram q flagQuiet prog))
               (snd (scanProgram q flagQuiet prog')).
Proof.
  induction 1 as [|pi pi' prog prog' Hpi Hrest [IHlog IHsent]]; simpl.
  - split; [reflexivity | apply Permutation_refl].
  - assert (Hvisit : fst (visitPackage q flagQuiet pi)
                     = fst (visitPackage q flagQuiet pi')
                     /\ sendAlike (snd (visitPackage q flagQuiet pi))
                                  (snd (visitPackage q flagQuiet pi'))).
    { unfold visitPackage, diagnostic.
      pose proof (scanPackage_samePlanes q pi pi' Hpi) as Hscan.
      destruct Hpi as [Hpkg [Herr _]]. rewrite <- Hpkg, <- Herr.
      destruct (Errors pi); simpl; split; auto using Permutation_refl. }
    destruct Hvisit as [Hlog Hsent].
    destruct (visitPackage q flagQuiet pi) as [log1 sent1].
    destruct (visitPackage q flagQuiet pi') as [log1' sent1'].
    destruct (scanProgram q flagQuiet prog) as [log2 sent2].
    destruct (scanProgram q flagQuiet prog') as [log2' sent2'].
    simpl in *. split; [congruence|].
    apply sendAlike_seq; assumption.
Qed.

(** C5.  Two runs on the same arguments and the same corpus end alike,
    with the same sequence of display records, whatever the order in
    which [range] visited the maps of the planes, whatever the order in
    which the collector received the nodes, and whatever the library sort
    did in each run.  The premise is the one under which the order of
    [Less] has no ties: no two different collected nodes start at the same
    offset of the same file (a node collected twice is no tie). *)
Theorem two_runs_same_display_records
    (schedule1 schedule2 : list Node -> list Node)
    (sort1 sort2 : FileSet -> list Node -> list Node)
    (flagQuiet : bool) (args : list string)
    (frontEnd1 frontEnd2 : list string -> LoadResult) :
  schedules schedule1 -> schedules schedule2 ->
  sorts sort1 -> sorts sort2 ->
  (forall pkgArgs, sameCorpus (frontEnd1 pkgArgs) (frontEnd2 pkgArgs)) ->
  (forall fs emitted,
     collected flagQuiet args frontEnd1 = Some (fs, emitted) ->
     tie_free fs emitted) ->
  endAlike (gofind schedule1 sort1 flagQuiet args frontEnd1)
           (gofind schedule2 sort2 flagQuiet args frontEnd2)
  /\ (forall log records,
        gofind schedule1 sort1 flagQuiet args frontEnd1 = Completed log records ->
        gofind schedule2 sort2 flagQuiet args frontEnd2 = Completed log records).
Proof.
  intros Hsch1 Hsch2 Hsort1 Hsort2 Hcorpus Hties.
  assert (Halike : endAlike (gofind schedule1 sort1 flagQuiet args frontEnd1)
                            (gofind schedule2 sort2 flagQuiet args frontEnd2)).
  { unfold gofind, collected in *.
    destruct args as [|target [|pkgArg pkgArgs]]; try reflexivity.
    destruct (parseQuery target) as [q|msg]; [|exact I].
    specialize (Hcorpus (pkgArg :: pkgArgs)).
    destruct (frontEnd1 (pkgArg :: pkgArgs)) as [err|fs prog],
             (frontEnd2 (pkgArg :: pkgArgs)) as [err'|fs' prog'];
      simpl in Hcorpus; try contradiction.
    - subst err'. reflexivity.
    - destruct Hcorpus as [<- Hprog].
      destruct (scanProgram_sameCorpus q flagQuiet prog prog' Hprog)
        as [Hlog Hsent].
      destruct (scanProgram q flagQuiet prog) as [log sent].
      destruct (scanProgram q flagQuiet prog') as [log' sent'].
      simpl in Hlog, Hsent, Hties. subst log'.
      destruct sent as [emitted|msg], sent' as [emitted'|msg'];
        simpl in Hsent; try contradiction; [|exact I].
      simpl. f_equal. f_equal.
      apply (sorted_arrivals_agree fs emitted
               (schedule1 emitted) (schedule2 emitted')).
      + apply Hties. reflexivity.
      + apply Hsch1.
      + exact (Permutation_trans Hsent (Hsch2 emitted')).
      + apply Hsort1.
      + apply Hsort2. }
  split; [exact Halike|].
  intros log records Hrun. rewrite Hrun in Halike.
  simpl in Halike. symmetry. exact Halike.
Qed.

Lemma two_runs_same_display_records_witness :
  endAlike
    (gofind (fun l => l) insertionSort false ["net/http.Client"; "net/http"]
            (fun _ => Loaded Demo.oneFile [Demo.goodPkg]))
    (gofind (@rev Node) insertionSort false ["net/http.Client"; "net/http"]
            (fun _ => Loaded Demo.oneFile [Demo.goodPkgReordered]))
  /\ gofind (@rev Node) insertionSort false ["net/http.Client"; "net/http"]
            (fun _ => Loaded Demo.oneFile [Demo.goodPkgReordered])
     = Completed []
         [Display.mkResult "client.go" 1 [mkHighlight 4 5; mkHighlight 20 21];
          Display.mkResult "client.go" 2 [mkHighlight 29 30]].
Proof.
  assert (Hcorpus : forall pkgArgs : list string,
             sameCorpus (Loaded Demo.oneFile [Demo.goodPkg])
                        (Loaded Demo.oneFile [Demo.goodPkgReordered])).
  { intros _. split; [reflexivity|]. constructor; [|constructor].
    repeat split; simpl; try apply Permutation_refl.
    - eapply Permutation_trans; [apply perm_swap|].
      apply perm_skip, perm_swap.
    - apply perm_swap. }
  assert (Hties : forall fs emitted,
             collected false ["net/http.Client"; "net/http"]
               (fun _ => Loaded Demo.oneFile [Demo.goodPkg]) = Some (fs, emitted) ->
             tie_free fs emitted).
  { intros fs emitted H. injection H as <- <-.
    intros a b Ha Hb. simpl in Ha, Hb.
    destruct Ha as [<-|[<-|[<-|[]]]]; destruct Hb as [<-|[<-|[<-|[]]]];
      intros Hf Ho; try reflexivity; vm_compute in Ho; discriminate. }
  destruct (two_runs_same_display_records
              (fun l => l) (@rev Node) insertionSort insertionSort false
              ["net/http.Client"; "net/http"]
              (fun _ => Loaded Demo.oneFile [Demo.goodPkg])
              (fun _ => Loaded Demo.oneFile [Demo.goodPkgReordered])
              (fun l => Permutation_refl l) (fun l => Permutation_rev l)
              (fun fs l => insertionSort_contract fs l)
              (fun fs l => insertionSort_contract fs l)
              Hcorpus Hties) as [Halike Hsame].
  split; [exact Halike|].
  apply Hsame. reflexivity.
Defined.

(* ================================================================== *)
(** * Grouping *)

Lemma highlightOf_length fs n :
  (Pos n < End n)%Z ->
  (hl_start (highlightOf fs n) < hl_end (highlightOf fs n))%Z.
Proof. unfold highlightOf. simpl. lia. Qed.

(** Two nodes of one line, in sorted order, give one record whose two
    spans stand left to right. *)
Lemma group_sorted_pair fs a b :
  sameLine fs a b ->
  (Column (fs (Pos a)) - Offset (fs (Pos a))
   = Column (fs (Pos b)) - Offset (fs (Pos b)))%Z ->
  (Pos a < End a)%Z -> (Pos b < End b)%Z ->
  spansDisjoint (highlightOf fs a) (highlightOf fs b) ->
  IsSorted fs [a; b] ->
  groupNodes fs [a; b]
  = [Display.mkResult (Filename (fs (Pos a))) (Line (fs (Pos a)))
                      [highlightOf fs a; highlightOf fs b]]
  /\ (hl_end (highlightOf fs a) <= hl_start (highlightOf fs b))%Z.
Proof.
  intros Hline Hcol Ha Hb Hdisj Hsorted. split.
  - apply (groupNodes_one_line fs a [b]). constructor; [exact Hline | constructor].
  - inversion Hsorted as [|? ? _ Hhd]; subst.
    inversion Hhd as [|? ? Hab]; subst.
    apply lessNodes_false in Hab.
    destruct Hline as [Hfile _].
    destruct Hab as [Hlt|[_ Hoff]].
    + rewrite Hfile, str_ltb_irrefl in Hlt. discriminate.
    + pose proof (highlightOf_length fs b Hb) as Hlen.
      destruct Hdisj as [Hd|Hd]; [exact Hd|].
      unfold highlightOf in *. simpl in *. lia.
Qed.

(** C7.  Two Matches on the same file and line with disjoint column
    ranges, collected in either order and then sorted, are grouped into
    exactly one display record, which holds the two highlight spans, the
    left one first and ending before the right one starts.  And a node on
    another file or line than its predecessor starts a new display record
    behind those built so far. *)
Theorem highlight_grouping (fs : FileSet) :
  (forall m1 m2 arrival sorted,
     sameLine fs m1 m2 ->
     (Column (fs (Pos m1)) - Offset (fs (Pos m1))
      = Column (fs (Pos m2)) - Offset (fs (Pos m2)))%Z ->
     (Pos m1 < End m1)%Z -> (Pos m2 < End m2)%Z ->
     spansDisjoint (highlightOf fs m1) (highlightOf fs m2) ->
     Permutation [m1; m2] arrival ->
     SortResult fs arrival sorted ->
     exists left right,
       groupNodes fs sorted
       = [Display.mkResult (Filename (fs (Pos m1))) (Line (fs (Pos m1)))
                           [left; right]]
       /\ Permutation [highlightOf fs m1; highlightOf fs m2] [left; right]
       /\ (hl_start left < hl_end left)%Z
       /\ (hl_end left <= hl_start right)%Z
       /\ (hl_start right < hl_end right)%Z)
  /\ (forall before m n,
        ~ sameLine fs m n ->
        groupNodes fs ((before ++ [m]) ++ [n])
        = groupNodes fs (before ++ [m]) ++ [recordOf fs n]).
Proof.
  split; [|intros before m n; apply groupNodes_snoc_new].
  intros m1 m2 arrival sorted Hline Hcol H1 H2 Hdisj Harr [Hperm Hsorted].
  pose proof (Permutation_trans Harr Hperm) as Hp.
  apply Permutation_length_2_inv in Hp.
  destruct Hp as [-> | ->].
  - destruct (group_sorted_pair fs m1 m2 Hline Hcol H1 H2 Hdisj Hsorted)
      as [Hgroup Horder].
    exists (highlightOf fs m1), (highlightOf fs m2).
    split; [exact Hgroup|]. split; [apply Permutation_refl|].
    split; [apply highlightOf_length; exact H1|].
    split; [exact Horder | apply highlightOf_length; exact H2].
  - assert (Hline' : sameLine fs m2 m1)
      by (destruct Hline; split; congruence).
    assert (Hdisj' : spansDisjoint (highlightOf fs m2) (highlightOf fs m1))
      by (destruct Hdisj; [right | left]; assumption).
    destruct (group_sorted_pair fs m2 m1 Hline' (eq_sym Hcol) H2 H1 Hdisj' Hsorted)
      as [Hgroup Horder].
    exists (highlightOf fs m2), (highlightOf fs m1).
    destruct Hline as [Hf Hl]. rewrite Hf, Hl.
    split; [exact Hgroup|]. split; [apply perm_swap|].
    split; [apply highlightOf_length; exact H2|].
    split; [exact Horder | apply highlightOf_length; exact H1].
Qed.

Lemma highlight_grouping_witness :
  (exists left right,
     groupNodes Demo.oneFile [mkNode 21 22; mkNode 30 36]
     = [Display.mkResult "client.go" 1 [left; right]]
     /\ Permutation [highlightOf Demo.oneFile (mkNode 30 36);
                     highlightOf Demo.oneFile (mkNode 21 22)] [left; right]
     /\ (hl_start left < hl_end left)%Z
     /\ (hl_end left <= hl_start right)%Z
     /\ (hl_start right < hl_end right)%Z)
  /\ groupNodes Demo.oneFile [mkNode 21 22; mkNode 30 36; mkNode 110 111]
     = groupNodes Demo.oneFile [mkNode 21 22; mkNode 30 36]
       ++ [Display.mkResult "client.go" 2 [mkHighlight 29 30]].
Proof.
  split.
  - apply (proj1 (highlight_grouping Demo.oneFile)
             (mkNode 30 36) (mkNode 21 22)
             [mkNode 30 36; mkNode 21 22] [mkNode 21 22; mkNode 30 36]).
    + split; reflexivity.
    + reflexivity.
    + reflexivity.
    + reflexivity.
    + right. vm_compute. discriminate.
    + apply Permutation_refl.
    + split; [apply perm_swap|].
      repeat constructor.
  - apply (proj2 (highlight_grouping Demo.oneFile)
             [mkNode 21 22] (mkNode 30 36) (mkNode 110 111)).
    intros [_ Hl]. vm_compute in Hl. discriminate.
Defined.


(* ================================================================== *)
(** * Further properties of the scanners *)

Lemma rangeOver_Ok_inv {A : Type} (body : A -> Res (list Node)) plane out :
  rangeOver body plane = Ok out ->
  exists sends,
    Forall2 (fun entry sent => body entry = Ok sent) plane sends
    /\ out = concat sends.
Proof.
  revert out. induction plane as [|entry plane IH]; intros out H.
  - simpl in H. injection H as <-. exists []. split; [constructor | reflexivity].
  - rewrite rangeOver_cons in H.
    destruct (body entry) as [sent|] eqn:Hb; [|discriminate].
    destruct (rangeOver body plane) as [more|] eqn:Hr; [|discriminate].
    simpl in H. injection H as <-.
    destruct (IH more eq_refl) as [sends [Hall ->]].
    exists (sent :: sends). split; [constructor; assumption | reflexivity].
Qed.

(** Every node a goroutine sends is sent for some entry of its plane. *)
Lemma rangeOver_In {A : Type} (body : A -> Res (list Node)) plane out n :
  rangeOver body plane = Ok out -> In n out ->
  exists entry sent, In entry plane /\ body entry = Ok sent /\ In n sent.
Proof.
  intros H Hin. destruct (rangeOver_Ok_inv body plane out H) as [sends [Hall ->]].
  clear H. induction Hall as [|entry sent plane sends Hb Hall IH].
  - contradiction.
  - simpl in Hin. apply in_app_or in Hin as [Hin|Hin].
    + exists entry, sent. repeat split; [left; reflexivity | exact Hb | exact Hin].
    + destruct (IH Hin) as [e [s [He [Hs Hn]]]].
      exists e, s. repeat split; [right; exact He | exact Hs | exact Hn].
Qed.

(** What is sent for an entry is part of what the goroutine sends. *)
Lemma rangeOver_incl {A : Type} (body : A -> Res (list Node)) plane out entry sent :
  rangeOver body plane = Ok out -> In entry plane -> body entry = Ok sent ->
  incl sent out.
Proof.
  intros H Hin Hb. destruct (rangeOver_Ok_inv body plane out H) as [sends [Hall ->]].
  clear H. induction Hall as [|e s plane sends He Hall IH].
  - contradiction.
  - simpl. destruct Hin as [->|Hin].
    + rewrite Hb in He. injection He as <-. apply incl_appl, incl_refl.
    + apply incl_appr. apply IH. exact Hin.
Qed.

Lemma rangeOver_length {A : Type} (body : A -> Res (list Node)) plane out :
  (forall entry sent, body entry = Ok sent -> length sent <= 1) ->
  rangeOver body plane = Ok out -> length out <= length plane.
Proof.
  intros Hone H. destruct (rangeOver_Ok_inv body plane out H) as [sends [Hall ->]].
  clear H. induction Hall as [|e s plane sends He Hall IH]; simpl; [lia|].
  rewrite length_app. specialize (Hone e s He). lia.
Qed.

(** X1.  The selection scanner, when every selected member is a variable
    or a function, sends the [Sel] identifiers of exactly the selections
    whose receiver type matches with the member's name as selector, in
    visiting order; and it panics as soon as the plane holds a selection
    of another kind of object, whatever else it holds. *)
Theorem selection_scanner_sends (q : Query) (plane : list (SelectorExpr * Selection)) :
  (forallb (fun entry => isVarOrFunc (sel_Obj (snd entry))) plane = true ->
   rangeOver (scanSelection q) plane
   = Ok (map (fun entry => id_node (sx_Sel (fst entry)))
             (filter (selectionMatches q) plane)))
  /\ (forallb (fun entry => isVarOrFunc (sel_Obj (snd entry))) plane = false ->
      rangeOver (scanSelection q) plane = Panic "unreachable").
Proof.
  induction plane as [|[expr sel] plane [IHok IHpanic]].
  - split; [reflexivity | discriminate].
  - rewrite rangeOver_cons. cbn [forallb fst snd filter].
    unfold scanSelection at 1 3, isVarOrFunc at 1 3, selectionMatches at 1.
    cbn [fst snd].
    split.
    + intros Hall. apply andb_true_iff in Hall as [Hk Hrest].
      rewrite (IHok Hrest).
      destruct (obj_kind (sel_Obj sel)); try discriminate;
        destruct (fieldMatches q (sel_Recv sel) (obj_Name (sel_Obj sel)));
        reflexivity.
    + intros Hsome.
      destruct (obj_kind (sel_Obj sel)) eqn:Hkind; try reflexivity;
        simpl in Hsome; rewrite (IHpanic Hsome);
        destruct (fieldMatches q (sel_Recv sel) (obj_Name (sel_Obj sel)));
        reflexivity.
Qed.

Lemma selection_scanner_sends_witness :
  rangeOver (scanSelection Demo.qClientJar) DemoPlanes.selections
  = Ok [mkNode 12 15]
  /\ rangeOver (scanSelection Demo.qClientJar) DemoPlanes.oddSelections
     = Panic "unreachable".
Proof.
  split.
  - exact (proj1 (selection_scanner_sends Demo.qClientJar DemoPlanes.selections)
                 eq_refl).
  - exact (proj2 (selection_scanner_sends Demo.qClientJar DemoPlanes.oddSelections)
                 eq_refl).
Defined.

Lemma scanKeyed_sound sel elts sent n :
  scanKeyed sel elts = Ok sent -> In n sent ->
  sent = [n]
  /\ exists id v,
       In (EKeyValue (EIdent id) v) elts /\ id_Name id = sel /\ n = id_node id.
Proof.
  induction elts as [|elt elts IH]; simpl; intros H Hin.
  - injection H as <-. contradiction.
  - destruct elt as [| key v | |]; try discriminate.
    destruct key as [id| | |]; try discriminate.
    destruct (String.eqb_spec (id_Name id) sel) as [Heq|Hne].
    + injection H as <-. destruct Hin as [<-|[]].
      split; [reflexivity|].
      exists id, v. repeat split; [left; reflexivity | exact Heq].
    + destruct (IH H Hin) as [Hs [id' [v' [Hin' [Hname Hn]]]]].
      split; [exact Hs|].
      exists id', v'. repeat split; [right; exact Hin' | exact Hname | exact Hn].
Qed.

Lemma scanPositional_sound fields sel elts i sent n :
  scanPositional fields sel elts i = Ok sent -> In n sent ->
  sent = [n]
  /\ exists elt, In elt elts /\ n = node_of elt /\ In sel (map fst fields).
Proof.
  revert i. induction elts as [|elt elts IH]; simpl; intros i H Hin.
  - injection H as <-. contradiction.
  - unfold index in H. destruct (nth_error fields i) as [field|] eqn:Hf;
      [|discriminate].
    cbn [bind] in H.
    destruct (String.eqb_spec (fst field) sel) as [Heq|Hne].
    + injection H as <-. destruct Hin as [<-|[]].
      split; [reflexivity|].
      exists elt. repeat split; [left; reflexivity|].
      rewrite <- Heq. apply in_map. eapply nth_error_In; exact Hf.
    + destruct (IH (S i) H Hin) as [Hs [elt' [Hin' [Hn Hsel]]]].
      split; [exact Hs|].
      exists elt'. repeat split; [right; exact Hin' | exact Hn | exact Hsel].
Qed.

(** What the loop over [pi.Types] sends for an entry: one node of a
    composite literal whose type matches and is a struct. *)
Lemma scanTypeExpr_sound q entry sent n :
  scanTypeExpr q entry = Ok sent -> In n sent ->
  sent = [n]
  /\ exists lit elts fields,
       fst entry = ECompositeLit lit elts
       /\ fieldMatches q (snd entry) (selName q) = true
       /\ Underlying (snd entry) = TStruct fields
       /\ ((exists id v, In (EKeyValue (EIdent id) v) elts
                         /\ id_Name id = selName q /\ n = id_node id)
           \/ (exists elt, In elt elts /\ n = node_of elt
                           /\ In (selName q) (map fst fields))).
Proof.
  destruct entry as [expr typ]. unfold scanTypeExpr. intros H Hin.
  destruct expr as [| | lit elts |];
    try (injection H as <-; contradiction).
  destruct elts as [|elt0 elts]; [injection H as <-; contradiction|].
  destruct (fieldMatches q typ (selName q)) eqn:Hm; cbn [negb] in H; cbv iota in H;
    [|injection H as <-; contradiction].
  destruct (Underlying typ) as [| | fields |] eqn:Hu;
    try (injection H as <-; contradiction).
  destruct (is_KeyValue elt0).
  - destruct (scanKeyed_sound _ _ _ _ H Hin) as [Hs Hk].
    split; [exact Hs|]. exists lit, (elt0 :: elts), fields.
    repeat split; try reflexivity; try assumption. left. exact Hk.
  - destruct (scanPositional_sound _ _ _ _ _ _ H Hin) as [Hs Hp].
    split; [exact Hs|]. exists lit, (elt0 :: elts), fields.
    repeat split; try reflexivity; try assumption. right. exact Hp.
Qed.

Lemma scanPackage_Ok_inv q pi out :
  scanPackage q pi = Ok out ->
  exists sels lits,
    rangeOver (scanSelection q) (Selections pi) = Ok sels
    /\ (if negb (selName q =? "")%string
        then rangeOver (scanTypeExpr q) (Types pi) else Ok []) = Ok lits
    /\ out = sels ++ flat_map (scanUse q) (Uses pi)
                  ++ flat_map (scanDef q) (Defs pi) ++ lits.
Proof.
  unfold scanPackage. rewrite !rangeOver_pure. intros H.
  destruct (rangeOver (scanSelection q) (Selections pi)) as [sels|];
    [|discriminate].
  cbn [bind] in H.
  destruct (if negb (selName q =? "")%string
            then rangeOver (scanTypeExpr q) (Types pi) else Ok []) as [lits|];
    [|discriminate].
  cbn [bind] in H. injection H as <-.
  exists sels, lits. repeat split.
Qed.

(** X2.  Every node a package sends is accounted for: it is the [Sel]
    identifier of a selection whose receiver matches with the member's
    name; or the identifier of a use that is not a type name and is either
    a function named [objName] of a package with path [pkgPath] or of a
    matching type; or the identifier of a definition with an object of a
    matching type; or, for a non-empty [selName], a key identifier named
    [selName] or a positional element of a composite literal whose type
    matches and is a struct with a field named [selName]. *)
Theorem scanPackage_sound (q : Query) (pi : PackageInfo) (out : list Node) (n : Node) :
  scanPackage q pi = Ok out ->
  In n out ->
  (exists expr sel,
     In (expr, sel) (Selections pi) /\ n = id_node (sx_Sel expr)
     /\ fieldMatches q (sel_Recv sel) (obj_Name (sel_Obj sel)) = true)
  \/ (exists ident obj,
        In (ident, obj) (Uses pi) /\ n = id_node ident
        /\ obj_kind obj <> KTypeName
        /\ ((obj_kind obj = KFunc /\ funcNamed q obj = true)
            \/ fieldMatches q (obj_Type obj) "" = true))
  \/ (exists ident obj,
        In (ident, Some obj) (Defs pi) /\ n = id_node ident
        /\ fieldMatches q (obj_Type obj) "" = true)
  \/ (selName q <> ""
      /\ exists lit elts typ fields,
           In (ECompositeLit lit elts, typ) (Types pi)
           /\ fieldMatches q typ (selName q) = true
           /\ Underlying typ = TStruct fields
           /\ ((exists id v, In (EKeyValue (EIdent id) v) elts
                             /\ id_Name id = selName q /\ n = id_node id)
               \/ (exists elt, In elt elts /\ n = node_of elt
                               /\ In (selName q) (map fst fields)))).
Proof.
  intros H Hin.
  destruct (scanPackage_Ok_inv q pi out H) as [sels [lits [Hsels [Hlits ->]]]].
  apply in_app_or in Hin as [Hin|Hin].
  { left. destruct (rangeOver_In _ _ _ _ Hsels Hin)
      as [[expr sel] [sent [He [Hb Hn]]]].
    exists expr, sel. unfold scanSelection in Hb.
    destruct (obj_kind (sel_Obj sel)); try discriminate;
      destruct (fieldMatches q (sel_Recv sel) (obj_Name (sel_Obj sel))) eqn:Hm;
      injection Hb as <-; try contradiction;
      destruct Hn as [<-|[]]; repeat split; assumption. }
  apply in_app_or in Hin as [Hin|Hin].
  { right; left. apply in_flat_map in Hin as [[ident obj] [He Hn]].
    exists ident, obj. unfold scanUse in Hn.
    destruct (obj_kind obj) eqn:Hk; try contradiction;
      try (destruct (fieldMatches q (obj_Type obj) "") eqn:Hm;
           [destruct Hn as [<-|[]]; repeat split; auto; discriminate
           | contradiction]).
    destruct (funcNamed q obj) eqn:Hf.
    - destruct Hn as [<-|[]]. repeat split; auto; discriminate.
    - destruct (fieldMatches q (obj_Type obj) "") eqn:Hm; [|contradiction].
      destruct Hn as [<-|[]]. repeat split; auto; discriminate. }
  apply in_app_or in Hin as [Hin|Hin].
  { right; right; left. apply in_flat_map in Hin as [[ident o] [He Hn]].
    unfold scanDef in Hn. destruct o as [obj|]; [|contradiction].
    destruct (fieldMatches q (obj_Type obj) "") eqn:Hm; [|contradiction].
    destruct Hn as [<-|[]]. exists ident, obj. repeat split; assumption. }
  right; right; right.
  destruct (String.eqb_spec (selName q) "") as [Hempty|Hne]; simpl in Hlits.
  - injection Hlits as <-. contradiction.
  - split; [exact Hne|].
    destruct (rangeOver_In _ _ _ _ Hlits Hin) as [[expr typ] [sent [He [Hb Hn]]]].
    destruct (scanTypeExpr_sound q (expr, typ) sent n Hb Hn)
      as [_ [lit [elts [fields [Hexpr [Hm [Hu Hcase]]]]]]].
    simpl in Hexpr, Hm, Hu. subst expr.
    exists lit, elts, typ, fields. repeat split; assumption.
Qed.

Lemma scanPackage_sound_witness :
  (exists ident obj,
     In (ident, obj) (Uses Demo.goodPkg) /\ mkNode 21 22 = id_node ident
     /\ obj_kind obj <> KTypeName
     /\ ((obj_kind obj = KFunc /\ funcNamed Demo.qClient obj = true)
         \/ fieldMatches Demo.qClient (obj_Type obj) "" = true)).
Proof.
  destruct (scanPackage_sound Demo.qClient Demo.goodPkg
              [mkNode 110 111; mkNode 21 22; mkNode 5 6] (mkNode 21 22)
              eq_refl (or_intror (or_introl eq_refl)))
    as [H|[H|[H|H]]].
  - exfalso. destruct H as [expr [sel [[] _]]].
  - exact H.
  - exfalso. destruct H as [ident [obj [Hin [Hn _]]]].
    simpl in Hin. destruct Hin as [Hin|[Hin|[]]]; [|discriminate].
    injection Hin as <- _. discriminate.
  - exfalso. destruct H as [Hne _]. apply Hne. reflexivity.
Defined.

Lemma rangeOver_entry_Ok {A : Type} (body : A -> Res (list Node)) plane out entry :
  rangeOver body plane = Ok out -> In entry plane ->
  exists sent, body entry = Ok sent.
Proof.
  intros H Hin. destruct (rangeOver_Ok_inv body plane out H) as [sends [Hall _]].
  clear H. induction Hall as [|e s plane sends He Hall IH]; [contradiction|].
  destruct Hin as [->|Hin]; [exists s; exact He | apply IH; exact Hin].
Qed.

(** X3.  No match of the first three planes is missed: when the scan of
    a package ends without panic, the [Sel] identifier of every selection
    whose receiver matches with the member's name is sent, and so is the
    identifier of every use that is not a type name and is a function
    named [objName] of a package with path [pkgPath] or has a matching
    type, and the identifier of every definition whose object has a
    matching type. *)
Theorem scanPackage_complete (q : Query) (pi : PackageInfo) (out : list Node) :
  scanPackage q pi = Ok out ->
  (forall expr sel,
     In (expr, sel) (Selections pi) ->
     fieldMatches q (sel_Recv sel) (obj_Name (sel_Obj sel)) = true ->
     In (id_node (sx_Sel expr)) out)
  /\ (forall ident obj,
        In (ident, obj) (Uses pi) ->
        obj_kind obj <> KTypeName ->
        (obj_kind obj = KFunc /\ funcNamed q obj = true)
        \/ fieldMatches q (obj_Type obj) "" = true ->
        In (id_node ident) out)
  /\ (forall ident obj,
        In (ident, Some obj) (Defs pi) ->
        fieldMatches q (obj_Type obj) "" = true ->
        In (id_node ident) out).
Proof.
  intros H.
  destruct (scanPackage_Ok_inv q pi out H) as [sels [lits [Hsels [Hlits ->]]]].
  split; [|split].
  - intros expr sel Hin Hm. apply in_or_app. left.
    destruct (rangeOver_entry_Ok _ _ _ _ Hsels Hin) as [sent Hb].
    apply (rangeOver_incl _ _ _ _ sent Hsels Hin Hb).
    unfold scanSelection in Hb. rewrite Hm in Hb.
    destruct (obj_kind (sel_Obj sel)); try discriminate;
      injection Hb as <-; left; reflexivity.
  - intros ident obj Hin Hk Hm. apply in_or_app. right.
    apply in_or_app. left. apply in_flat_map.
    exists (ident, obj). split; [exact Hin|]. unfold scanUse.
    destruct Hm as [[Hf Hn]|Hm].
    + rewrite Hf, Hn. left; reflexivity.
    + rewrite Hm. destruct (obj_kind obj); try congruence;
        try (left; reflexivity).
      destruct (funcNamed q obj); left; reflexivity.
  - intros ident obj Hin Hm. apply in_or_app. right.
    apply in_or_app. right. apply in_or_app. left. apply in_flat_map.
    exists (ident, Some obj). split; [exact Hin|].
    unfold scanDef. rewrite Hm. left; reflexivity.
Qed.

Lemma scanPackage_complete_witness :
  In (mkNode 5 6) [mkNode 110 111; mkNode 21 22; mkNode 5 6].
Proof.
  apply (proj2 (proj2 (scanPackage_complete Demo.qClient Demo.goodPkg
                         [mkNode 110 111; mkNode 21 22; mkNode 5 6] eq_refl))
           (Demo.ident 5 "c") Demo.clientVar).
  - left; reflexivity.
  - reflexivity.
Defined.

Lemma scanUse_length q entry : length (scanUse q entry) <= 1.
Proof.
  destruct entry as [ident obj]. unfold scanUse.
  destruct (obj_kind obj); simpl; try lia;
    try (destruct (fieldMatches q (obj_Type obj) ""); simpl; lia).
  destruct (funcNamed q obj); simpl; [lia|].
  destruct (fieldMatches q (obj_Type obj) ""); simpl; lia.
Qed.

Lemma scanDef_length q entry : length (scanDef q entry) <= 1.
Proof.
  destruct entry as [ident [obj|]]; simpl; [|lia].
  destruct (fieldMatches q (obj_Type obj) ""); simpl; lia.
Qed.

Lemma flat_map_length_le {A : Type} (f : A -> list Node) l :
  (forall a, length (f a) <= 1) -> length (flat_map f l) <= length l.
Proof.
  intros Hf. induction l as [|a l IH]; simpl; [lia|].
  rewrite length_app. specialize (Hf a). lia.
Qed.

Lemma scanKeyed_length sel elts sent :
  scanKeyed sel elts = Ok sent -> length sent <= 1.
Proof.
  induction elts as [|elt elts IH]; simpl; intros H.
  - injection H as <-. simpl. lia.
  - destruct elt as [| key v | |]; try discriminate.
    destruct key as [id| | |]; try discriminate.
    destruct (id_Name id =? sel)%string; [injection H as <-; simpl; lia|].
    apply IH. exact H.
Qed.

Lemma scanPositional_length fields sel elts i sent :
  scanPositional fields sel elts i = Ok sent -> length sent <= 1.
Proof.
  revert i. induction elts as [|elt elts IH]; simpl; intros i H.
  - injection H as <-. simpl. lia.
  - destruct (index fields i) as [field|]; [|discriminate]. cbn [bind] in H.
    destruct (fst field =? sel)%string; [injection H as <-; simpl; lia|].
    apply (IH (S i)). exact H.
Qed.

Lemma scanTypeExpr_length q entry sent :
  scanTypeExpr q entry = Ok sent -> length sent <= 1.
Proof.
  destruct entry as [expr typ]. unfold scanTypeExpr. intros H.
  destruct expr as [| | lit elts |];
    try (injection H as <-; simpl; lia).
  destruct elts as [|elt0 elts]; [injection H as <-; simpl; lia|].
  destruct (negb (fieldMatches q typ (selName q)));
    [injection H as <-; simpl; lia|].
  destruct (Underlying typ) as [| | fields |];
    try (injection H as <-; simpl; lia).
  destruct (is_KeyValue elt0).
  - eapply scanKeyed_length. exact H.
  - eapply scanPositional_length. exact H.
Qed.

(** X4.  No entry of a plane is reported twice by its scanner, and a
    composite literal gives at most one Match: a package sends at most as
    many nodes as its four planes have entries, and the loop over
    [pi.Types] sends at most one node for each expression. *)
Theorem scanPackage_sends_one_per_entry (q : Query) (pi : PackageInfo) (out : list Node) :
  scanPackage q pi = Ok out ->
  length out <= length (Selections pi) + length (Uses pi)
                + length (Defs pi) + length (Types pi)
  /\ (forall entry sent, scanTypeExpr q entry = Ok sent -> length sent <= 1).
Proof.
  intros H. split; [|apply scanTypeExpr_length].
  destruct (scanPackage_Ok_inv q pi out H) as [sels [lits [Hsels [Hlits ->]]]].
  rewrite !length_app.
  assert (H1 : length sels <= length (Selections pi)).
  { apply (rangeOver_length (scanSelection q)); [|exact Hsels].
    intros [expr sel] sent Hb. unfold scanSelection in Hb.
    destruct (obj_kind (sel_Obj sel)); try discriminate;
      destruct (fieldMatches q (sel_Recv sel) (obj_Name (sel_Obj sel)));
      injection Hb as <-; simpl; lia. }
  assert (H2 : length (flat_map (scanUse q) (Uses pi)) <= length (Uses pi))
    by (apply flat_map_length_le, scanUse_length).
  assert (H3 : length (flat_map (scanDef q) (Defs pi)) <= length (Defs pi))
    by (apply flat_map_length_le, scanDef_length).
  assert (H4 : length lits <= length (Types pi)).
  { destruct (negb (selName q =? "")%string).
    - apply (rangeOver_length (scanTypeExpr q)); [|exact Hlits].
      apply scanTypeExpr_length.
    - injection Hlits as <-. simpl. lia. }
  lia.
Qed.

Lemma scanPackage_sends_one_per_entry_witness :
  length [mkNode 110 111; mkNode 21 22; mkNode 5 6]
  <= length (Selections Demo.goodPkg) + length (Uses Demo.goodPkg)
     + length (Defs Demo.goodPkg) + length (Types Demo.goodPkg).
Proof.
  exact (proj1 (scanPackage_sends_one_per_entry Demo.qClient Demo.goodPkg
                  [mkNode 110 111; mkNode 21 22; mkNode 5 6] eq_refl)).
Defined.

Lemma fieldMatches_selector_gate q typ sel :
  sel <> selName q -> fieldMatches q typ sel = false.
Proof.
  intros Hne. unfold fieldMatches.
  destruct (String.eqb_spec sel (selName q)); [contradiction | reflexivity].
Qed.

(** X5.  A query without selector reports identifiers of uses and
    definitions only: the composite literals of the package are not looked
    at, whatever they are, and when every selected member has a non-empty
    name and is a variable or a function, no selection is sent either. *)
Theorem query_without_selector_scans_uses_and_defs (q : Query) (pi : PackageInfo) :
  selName q = "" ->
  (forall types, scanPackage q (withTypes pi types) = scanPackage q pi)
  /\ (Forall (fun entry => isVarOrFunc (sel_Obj (snd entry)) = true
                           /\ obj_Name (sel_Obj (snd entry)) <> "")
             (Selections pi) ->
      scanPackage q pi
      = Ok (flat_map (scanUse q) (Uses pi) ++ flat_map (scanDef q) (Defs pi))).
Proof.
  intros Hsel. split.
  - intros types. unfold scanPackage, withTypes. cbn [Selections Uses Defs Types].
    rewrite Hsel. reflexivity.
  - intros Hall. unfold scanPackage. rewrite !rangeOver_pure, Hsel.
    cbn [String.eqb negb bind].
    assert (Hs : rangeOver (scanSelection q) (Selections pi) = Ok []).
    { induction Hall as [|[expr sel] plane [Hk Hn] Hall IH]; [reflexivity|].
      rewrite rangeOver_cons, IH. unfold scanSelection.
      cbn [snd] in Hk, Hn. unfold isVarOrFunc in Hk.
      rewrite fieldMatches_selector_gate by congruence.
      destruct (obj_kind (sel_Obj sel)); try discriminate; reflexivity. }
    rewrite Hs. cbn [bind app]. rewrite app_nil_r. reflexivity.
Qed.

Lemma query_without_selector_scans_uses_and_defs_witness :
  scanPackage Demo.qClient
    (withTypes Demo.goodPkg
       [(ECompositeLit (mkNode 200 230) [EKeyValue (EOther (mkNode 201 202))
                                                   (EOther (mkNode 204 205))],
         Demo.ClientType)])
  = scanPackage Demo.qClient Demo.goodPkg
  /\ scanPackage Demo.qClient Demo.goodPkg
     = Ok [mkNode 110 111; mkNode 21 22; mkNode 5 6].
Proof.
  split.
  - exact (proj1 (query_without_selector_scans_uses_and_defs
                    Demo.qClient Demo.goodPkg eq_refl) _).
  - exact (proj2 (query_without_selector_scans_uses_and_defs
                    Demo.qClient Demo.goodPkg eq_refl) (Forall_nil _)).
Defined.

Lemma scanKeyed_find sel kvs :
  scanKeyed sel (map keyed kvs)
  = Ok match find (fun kv => id_Name (fst kv) =? sel)%string kvs with
       | Some kv => [id_node (fst kv)]
       | None => []
       end.
Proof.
  induction kvs as [|[id v] kvs IH]; simpl; [reflexivity|].
  destruct (id_Name id =? sel)%string; [reflexivity | exact IH].
Qed.

(** X6.  For a keyed composite literal ([key: value] elements with
    identifier keys) whose type matches and is a struct, the scanner sends
    the key identifier, not the value, of the first element whose key is
    named [selName], and nothing when no key has that name; the declared
    fields are not consulted. *)
Theorem keyed_literal_sends_first_named_key
    (q : Query) (lit : Node) (kvs : list (Ident * Expr)) (typ : GoType)
    (fields : list (string * GoType)) :
  kvs <> [] ->
  fieldMatches q typ (selName q) = true ->
  Underlying typ = TStruct fields ->
  scanTypeExpr q (ECompositeLit lit (map keyed kvs), typ)
  = Ok match find (fun kv => id_Name (fst kv) =? selName q)%string kvs with
       | Some kv => [id_node (fst kv)]
       | None => []
       end.
Proof.
  intros Hne Hm Hu. unfold scanTypeExpr.
  destruct kvs as [|kv kvs]; [congruence|].
  cbn [map]. rewrite Hm, Hu. cbn [negb keyed is_KeyValue].
  exact (scanKeyed_find (selName q) (kv :: kvs)).
Qed.

Lemma keyed_literal_sends_first_named_key_witness :
  scanTypeExpr Demo.qClientJar
    (ECompositeLit (mkNode 200 240)
       (map keyed [(Demo.ident 208 "Transport", EOther (mkNode 219 220));
                   (Demo.ident 222 "Jar", EOther (mkNode 227 230))]),
     Demo.ClientType)
  = Ok [mkNode 222 225].
Proof.
  apply (keyed_literal_sends_first_named_key Demo.qClientJar (mkNode 200 240)
           [(Demo.ident 208 "Transport", EOther (mkNode 219 220));
            (Demo.ident 222 "Jar", EOther (mkNode 227 230))]
           Demo.ClientType [("Transport", TOther); ("Jar", TOther)]).
  - discriminate.
  - reflexivity.
  - reflexivity.
Defined.

(** X7.  A query with a selector reports no definition, and of the uses
    only the identifiers bound to a function or method named [objName] of
    a package with path [pkgPath], in visiting order. *)
Theorem query_with_selector_uses_and_defs
    (q : Query) (uses : list (Ident * Object)) (defs : list (Ident * option Object)) :
  selName q <> "" ->
  flat_map (scanDef q) defs = []
  /\ flat_map (scanUse q) uses
     = map (fun entry => id_node (fst entry)) (filter (callableNamed q) uses).
Proof.
  intros Hsel.
  assert (Hgate : forall typ, fieldMatches q typ "" = false)
    by (intros typ; apply fieldMatches_selector_gate; congruence).
  split.
  - induction defs as [|[ident [obj|]] defs IH]; simpl; try exact IH.
    + reflexivity.
    + rewrite Hgate. exact IH.
  - induction uses as [|[ident obj] uses IH]; [reflexivity|].
    cbn [flat_map filter]. rewrite IH.
    unfold scanUse, callableNamed. cbn [snd fst].
    destruct (obj_kind obj); rewrite ?Hgate; try reflexivity.
    destruct (funcNamed q obj); reflexivity.
Qed.

Lemma query_with_selector_uses_and_defs_witness :
  flat_map (scanDef Demo.qGet) (Defs Demo.goodPkg) = []
  /\ flat_map (scanUse Demo.qGet)
       ((Demo.ident 60 "Get", Demo.GetFunc) :: Uses Demo.goodPkg)
     = [mkNode 60 63].
Proof.
  apply (query_with_selector_uses_and_defs Demo.qGet
           ((Demo.ident 60 "Get", Demo.GetFunc) :: Uses Demo.goodPkg)
           (Defs Demo.goodPkg)).
  discriminate.
Defined.

(* ================================================================== *)
(** * Further properties of [result]: [Len], [Less], [Swap] *)

Lemma Less_in_range r i j a b :
  nth_error (nodes r) i = Some a -> nth_error (nodes r) j = Some b ->
  Less r i j = Ok (lessNodes (fset r) a b).
Proof.
  intros Hi Hj. unfold Less, index. rewrite Hi, Hj. reflexivity.
Qed.

Lemma nth_error_in_range {A : Type} (l : list A) i :
  i < length l -> exists a, nth_error l i = Some a.
Proof.
  intros Hi. destruct (nth_error l i) as [a|] eqn:H; [exists a; reflexivity|].
  apply nth_error_None in H. lia.
Qed.

(** X8.  On the indices of the slice, [Less] is an order as [sort.Sort]
    needs it: no node is less than itself; [Less] is asymmetric and
    transitive; and "not less" is transitive too, so that nodes neither of
    which is less than the other (same file, same offset) are
    interchangeable in the order. *)
Theorem Less_is_strict_weak_order (r : result) (i j k : nat) :
  i < Len r -> j < Len r -> k < Len r ->
  Less r i i = Ok false
  /\ (Less r i j = Ok true -> Less r j i = Ok false)
  /\ (Less r i j = Ok true -> Less r j k = Ok true -> Less r i k = Ok true)
  /\ (Less r i j = Ok false -> Less r j k = Ok false -> Less r i k = Ok false).
Proof.
  unfold Len. intros Hi Hj Hk.
  destruct (nth_error_in_range _ _ Hi) as [a Ha].
  destruct (nth_error_in_range _ _ Hj) as [b Hb].
  destruct (nth_error_in_range _ _ Hk) as [c Hc].
  rewrite (Less_in_range r i i a a Ha Ha), (Less_in_range r i j a b Ha Hb),
    (Less_in_range r j i b a Hb Ha), (Less_in_range r j k b c Hb Hc),
    (Less_in_range r i k a c Ha Hc).
  split; [|split; [|split]].
  - f_equal. apply lessNodes_irrefl.
  - intros [= H]. f_equal. apply lessNodes_asym. exact H.
  - intros [= H1] [= H2]. f_equal. eapply lessNodes_trans; eassumption.
  - intros [= H1] [= H2]. f_equal.
    exact (notAfter_trans (fset r) c b a H2 H1).
Qed.

Lemma Less_is_strict_weak_order_witness :
  Less (mkResult Demo.twoFiles [mkNode 1005 1008; mkNode 900 903; mkNode 21 22]) 1 1
  = Ok false.
Proof.
  refine (proj1 (Less_is_strict_weak_order
                   (mkResult Demo.twoFiles
                      [mkNode 1005 1008; mkNode 900 903; mkNode 21 22])
                   1 0 2 _ _ _)); unfold Len; simpl; lia.
Defined.

Lemma store_length l i x : length (store l i x) = length l.
Proof.
  revert i. induction l as [|y l IH]; intros [|i]; simpl; auto.
Qed.

Lemma store_nth_same l i x :
  i < length l -> nth_error (store l i x) i = Some x.
Proof.
  revert i. induction l as [|y l IH]; intros [|i] Hi; simpl in *; try lia.
  - reflexivity.
  - apply IH. lia.
Qed.

Lemma store_nth_other l i x k :
  k <> i -> nth_error (store l i x) k = nth_error l k.
Proof.
  revert i k. induction l as [|y l IH]; intros [|i] [|k] Hk; simpl;
    try reflexivity; try congruence.
  apply IH. congruence.
Qed.

(** Lists of one length that agree at every index are equal. *)
Lemma nth_error_ext_eq {A : Type} (l l' : list A) :
  (forall k, nth_error l k = nth_error l' k) -> l = l'.
Proof.
  revert l'. induction l as [|a l IH]; intros [|a' l'] H.
  - reflexivity.
  - specialize (H 0). discriminate.
  - specialize (H 0). discriminate.
  - pose proof (H 0) as H0. simpl in H0. injection H0 as <-.
    f_equal. apply IH. intros k. exact (H (S k)).
Qed.

Lemma Swap_nodes r i j a b :
  nth_error (nodes r) i = Some a -> nth_error (nodes r) j = Some b ->
  Swap r i j = Ok (mkResult (fset r) (store (store (nodes r) i b) j a)).
Proof.
  intros Hi Hj. unfold Swap, index. rewrite Hi, Hj. reflexivity.
Qed.

(** Exchanging two elements permutes the list. *)
Lemma store_swap_perm l i j a b :
  nth_error l i = Some a -> nth_error l j = Some b ->
  Permutation l (store (store l i b) j a).
Proof.
  revert i j. induction l as [|x l IH]; intros i j Hi Hj.
  - destruct i; discriminate.
  - destruct i as [|i], j as [|j]; simpl in *.
    + injection Hi as ->. injection Hj as ->. apply Permutation_refl.
    + injection Hi as ->.
      (* x goes to position j of the tail, b comes to the front *)
      clear IH. revert j Hj. induction l as [|y l IHl]; intros j Hj.
      * destruct j; discriminate.
      * destruct j as [|j]; simpl in *.
        -- injection Hj as ->. apply perm_swap.
        -- eapply Permutation_trans; [apply perm_swap|].
           eapply Permutation_trans; [apply perm_skip, (IHl j Hj)|].
           apply perm_swap.
    + injection Hj as ->.
      clear IH. revert i Hi. induction l as [|y l IHl]; intros i Hi.
      * destruct i; discriminate.
      * destruct i as [|i]; simpl in *.
        -- injection Hi as ->. apply perm_swap.
        -- eapply Permutation_trans; [apply perm_swap|].
           eapply Permutation_trans; [apply perm_skip, (IHl i Hi)|].
           apply perm_swap.
    + apply perm_skip. apply IH; assumption.
Qed.

(** X9.  [Swap(i, j)] on indices of the slice exchanges the two nodes
    and nothing else: the file set and the length are kept, the node at
    [i] is the former node at [j] and conversely, every other index keeps
    its node, the nodes are permuted, and swapping again restores the
    slice. *)
Theorem Swap_exchanges (r : result) (i j : nat) :
  i < Len r -> j < Len r ->
  exists r',
    Swap r i j = Ok r'
    /\ fset r' = fset r
    /\ Len r' = Len r
    /\ nth_error (nodes r') i = nth_error (nodes r) j
    /\ nth_error (nodes r') j = nth_error (nodes r) i
    /\ (forall k, k <> i -> k <> j ->
                  nth_error (nodes r') k = nth_error (nodes r) k)
    /\ Permutation (nodes r) (nodes r')
    /\ Swap r' i j = Ok r.
Proof.
  unfold Len. intros Hi Hj.
  destruct (nth_error_in_range _ _ Hi) as [a Ha].
  destruct (nth_error_in_range _ _ Hj) as [b Hb].
  set (l' := store (store (nodes r) i b) j a).
  assert (Hlen : length l' = length (nodes r))
    by (unfold l'; rewrite !store_length; reflexivity).
  assert (Hati : nth_error l' i = Some b).
  { unfold l'. destruct (Nat.eq_dec i j) as [->|Hne].
    - rewrite store_nth_same by (rewrite store_length; exact Hj). congruence.
    - rewrite store_nth_other by exact Hne. apply store_nth_same. exact Hi. }
  assert (Hatj : nth_error l' j = Some a).
  { unfold l'. apply store_nth_same. rewrite store_length. exact Hj. }
  assert (Hother : forall k, k <> i -> k <> j -> nth_error l' k = nth_error (nodes r) k).
  { intros k Hki Hkj. unfold l'. rewrite !store_nth_other by assumption.
    reflexivity. }
  exists (mkResult (fset r) l'). cbn [fset nodes].
  split; [exact (Swap_nodes r i j a b Ha Hb)|].
  split; [reflexivity|]. split; [exact Hlen|].
  split; [congruence|]. split; [congruence|].
  split; [exact Hother|].
  split; [exact (store_swap_perm _ _ _ _ _ Ha Hb)|].
  rewrite (Swap_nodes (mkResult (fset r) l') i j b a Hati Hatj).
  cbn [fset nodes]. destruct r as [fs l]. cbn [fset nodes] in *. f_equal. f_equal.
  apply nth_error_ext_eq. intros k.
  destruct (Nat.eq_dec k j) as [->|Hkj].
  - rewrite store_nth_same by (rewrite store_length, Hlen; exact Hj). congruence.
  - rewrite store_nth_other by exact Hkj.
    destruct (Nat.eq_dec k i) as [->|Hki].
    + rewrite store_nth_same by (rewrite Hlen; exact Hi). congruence.
    + rewrite store_nth_other by exact Hki. apply Hother; assumption.
Qed.

Lemma Swap_exchanges_witness :
  exists r',
    Swap (mkResult Demo.oneFile [mkNode 30 36; mkNode 21 22; mkNode 5 6]) 0 2
    = Ok r'
    /\ nodes r' = [mkNode 5 6; mkNode 21 22; mkNode 30 36].
Proof.
  destruct (Swap_exchanges
              (mkResult Demo.oneFile [mkNode 30 36; mkNode 21 22; mkNode 5 6]) 0 2)
    as [r' [Hswap _]]; [unfold Len; simpl; lia | unfold Len; simpl; lia |].
  exists r'. split; [exact Hswap|].
  simpl in Hswap. injection Hswap as <-. reflexivity.
Defined.

Lemma Less_Swap_out_of_range r i j :
  Len r <= i \/ Len r <= j ->
  Less r i j = Panic "index out of range"
  /\ Swap r i j = Panic "index out of range".
Proof.
  unfold Len, Less, Swap. intros Hout.
  destruct (Nat.lt_ge_cases i (length (nodes r))) as [Hi|Hi].
  - destruct Hout as [Hout|Hj]; [lia|].
    destruct (nth_error_in_range _ _ Hi) as [a Ha].
    rewrite (index_nth _ i a Hi), (index_out_of_range _ j Hj). split; reflexivity.
  - rewrite (index_out_of_range _ i Hi). split; reflexivity.
Qed.

(** X10.  [Less(i, j)] and [Swap(i, j)] index the slice unchecked: each
    returns exactly when both indices are below [Len], and panics with an
    index out of range otherwise. *)
Theorem Less_Swap_bounds (r : result) (i j : nat) :
  ((exists b, Less r i j = Ok b) <-> (i < Len r /\ j < Len r))
  /\ ((exists r', Swap r i j = Ok r') <-> (i < Len r /\ j < Len r))
  /\ (Len r <= i \/ Len r <= j ->
      Less r i j = Panic "index out of range"
      /\ Swap r i j = Panic "index out of range").
Proof.
  assert (Hin : i < Len r /\ j < Len r ->
                (exists b, Less r i j = Ok b) /\ (exists r', Swap r i j = Ok r')).
  { unfold Len. intros [Hi Hj].
    destruct (nth_error_in_range _ _ Hi) as [a Ha].
    destruct (nth_error_in_range _ _ Hj) as [b Hb].
    rewrite (Less_in_range r i j a b Ha Hb), (Swap_nodes r i j a b Ha Hb).
    split; eexists; reflexivity. }
  assert (Hout : ~ (i < Len r /\ j < Len r) ->
                 Less r i j = Panic "index out of range"
                 /\ Swap r i j = Panic "index out of range").
  { intros Hn. apply Less_Swap_out_of_range. lia. }
  split; [|split].
  - split; [|intros H; apply Hin; exact H].
    intros [b Hb].
    destruct (Nat.lt_ge_cases i (Len r)) as [Hi|Hi];
      destruct (Nat.lt_ge_cases j (Len r)) as [Hj|Hj];
      try (split; assumption);
      destruct Hout as [Hl _]; try lia; congruence.
  - split; [|intros H; apply Hin; exact H].
    intros [r' Hr'].
    destruct (Nat.lt_ge_cases i (Len r)) as [Hi|Hi];
      destruct (Nat.lt_ge_cases j (Len r)) as [Hj|Hj];
      try (split; assumption);
      destruct Hout as [_ Hs]; try lia; congruence.
  - apply Less_Swap_out_of_range.
Qed.

Lemma Less_Swap_bounds_witness :
  Less (mkResult Demo.oneFile [mkNode 30 36; mkNode 21 22]) 0 2
  = Panic "index out of range"
  /\ Swap (mkResult Demo.oneFile [mkNode 30 36; mkNode 21 22]) 0 2
     = Panic "index out of range".
Proof.
  apply (proj2 (proj2 (Less_Swap_bounds
                         (mkResult Demo.oneFile [mkNode 30 36; mkNode 21 22]) 0 2))).
  right. unfold Len. simpl. lia.
Defined.

(* ================================================================== *)
(** * Further properties of the grouping loop *)

(** One more node either extends the last record, which is for its line,
    or starts a record behind a last record for another line. *)
Lemma groupNodes_snoc_cases fs l n :
  (exists before r,
     groupNodes fs l = before ++ [r]
     /\ Display.filename r = Filename (fs (Pos n))
     /\ Display.line r = Line (fs (Pos n))
     /\ groupNodes fs (l ++ [n])
        = before ++ [appendHighlight (highlightOf fs n) r])
  \/ (groupNodes fs (l ++ [n]) = groupNodes fs l ++ [recordOf fs n]
      /\ forall before r,
           groupNodes fs l = before ++ [r] ->
           ~ (Display.filename r = Filename (fs (Pos n))
              /\ Display.line r = Line (fs (Pos n)))).
Proof.
  destruct l as [|m l] using rev_ind.
  - right. split; [reflexivity|].
    intros before r H. destruct before; discriminate.
  - clear IHl. unfold groupNodes.
    destruct (run_curr fs l m) as [before [r [Hres [Hcur _]]]].
    rewrite (run_snoc fs (l ++ [m]) n). unfold groupStep; cbv zeta.
    rewrite Hcur, Hres.
    rewrite nth_error_app2, Nat.sub_diag by lia. cbn [nth_error]. cbv iota.
    destruct ((Filename (fs (Pos n)) =? Display.filename r)%string
              && (Line (fs (Pos n)) =? Display.line r)%Z) eqn:Hsame.
    + left. apply andb_true_iff in Hsame as [Hf Hl].
      apply String.eqb_eq in Hf. apply Z.eqb_eq in Hl.
      exists before, r. cbn [results]. rewrite updateAt_last.
      repeat split; congruence.
    + right. cbn [results]. split; [reflexivity|].
      intros before' r' Heq [Hf Hl].
      apply app_inj_tail in Heq as [_ <-].
      rewrite Hf, Hl, String.eqb_refl, Z.eqb_refl in Hsame. discriminate.
Qed.

(** X11.  Grouping loses nothing and invents nothing: the highlights of
    the display records, read record after record, are the highlights of
    the nodes, one for each node and in the order of the nodes. *)
Theorem grouping_keeps_every_highlight (fs : FileSet) (sorted : list Node) :
  flat_map Display.highlights (groupNodes fs sorted)
  = map (highlightOf fs) sorted.
Proof.
  induction sorted as [|n l IH] using rev_ind; [reflexivity|].
  rewrite map_app. cbn [map].
  destruct (groupNodes_snoc_cases fs l n)
    as [[before [r [Hl [_ [_ Hsnoc]]]]]|[Hsnoc _]]; rewrite Hsnoc.
  - rewrite Hl in IH. rewrite !flat_map_app in *. cbn [flat_map] in *.
    rewrite !app_nil_r in *. cbn [appendHighlight Display.highlights].
    rewrite app_assoc, IH. reflexivity.
  - rewrite flat_map_app, IH. reflexivity.
Qed.

(** X12.  Every display record holds at least one highlight and stands
    for the line of one of the nodes; there are no more records than
    nodes, and none when there is no node. *)
Theorem grouping_records_are_inhabited (fs : FileSet) (sorted : list Node) :
  Forall (fun r => Display.highlights r <> []
                   /\ exists n, In n sorted
                                /\ Display.filename r = Filename (fs (Pos n))
                                /\ Display.line r = Line (fs (Pos n)))
         (groupNodes fs sorted)
  /\ length (groupNodes fs sorted) <= length sorted
  /\ (sorted = [] -> groupNodes fs sorted = []).
Proof.
  split; [|split]; [| |intros ->; reflexivity].
  - induction sorted as [|n l IH] using rev_ind; [constructor|].
    assert (Hwiden : Forall (fun r => Display.highlights r <> []
                       /\ exists n0, In n0 (l ++ [n])
                            /\ Display.filename r = Filename (fs (Pos n0))
                            /\ Display.line r = Line (fs (Pos n0)))
                       (groupNodes fs l)).
    { eapply Forall_impl; [|exact IH].
      intros r [Hne [n0 [Hin Hkey]]]. split; [exact Hne|].
      exists n0. split; [apply in_or_app; left; exact Hin | exact Hkey]. }
    assert (Hn : In n (l ++ [n])) by (apply in_or_app; right; left; reflexivity).
    destruct (groupNodes_snoc_cases fs l n)
      as [[before [r [Hl [Hf [Hline Hsnoc]]]]]|[Hsnoc _]]; rewrite Hsnoc.
    + rewrite Hl in Hwiden. apply Forall_app in Hwiden as [Hbefore _].
      apply Forall_app. split; [exact Hbefore|].
      constructor; [|constructor]. cbn [appendHighlight Display.highlights
                                         Display.filename Display.line].
      split; [intros H; apply app_eq_nil in H as [_ H]; discriminate|].
      exists n. repeat split; assumption.
    + apply Forall_app. split; [exact Hwiden|].
      constructor; [|constructor]. split; [discriminate|].
      exists n. repeat split. exact Hn.
  - induction sorted as [|n l IH] using rev_ind; [simpl; lia|].
    rewrite length_app. cbn [length].
    destruct (groupNodes_snoc_cases fs l n)
      as [[before [r [Hl [_ [_ Hsnoc]]]]]|[Hsnoc _]]; rewrite Hsnoc.
    + rewrite Hl in IH. rewrite length_app in *. cbn [length] in *. lia.
    + rewrite length_app. cbn [length]. lia.
Qed.

Lemma linesChange_snoc_new before r new :
  linesChange (before ++ [r]) -> ~ sameKey r new ->
  linesChange ((before ++ [r]) ++ [new]).
Proof.
  induction before as [|x before IH]; intros H Hdiff.
  - simpl. auto.
  - destruct before as [|y before].
    + simpl in *. destruct H as [Hxr _]. auto.
    + cbn [app linesChange] in *. destruct H as [Hxy Hrest].
      split; [exact Hxy|]. apply IH; assumption.
Qed.

Lemma linesChange_snoc_same before r r' :
  linesChange (before ++ [r]) -> sameKey r r' ->
  linesChange (before ++ [r']).
Proof.
  induction before as [|x before IH]; intros H Hsame.
  - simpl. exact I.
  - destruct before as [|y before].
    + simpl in *. destruct H as [Hxr _]. split; [|exact I].
      intros [Hf Hl]. apply Hxr. destruct Hsame as [Hf' Hl'].
      split; congruence.
    + cbn [app linesChange] in *. destruct H as [Hxy Hrest].
      split; [exact Hxy|]. apply IH; assumption.
Qed.

(** X13.  Consecutive display records are for different lines: no record
    is followed by a record with the same file name and line, whatever the
    order of the nodes. *)
Theorem grouping_changes_line_between_records (fs : FileSet) (nodes : list Node) :
  linesChange (groupNodes fs nodes).
Proof.
  induction nodes as [|n l IH] using rev_ind; [exact I|].
  destruct (groupNodes_snoc_cases fs l n)
    as [[before [r [Hl [Hf [Hline Hsnoc]]]]]|[Hsnoc Hdiff]]; rewrite Hsnoc.
  - rewrite Hl in IH. apply (linesChange_snoc_same before r); [exact IH|].
    split; reflexivity.
  - destruct (groupNodes fs l) as [|r0 rs] eqn:Hg using rev_ind.
    + simpl. exact I.
    + apply linesChange_snoc_new; [exact IH|].
      intros [Hf Hline]. apply (Hdiff rs r0 eq_refl).
      split; assumption.
Qed.

Lemma grouping_records_are_inhabited_witness :
  groupNodes Demo.oneFile [] = []
  /\ length (groupNodes Demo.oneFile [mkNode 21 22; mkNode 30 36; mkNode 110 111])
     <= 3.
Proof.
  split.
  - exact (proj2 (proj2 (grouping_records_are_inhabited Demo.oneFile [])) eq_refl).
  - exact (proj1 (proj2 (grouping_records_are_inhabited Demo.oneFile
                           [mkNode 21 22; mkNode 30 36; mkNode 110 111]))).
Defined.

(* ================================================================== *)
(** * Further properties of the query parser *)

(** The segments of a string without [c] are without [c]. *)
Lemma Split_preserves_free c sep s :
  free_of c s = true -> forallb (free_of c) (Split s sep) = true.
Proof.
  induction s as [|a s IH]; simpl; intros H; [reflexivity|].
  apply andb_true_iff in H as [Ha Hs]. specialize (IH Hs).
  destruct (Ascii.eqb a sep).
  - simpl. exact IH.
  - destruct (Split s sep) as [|seg rest]; simpl in *.
    + rewrite Ha. reflexivity.
    + rewrite Ha. exact IH.
Qed.

Lemma forallb_nth {A : Type} (f : A -> bool) l i d :
  forallb f l = true -> i < length l -> f (nth i l d) = true.
Proof.
  intros H Hi. rewrite forallb_forall in H. apply H. apply nth_In. exact Hi.
Qed.

Lemma forallb_last (f : string -> bool) l :
  forallb f l = true -> l <> [] -> f (last l "") = true.
Proof.
  intros H Hne. rewrite forallb_forall in H. apply H.
  destruct (exists_last Hne) as [l' [x ->]]. rewrite last_last.
  apply in_or_app. right. left. reflexivity.
Qed.

Lemma forallb_removelast {A : Type} (f : A -> bool) l :
  forallb f l = true -> forallb f (removelast l) = true.
Proof.
  intros H. rewrite forallb_forall in *. intros x Hx. apply H.
  destruct l as [|a l]; [contradiction|].
  assert (Hne : a :: l <> []) by discriminate.
  rewrite (app_removelast_last a Hne). apply in_or_app. left. exact Hx.
Qed.

Lemma string_app_assoc (a b c : string) :
  ((a ++ b) ++ c = a ++ (b ++ c))%string.
Proof.
  induction a as [|x a IH]; simpl; [reflexivity|]. rewrite IH. reflexivity.
Qed.

(** Appending to the last of the joined elements. *)
Lemma Join_snoc_append xs a s sep :
  Join (xs ++ [(a ++ s)%string]) sep = (Join (xs ++ [a]) sep ++ s)%string.
Proof.
  unfold Join. induction xs as [|x xs IH]; [reflexivity|].
  cbn [app]. destruct xs as [|y xs].
  - cbn [app String.concat]. rewrite !string_app_assoc. reflexivity.
  - cbn [app String.concat] in *. rewrite IH.
    rewrite !string_app_assoc. reflexivity.
Qed.

Lemma parseQuery_Ok_inv target q :
  parseQuery target = Ok q ->
  2 <= length (dot_segments target)
  /\ q = mkQuery (Join (removelast (Split target "/")
                        ++ [nth 0 (dot_segments target) ""]) "/")
                 (nth 1 (dot_segments target) "")
                 (if (3 <=? length (dot_segments target))%nat
                  then nth 2 (dot_segments target) "" else "").
Proof.
  rewrite parseQuery_segments.
  destruct (2 <=? length (dot_segments target))%nat eqn:H2; [|discriminate].
  intros [= <-]. apply Nat.leb_le in H2. split; [exact H2 | reflexivity].
Qed.

(** X14.  Parsing succeeds exactly when the last [/]-segment of the
    query string holds a dot, and panics on every other string, the empty
    string included. *)
Theorem parseQuery_succeeds_iff (target : string) :
  ((exists q, parseQuery target = Ok q)
   <-> free_of "." (last (Split target "/") "") = false)
  /\ (free_of "." (last (Split target "/") "") = true
      <-> parseQuery target = Panic "index out of range").
Proof.
  pose proof (Split_single_iff (last (Split target "/") "") ".") as Hsingle.
  fold (dot_segments target) in Hsingle.
  rewrite parseQuery_segments. cbv zeta.
  destruct (2 <=? length (dot_segments target))%nat eqn:H2.
  - apply Nat.leb_le in H2.
    assert (Hdot : free_of "." (last (Split target "/") "") = false).
    { destruct (free_of "." (last (Split target "/") "")) eqn:Hf; [|reflexivity].
      assert (length (dot_segments target) < 2) by (apply Hsingle; reflexivity).
      lia. }
    rewrite Hdot. split; split; try discriminate.
    + reflexivity.
    + intros _. eexists. reflexivity.
  - apply Nat.leb_gt in H2. apply Hsingle in H2. rewrite H2.
    split; split; try discriminate; try reflexivity.
    intros [q Hq]. discriminate.
Qed.

(** X15.  A parsed query spells the query string back: with two
    dot-segments the string is [pkgPath.objName], with three it is
    [pkgPath.objName.selName]. *)
Theorem parseQuery_round_trip (target : string) (q : Query) :
  parseQuery target = Ok q ->
  (length (dot_segments target) = 2 ->
   target = (pkgPath q ++ "." ++ objName q)%string /\ selName q = "")
  /\ (length (dot_segments target) = 3 ->
      target = (pkgPath q ++ "." ++ objName q ++ "." ++ selName q)%string).
Proof.
  intros Hq. destruct (parseQuery_Ok_inv target q Hq) as [_ ->].
  cbn [pkgPath objName selName]. clear Hq.
  pose proof (Join_Split target "/") as Htarget.
  pose proof (Join_Split (last (Split target "/") "") ".") as Hlast.
  fold (dot_segments target) in Hlast.
  pose proof (app_removelast_last "" (Split_not_nil target "/")) as Hpaths.
  remember (removelast (Split target "/")) as front eqn:Hfront.
  remember (last (Split target "/") "") as lastSeg eqn:HlastSeg.
  rewrite Hpaths in Htarget. clear Hpaths Hfront HlastSeg.
  unfold sep_str in *.
  split; intros Hlen.
  - destruct (dot_segments target) as [|a [|b [|c rest]]]; try discriminate.
    cbn [nth length Nat.leb]. split; [|reflexivity].
    rewrite <- Htarget, <- Hlast.
    change (Join [a; b] ".") with (a ++ "." ++ b)%string.
    apply Join_snoc_append.
  - destruct (dot_segments target) as [|a [|b [|c [|d rest]]]]; try discriminate.
    cbn [nth length Nat.leb].
    rewrite <- Htarget, <- Hlast.
    change (Join [a; b; c] ".") with (a ++ "." ++ b ++ "." ++ c)%string.
    apply Join_snoc_append.
Qed.

Lemma parseQuery_round_trip_witness :
  "encoding/json.Encoder.Encode"
  = (pkgPath (mkQuery "encoding/json" "Encoder" "Encode") ++ "."
     ++ objName (mkQuery "encoding/json" "Encoder" "Encode") ++ "."
     ++ selName (mkQuery "encoding/json" "Encoder" "Encode"))%string.
Proof.
  exact (proj2 (parseQuery_round_trip "encoding/json.Encoder.Encode"
                  (mkQuery "encoding/json" "Encoder" "Encode") eq_refl) eq_refl).
Defined.

(** X16.  In a parsed query neither [objName] nor [selName] holds a dot
    or a slash, and the last [/]-segment of [pkgPath] holds no dot: a
    package whose last path element has a dot cannot be named by a
    query. *)
Theorem parsed_query_names_have_no_separator (target : string) (q : Query) :
  parseQuery target = Ok q ->
  free_of "." (objName q) = true /\ free_of "/" (objName q) = true
  /\ free_of "." (selName q) = true /\ free_of "/" (selName q) = true
  /\ free_of "." (last (Split (pkgPath q) "/") "") = true.
Proof.
  intros Hq. destruct (parseQuery_Ok_inv target q Hq) as [Hlen ->].
  cbn [pkgPath objName selName].
  set (paths := Split target "/").
  pose proof (Split_segments_free target "/") as Hpaths. fold paths in Hpaths.
  assert (Hlast : free_of "/" (last paths "") = true)
    by (apply forallb_last; [exact Hpaths | apply Split_not_nil]).
  pose proof (Split_segments_free (last paths "") ".") as Hdots.
  pose proof (Split_preserves_free "/" "." (last paths "") Hlast) as Hslashes.
  fold paths in Hdots, Hslashes. unfold dot_segments in *. fold paths in Hlen |- *.
  set (names := Split (last paths "") ".") in *.
  split; [apply forallb_nth; [exact Hdots | lia]|].
  split; [apply forallb_nth; [exact Hslashes | lia]|].
  split; [|split].
  - destruct (3 <=? length names)%nat eqn:H3; [|reflexivity].
    apply Nat.leb_le in H3. apply forallb_nth; [exact Hdots | lia].
  - destruct (3 <=? length names)%nat eqn:H3; [|reflexivity].
    apply Nat.leb_le in H3. apply forallb_nth; [exact Hslashes | lia].
  - pose proof (Split_Join (removelast paths ++ [nth 0 names ""]) "/") as HSJ.
    unfold sep_str in HSJ. rewrite HSJ.
    + rewrite last_last. apply forallb_nth; [exact Hdots | lia].
    + destruct (removelast paths); discriminate.
    + rewrite forallb_app. apply andb_true_iff. split.
      * apply forallb_removelast. exact Hpaths.
      * simpl. rewrite andb_true_r. apply forallb_nth; [exact Hslashes | lia].
Qed.

Lemma parsed_query_names_have_no_separator_witness :
  free_of "." (last (Split (pkgPath (mkQuery "gopkg.in/yaml" "v2" "Decoder")) "/") "")
  = true.
Proof.
  exact (proj2 (proj2 (proj2 (proj2
           (parsed_query_names_have_no_separator "gopkg.in/yaml.v2.Decoder"
              (mkQuery "gopkg.in/yaml" "v2" "Decoder") eq_refl))))).
Defined.

Lemma parseQuery_succeeds_iff_witness :
  parseQuery "" = Panic "index out of range"
  /\ exists q, parseQuery "a/b.c/d.e" = Ok q.
Proof.
  split.
  - exact (proj1 (proj2 (parseQuery_succeeds_iff "")) eq_refl).
  - exact (proj2 (proj1 (parseQuery_succeeds_iff "a/b.c/d.e")) eq_refl).
Defined.

(* ================================================================== *)
(** * Further properties of the loop over the packages *)

Lemma visitPackage_errorFree q flagQuiet pi :
  errorFree pi = true -> visitPackage q flagQuiet pi = ([], scanPackage q pi).
Proof.
  unfold errorFree, visitPackage. destruct (Errors pi); [reflexivity | discriminate].
Qed.

Lemma visitPackage_failing q flagQuiet pi :
  errorFree pi = false ->
  visitPackage q flagQuiet pi
  = ((if flagQuiet then [] else [diagnostic pi]), Ok []).
Proof.
  unfold errorFree, visitPackage. destruct (Errors pi); [discriminate|].
  intros _. destruct flagQuiet; reflexivity.
Qed.

(** The lines the loop over the packages logs are the diagnostics of
    the packages that have type errors, one line for each such package and
    in the order of the packages; with the quiet flag the loop logs
    nothing. *)
Lemma scanProgram_diagnostics
    (q : Query) (flagQuiet : bool) (prog : list PackageInfo) :
  fst (scanProgram q flagQuiet prog)
  = if flagQuiet then []
    else map diagnostic (filter (fun pi => negb (errorFree pi)) prog).
Proof.
  induction prog as [|pi prog IH]; simpl.
  - destruct flagQuiet; reflexivity.
  - destruct (errorFree pi) eqn:He.
    + rewrite (visitPackage_errorFree q flagQuiet pi He).
      destruct (scanProgram q flagQuiet prog) as [log sent]. simpl in *.
      exact IH.
    + rewrite (visitPackage_failing q flagQuiet pi He).
      destruct (scanProgram q flagQuiet prog) as [log sent]. simpl in *.
      rewrite IH. destruct flagQuiet; reflexivity.
Qed.

(** X18.  What a run collects comes from the error-free packages alone
    and does not depend on the quiet flag: the nodes sent are those sent
    for the program with the failing packages removed.  A run in which
    every package has type errors completes with no display record. *)
Theorem only_error_free_packages_are_scanned
    (q : Query) (flagQuiet : bool) (prog : list PackageInfo) :
  snd (scanProgram q flagQuiet prog)
  = snd (scanProgram q (negb flagQuiet) (filter errorFree prog))
  /\ (filter errorFree prog = [] ->
      forall schedule sort_Sort target pkgArg pkgArgs fs,
        schedules schedule -> sorts sort_Sort ->
        parseQuery target = Ok q ->
        gofind schedule sort_Sort flagQuiet (target :: pkgArg :: pkgArgs)
               (fun _ => Loaded fs prog)
        = Completed (fst (scanProgram q flagQuiet prog)) []).
Proof.
  assert (Hsnd : forall quiet quiet',
             snd (scanProgram q quiet prog)
             = snd (scanProgram q quiet' (filter errorFree prog))).
  { intros quiet quiet'. induction prog as [|pi prog IH]; [reflexivity|].
    cbn [filter scanProgram]. destruct (errorFree pi) eqn:He.
    - cbn [scanProgram]. rewrite !(visitPackage_errorFree q _ pi He).
      destruct (scanProgram q quiet prog) as [log sent].
      destruct (scanProgram q quiet' (filter errorFree prog)) as [log' sent'].
      simpl in *. subst sent'. reflexivity.
    - rewrite (visitPackage_failing q quiet pi He).
      destruct (scanProgram q quiet prog) as [log sent].
      simpl in *. rewrite <- IH. destruct sent; reflexivity. }
  split; [apply Hsnd|].
  intros Hnone schedule sort_Sort target pkgArg pkgArgs fs Hsch Hsort Hq.
  unfold gofind. rewrite Hq.
  specialize (Hsnd flagQuiet flagQuiet). rewrite Hnone in Hsnd. simpl in Hsnd.
  destruct (scanProgram q flagQuiet prog) as [log sent]. simpl in *. subst sent.
  f_equal.
  assert (Hs : schedule [] = [])
    by (apply Permutation_nil; apply Hsch).
  rewrite Hs.
  assert (Hsorted : sort_Sort fs [] = [])
    by (apply Permutation_nil; apply (Hsort fs [])).
  rewrite Hsorted. reflexivity.
Qed.

Lemma only_error_free_packages_are_scanned_witness :
  gofind (fun l => l) insertionSort false ["net/http.Client"; "example.org/broken"]
         (fun _ => Loaded Demo.oneFile [Demo.badPkg; Demo.badPkg])
  = Completed ["gofind: broken: undeclared name: x and 2 error(s)";
               "gofind: broken: undeclared name: x and 2 error(s)"] [].
Proof.
  apply (proj2 (only_error_free_packages_are_scanned Demo.qClient false
                  [Demo.badPkg; Demo.badPkg]) eq_refl
           (fun l => l) insertionSort "net/http.Client" "example.org/broken" []
           Demo.oneFile).
  - intros l. apply Permutation_refl.
  - intros fs l. apply insertionSort_contract.
  - reflexivity.
Defined.

(* ================================================================== *)
(** * The printing loop *)

Lemma string_length_app (a b : string) :
  String.length (a ++ b)%string = String.length a + String.length b.
Proof.
  induction a as [|x a IH]; simpl; [reflexivity|]. rewrite IH. reflexivity.
Qed.

Lemma string_app_nil_r (a : string) : (a ++ "")%string = a.
Proof.
  induction a as [|x a IH]; simpl; [reflexivity|]. rewrite IH. reflexivity.
Qed.

Lemma substring_0_0 s : substring 0 0 s = "".
Proof. destruct s; reflexivity. Qed.

Lemma substring_full s : substring 0 (String.length s) s = s.
Proof.
  induction s as [|x s IH]; simpl; [reflexivity|]. rewrite IH. reflexivity.
Qed.

Lemma substring_length n m s :
  n + m <= String.length s -> String.length (substring n m s) = m.
Proof.
  revert n m. induction s as [|x s IH]; intros n m H; simpl in *.
  - destruct n, m; simpl in *; try lia; reflexivity.
  - destruct n as [|n].
    + destruct m as [|m]; simpl; [reflexivity|].
      rewrite (IH 0 m) by lia. reflexivity.
    + apply IH. lia.
Qed.

(** A prefix cut in two. *)
Lemma substring_0_split a b s :
  a <= b -> b <= String.length s ->
  substring 0 b s = (substring 0 a s ++ substring a (b - a) s)%string.
Proof.
  revert a b. induction s as [|x s IH]; intros a b Hab Hb; simpl in *.
  - assert (b = 0) by lia. assert (a = 0) by lia. subst. reflexivity.
  - destruct a as [|a].
    + rewrite Nat.sub_0_r. destruct b; reflexivity.
    + destruct b as [|b]; [lia|]. simpl.
      rewrite (IH a b) by lia. reflexivity.
Qed.

Lemma free_of_substring c n m s :
  free_of c s = true -> free_of c (substring n m s) = true.
Proof.
  revert n m. induction s as [|x s IH]; intros n m H; simpl in *.
  - destruct n, m; reflexivity.
  - apply andb_true_iff in H as [Hx Hs].
    destruct n as [|n].
    + destruct m as [|m]; [reflexivity|]. simpl. rewrite Hx. apply IH. exact Hs.
    + apply IH. exact Hs.
Qed.

Lemma stripEscapes_free a b :
  free_of esc a = true ->
  stripEscapes (a ++ b) false = (a ++ stripEscapes b false)%string.
Proof.
  induction a as [|x a IH]; simpl; intros H; [reflexivity|].
  apply andb_true_iff in H as [Hx Ha]. apply negb_true_iff in Hx.
  rewrite Hx, (IH Ha). reflexivity.
Qed.

Lemma stripEscapes_red b : stripEscapes (red ++ b) false = stripEscapes b false.
Proof. reflexivity. Qed.

Lemma stripEscapes_reset b : stripEscapes (reset ++ b) false = stripEscapes b false.
Proof. reflexivity. Qed.

Lemma slice_in_bounds line lo hi :
  (0 <= lo)%Z -> (lo <= hi)%Z -> (hi <= Z.of_nat (String.length line))%Z ->
  slice line lo hi = Ok (substring (Z.to_nat lo) (Z.to_nat (hi - lo)) line).
Proof.
  intros H0 H1 H2. unfold slice.
  assert (Hc : ((0 <=? lo) && (lo <=? hi)
                && (hi <=? Z.of_nat (String.length line)))%Z = true).
  { rewrite !andb_true_iff, !Z.leb_le. auto. }
  rewrite Hc. reflexivity.
Qed.

Lemma slice_backwards line lo hi :
  (hi < lo)%Z -> slice line lo hi = Panic "slice bounds out of range".
Proof.
  intros H. unfold slice.
  assert (Hc : (lo <=? hi)%Z = false) by (apply Z.leb_gt; exact H).
  rewrite Hc, andb_false_r. reflexivity.
Qed.

Lemma slice_result line lo hi :
  (exists s, slice line lo hi = Ok s)
  \/ slice line lo hi = Panic "slice bounds out of range".
Proof.
  unfold slice.
  destruct ((0 <=? lo) && (lo <=? hi)
            && (hi <=? Z.of_nat (String.length line)))%Z;
    [left; eexists; reflexivity | right; reflexivity].
Qed.

Lemma fits_bound len pos hls : fits len pos hls -> (pos <= len)%Z.
Proof.
  revert pos. induction hls as [|hl hls IH]; simpl; intros pos H; [exact H|].
  destruct H as [H1 [H2 H3]]. specialize (IH _ H3). lia.
Qed.

(** The prefix of the line up to [pos]. *)
Lemma prefix_extend line lo hi :
  (0 <= lo)%Z -> (lo <= hi)%Z -> (hi <= Z.of_nat (String.length line))%Z ->
  substring 0 (Z.to_nat hi) line
  = (substring 0 (Z.to_nat lo) line
     ++ substring (Z.to_nat lo) (Z.to_nat (hi - lo)) line)%string.
Proof.
  intros H0 H1 H2. rewrite Z2Nat.inj_sub by lia.
  apply substring_0_split; lia.
Qed.

(** The loop over the highlights keeps the text: once the escape
    sequences are left out, the buffer holds the line up to [pos]; and
    every highlight adds the nine bytes of its two escape sequences. *)
Lemma writeHighlights_keeps_text line hls pos hlBuf :
  free_of esc line = true ->
  (0 <= pos)%Z ->
  fits (Z.of_nat (String.length line)) pos hls ->
  (forall rest, stripEscapes (hlBuf ++ rest) false
                = (substring 0 (Z.to_nat pos) line ++ stripEscapes rest false)%string) ->
  exists hlBuf' pos',
    writeHighlights line hls pos hlBuf = Ok (hlBuf', pos')
    /\ (pos <= pos' <= Z.of_nat (String.length line))%Z
    /\ (forall rest, stripEscapes (hlBuf' ++ rest) false
                     = (substring 0 (Z.to_nat pos') line
                        ++ stripEscapes rest false)%string)
    /\ Z.of_nat (String.length hlBuf')
       = (Z.of_nat (String.length hlBuf) + (pos' - pos)
          + 9 * Z.of_nat (length hls))%Z.
Proof.
  intros Hfree. revert pos hlBuf.
  induction hls as [|hl hls IH]; intros pos hlBuf Hpos Hfits Hinv.
  - simpl in Hfits. exists hlBuf, pos. simpl.
    repeat split; try lia; try reflexivity. exact Hinv.
  - destruct Hfits as [H1 [H2 H3]]. pose proof (fits_bound _ _ _ H3) as Hend.
    cbn [writeHighlights].
    rewrite (slice_in_bounds line pos (hl_start hl)) by lia.
    rewrite (slice_in_bounds line (hl_start hl) (hl_end hl)) by lia.
    cbn [bind].
    set (before := substring (Z.to_nat pos) (Z.to_nat (hl_start hl - pos)) line).
    set (token := substring (Z.to_nat (hl_start hl))
                            (Z.to_nat (hl_end hl - hl_start hl)) line).
    destruct (IH (hl_end hl) (hlBuf ++ before ++ red ++ token ++ reset)%string)
      as [hlBuf' [pos' [Hrun [Hrange [Hinv' Hlen']]]]].
    + lia.
    + exact H3.
    + intros rest.
      rewrite !string_app_assoc, Hinv.
      rewrite (stripEscapes_free before) by (apply free_of_substring; exact Hfree).
      rewrite stripEscapes_red.
      rewrite (stripEscapes_free token) by (apply free_of_substring; exact Hfree).
      rewrite stripEscapes_reset.
      rewrite (prefix_extend line (hl_start hl) (hl_end hl)) by lia.
      rewrite (prefix_extend line pos (hl_start hl)) by lia.
      fold before token. rewrite !string_app_assoc. reflexivity.
    + exists hlBuf', pos'. split; [exact Hrun|]. split; [lia|].
      split; [exact Hinv'|].
      rewrite Hlen'. rewrite !string_length_app.
      unfold before, token. rewrite !substring_length by lia.
      cbn [length]. change (String.length red) with 5.
      change (String.length reset) with 4. lia.
Qed.

(** X19.  When the highlights lie in the line one after the other, and
    the line holds no escape byte, the annotated text is the line with
    escape sequences put in: leaving the escape sequences out gives the
    line back, and the text is nine bytes longer than the line for every
    highlight. *)
Theorem renderLine_keeps_the_line (line : string) (hls : list highlight) :
  free_of esc line = true ->
  fits (Z.of_nat (String.length line)) 0 hls ->
  exists text,
    renderLine line hls = Ok text
    /\ stripEscapes text false = line
    /\ String.length text = String.length line + 9 * length hls.
Proof.
  intros Hfree Hfits.
  destruct (writeHighlights_keeps_text line hls 0 "" Hfree (Z.le_refl 0) Hfits)
    as [hlBuf [pos [Hrun [Hrange [Hinv Hlen]]]]].
  { intros rest. rewrite substring_0_0. reflexivity. }
  unfold renderLine. rewrite Hrun. cbn [bind fst snd].
  rewrite (slice_in_bounds line pos (Z.of_nat (String.length line))) by lia.
  cbn [bind].
  set (rest := substring (Z.to_nat pos)
                 (Z.to_nat (Z.of_nat (String.length line) - pos)) line).
  exists (hlBuf ++ rest)%string. split; [reflexivity|]. split.
  - rewrite <- (string_app_nil_r rest), Hinv.
    rewrite (stripEscapes_free rest "") by (apply free_of_substring; exact Hfree).
    simpl stripEscapes. rewrite string_app_nil_r.
    unfold rest.
    rewrite <- (prefix_extend line pos (Z.of_nat (String.length line))) by lia.
    rewrite Nat2Z.id. apply substring_full.
  - rewrite string_length_app. unfold rest.
    rewrite substring_length by lia. simpl String.length in Hlen. lia.
Qed.

Lemma renderLine_keeps_the_line_witness :
  exists text,
    renderLine "var c Client = x" [mkHighlight 4 5; mkHighlight 6 12] = Ok text
    /\ stripEscapes text false = "var c Client = x"
    /\ String.length text = String.length "var c Client = x" + 9 * 2.
Proof.
  apply (renderLine_keeps_the_line "var c Client = x"
           [mkHighlight 4 5; mkHighlight 6 12]).
  - reflexivity.
  - simpl. lia.
Defined.

Lemma writeHighlights_result line hls pos hlBuf :
  (exists st, writeHighlights line hls pos hlBuf = Ok st)
  \/ writeHighlights line hls pos hlBuf = Panic "slice bounds out of range".
Proof.
  revert pos hlBuf. induction hls as [|hl hls IH]; intros pos hlBuf.
  - left. eexists. reflexivity.
  - cbn [writeHighlights].
    destruct (slice_result line pos (hl_start hl)) as [[s1 ->] | ->];
      [|right; reflexivity].
    destruct (slice_result line (hl_start hl) (hl_end hl)) as [[s2 ->] | ->];
      [|right; reflexivity].
    cbn [bind]. apply IH.
Qed.

Lemma writeHighlights_app line hls1 hls2 pos hlBuf :
  writeHighlights line (hls1 ++ hls2) pos hlBuf
  = bind (writeHighlights line hls1 pos hlBuf)
         (fun st => writeHighlights line hls2 (snd st) (fst st)).
Proof.
  revert pos hlBuf. induction hls1 as [|hl hls1 IH]; intros pos hlBuf.
  - reflexivity.
  - cbn [app writeHighlights].
    destruct (slice line pos (hl_start hl)); [|reflexivity].
    destruct (slice line (hl_start hl) (hl_end hl)); [|reflexivity].
    cbn [bind]. apply IH.
Qed.

Lemma writeHighlights_overlap line h1 h2 rest pos hlBuf :
  (hl_start h2 < hl_end h1)%Z ->
  writeHighlights line (h1 :: h2 :: rest) pos hlBuf
  = Panic "slice bounds out of range".
Proof.
  intros Hover. cbn [writeHighlights].
  destruct (slice_result line pos (hl_start h1)) as [[s1 ->] | ->];
    [|reflexivity].
  destruct (slice_result line (hl_start h1) (hl_end h1)) as [[s2 ->] | ->];
    [|reflexivity].
  cbn [bind]. rewrite (slice_backwards line (hl_end h1) (hl_start h2) Hover).
  reflexivity.
Qed.

(** X20.  The printing of a line panics as soon as a highlight starts
    before the end of the highlight before it, wherever the two stand in
    the record.  This is what happens to a node that was collected twice:
    grouping puts its span twice into one record, and no line can be
    annotated with that record. *)
Theorem renderLine_panics_on_overlap :
  (forall line before h1 h2 rest,
     (hl_start h2 < hl_end h1)%Z ->
     renderLine line (before ++ h1 :: h2 :: rest)
     = Panic "slice bounds out of range")
  /\ (forall fs n line,
        (Pos n < End n)%Z ->
        exists record,
          groupNodes fs [n; n] = [record]
          /\ renderLine line (Display.highlights record)
             = Panic "slice bounds out of range").
Proof.
  assert (Hover : forall line before h1 h2 rest,
             (hl_start h2 < hl_end h1)%Z ->
             renderLine line (before ++ h1 :: h2 :: rest)
             = Panic "slice bounds out of range").
  { intros line before h1 h2 rest H. unfold renderLine.
    rewrite writeHighlights_app.
    destruct (writeHighlights_result line before 0 "") as [[st ->] | ->];
      [|reflexivity].
    cbn [bind]. rewrite (writeHighlights_overlap line h1 h2 rest _ _ H).
    reflexivity. }
  split; [exact Hover|].
  intros fs n line Hlen.
  exists (Display.mkResult (Filename (fs (Pos n))) (Line (fs (Pos n)))
            [highlightOf fs n; highlightOf fs n]).
  split.
  - apply (groupNodes_one_line fs n [n]).
    constructor; [split; reflexivity | constructor].
  - cbn [Display.highlights].
    apply (Hover line [] (highlightOf fs n) (highlightOf fs n) []).
    unfold highlightOf. simpl. lia.
Qed.

Lemma renderLine_panics_on_overlap_witness :
  renderLine "x.Foo()" [mkHighlight 2 5; mkHighlight 2 5]
  = Panic "slice bounds out of range".
Proof.
  apply (proj1 renderLine_panics_on_overlap "x.Foo()" []
           (mkHighlight 2 5) (mkHighlight 2 5) []).
  simpl. lia.
Defined.

(** X21.  When the query names a method that has the name of its type
    ([selName] equal to [objName]), a selection of the method whose
    receiver matches is sent twice: its [Sel] identifier is sent by the
    selection scanner, and sent again by the use scanner, for which it is
    a use of a function named [objName]. *)
Theorem method_named_like_its_type_is_sent_twice
    (q : Query) (pi : PackageInfo) (expr : SelectorExpr) (sel : Selection)
    (out : list Node) :
  In (expr, sel) (Selections pi) ->
  In (sx_Sel expr, sel_Obj sel) (Uses pi) ->
  obj_kind (sel_Obj sel) = KFunc ->
  funcNamed q (sel_Obj sel) = true ->
  fieldMatches q (sel_Recv sel) (obj_Name (sel_Obj sel)) = true ->
  scanPackage q pi = Ok out ->
  selName q = objName q
  /\ exists l1 l2 l3,
       out = l1 ++ id_node (sx_Sel expr) :: l2 ++ id_node (sx_Sel expr) :: l3.
Proof.
  intros Hsel Huse Hkind Hfunc Hmatch Hscan.
  split.
  - unfold funcNamed in Hfunc. destruct (obj_Pkg (sel_Obj sel)); [|discriminate].
    apply andb_true_iff in Hfunc as [_ Hname]. apply String.eqb_eq in Hname.
    unfold fieldMatches in Hmatch.
    destruct (String.eqb_spec (obj_Name (sel_Obj sel)) (selName q));
      [congruence | discriminate].
  - destruct (scanPackage_Ok_inv q pi out Hscan) as [sels [lits [Hsels [_ ->]]]].
    assert (H1 : In (id_node (sx_Sel expr)) sels).
    { destruct (rangeOver_entry_Ok _ _ _ _ Hsels Hsel) as [sent Hb].
      apply (rangeOver_incl _ _ _ _ sent Hsels Hsel Hb).
      unfold scanSelection in Hb. rewrite Hkind, Hmatch in Hb.
      injection Hb as <-. left; reflexivity. }
    assert (H2 : In (id_node (sx_Sel expr)) (flat_map (scanUse q) (Uses pi))).
    { apply in_flat_map. exists (sx_Sel expr, sel_Obj sel).
      split; [exact Huse|]. unfold scanUse. rewrite Hkind, Hfunc.
      left; reflexivity. }
    apply in_split in H1 as [a1 [a2 ->]].
    apply in_split in H2 as [b1 [b2 ->]].
    exists a1, (a2 ++ b1), (b2 ++ flat_map (scanDef q) (Defs pi) ++ lits).
    repeat rewrite <- app_assoc. cbn [app].
    repeat rewrite <- app_assoc. cbn [app]. reflexivity.
Qed.

Lemma method_named_like_its_type_is_sent_twice_witness :
  scanPackage DemoMethod.query DemoMethod.package = Ok [mkNode 43 46; mkNode 43 46]
  /\ exists l1 l2 l3,
       [mkNode 43 46; mkNode 43 46]
       = l1 ++ id_node (sx_Sel DemoMethod.call)
            :: l2 ++ id_node (sx_Sel DemoMethod.call) :: l3.
Proof.
  split; [reflexivity|].
  apply (proj2 (method_named_like_its_type_is_sent_twice
                  DemoMethod.query DemoMethod.package DemoMethod.call
                  (mkSelection DemoMethod.FooMethod DemoMethod.FooType)
                  [mkNode 43 46; mkNode 43 46]
                  (or_introl eq_refl) (or_introl eq_refl)
                  eq_refl eq_refl eq_refl eq_refl)).
Defined.

(* ================================================================== *)
(** * The file cache and the output of the printing loop *)

(* ================================================================== *)
(** * The file cache and the output of the printing loop *)

Section Printing.

Variable simplify : string -> string.
Variable fsys : FileSystem.

Lemma printResults_hit result rest st lines :
  lookupLines (fileLines st) (Display.filename result) = Some lines ->
  printResults simplify fsys (result :: rest) st
  = continueWith simplify fsys result rest lines st.
Proof.
  intros H. cbn [printResults]. cbv zeta. rewrite H. reflexivity.
Qed.

Lemma printResults_read_error result rest st err :
  lookupLines (fileLines st) (Display.filename result) = None ->
  fsys (Display.filename result) = ReadError err ->
  printResults simplify fsys (result :: rest) st
  = (afterRead st (Display.filename result) None, ReadFatal err).
Proof.
  intros H Hf. cbn [printResults]. cbv zeta. rewrite H, Hf. reflexivity.
Qed.

Lemma printResults_read result rest st b :
  lookupLines (fileLines st) (Display.filename result) = None ->
  fsys (Display.filename result) = FileBytes b ->
  printResults simplify fsys (result :: rest) st
  = continueWith simplify fsys result rest (Split b (ascii_of_nat 10))
      (afterRead st (Display.filename result) (Some (Split b (ascii_of_nat 10)))).
Proof.
  intros H Hf. cbn [printResults]. cbv zeta. rewrite H, Hf. reflexivity.
Qed.

Lemma cacheInvariant_afterPrint st line :
  cacheInvariant fsys st -> cacheInvariant fsys (afterPrint st line).
Proof. intros H. exact H. Qed.

Lemma cacheInvariant_afterRead st name b :
  cacheInvariant fsys st ->
  lookupLines (fileLines st) name = None ->
  fsys name = FileBytes b ->
  cacheInvariant fsys (afterRead st name (Some (Split b (ascii_of_nat 10)))).
Proof.
  intros [Hnd [Hkeys Hlines]] Hmiss Hf. unfold cacheInvariant, afterRead.
  cbn [filesRead fileLines].
  assert (Hnew : ~ In name (filesRead st)).
  { intros Hin. apply Hkeys in Hin. contradiction. }
  split; [|split].
  - apply NoDup_app; [exact Hnd | constructor; [intros [] | constructor] |].
    intros x Hx [<-|[]]. contradiction.
  - intros n. cbn [lookupLines].
    destruct (String.eqb_spec name n) as [<-|Hne].
    + split; [discriminate|]. intros _. apply in_or_app. right. left. reflexivity.
    + rewrite <- Hkeys. split.
      * intros Hin. apply in_app_or in Hin as [Hin|[Heq|[]]];
          [exact Hin | contradiction].
      * intros Hin. apply in_or_app. left. exact Hin.
  - intros n lines. cbn [lookupLines].
    destruct (String.eqb_spec name n) as [<-|Hne].
    + intros [= <-]. exists b. split; [exact Hf | reflexivity].
    + apply Hlines.
Qed.

(** The invariant of the loop, with what a run adds to the files read
    and to the lines printed. *)
Lemma printResults_invariant results :
  forall st st' e,
    cacheInvariant fsys st ->
    printResults simplify fsys results st = (st', e) ->
    NoDup (filesRead st')
    /\ (exists more,
          filesRead st' = filesRead st ++ more
          /\ incl more (map Display.filename results))
    /\ (e = PrintDone ->
        forall r, In r results -> In (Display.filename r) (filesRead st'))
    /\ (exists lines,
          printed st' = printed st ++ lines
          /\ exists done_,
               Forall2 (printsRecord simplify fsys) done_ lines
               /\ exists left_, results = done_ ++ left_
                                /\ (e = PrintDone <-> left_ = [])).
Proof.
  induction results as [|result rest IH]; intros st st' e Hinv Hrun.
  - simpl in Hrun. injection Hrun as <- <-.
    split; [apply Hinv|]. split; [exists []; rewrite app_nil_r; split;
                                   [reflexivity | intros x []]|].
    split; [intros _ r []|].
    exists []. rewrite app_nil_r. split; [reflexivity|].
    exists []. split; [constructor|]. exists [].
    split; [reflexivity | split; reflexivity].
  - assert (Hcontinue : forall lines st1 b,
               cacheInvariant fsys st1 ->
               fsys (Display.filename result) = FileBytes b ->
               lines = Split b (ascii_of_nat 10) ->
               In (Display.filename result) (filesRead st1) ->
               continueWith simplify fsys result rest lines st1 = (st', e) ->
               NoDup (filesRead st')
               /\ (exists more,
                     filesRead st' = filesRead st1 ++ more
                     /\ incl more (map Display.filename rest))
               /\ (e = PrintDone ->
                   forall r, In r (result :: rest) ->
                             In (Display.filename r) (filesRead st'))
               /\ (exists lines',
                     printed st' = printed st1 ++ lines'
                     /\ exists done_,
                          Forall2 (printsRecord simplify fsys) done_ lines'
                          /\ exists left_, result :: rest = done_ ++ left_
                                           /\ (e = PrintDone <-> left_ = []))).
    { intros lines st1 b Hinv1 Hf Hlines Hread Hc. unfold continueWith in Hc.
      assert (Hstop : forall msg, (st1, PrintPanic msg) = (st', e) ->
                 NoDup (filesRead st')
                 /\ (exists more,
                       filesRead st' = filesRead st1 ++ more
                       /\ incl more (map Display.filename rest))
                 /\ (e = PrintDone ->
                     forall r, In r (result :: rest) ->
                               In (Display.filename r) (filesRead st'))
                 /\ (exists lines',
                       printed st' = printed st1 ++ lines'
                       /\ exists done_,
                            Forall2 (printsRecord simplify fsys) done_ lines'
                            /\ exists left_, result :: rest = done_ ++ left_
                                             /\ (e = PrintDone <-> left_ = []))).
      { intros msg [= <- <-]. split; [apply Hinv1|].
        split; [exists []; rewrite app_nil_r; split;
                [reflexivity | intros x []]|].
        split; [discriminate|].
        exists []. rewrite app_nil_r. split; [reflexivity|].
        exists []. split; [constructor|]. exists (result :: rest).
        split; [reflexivity | split; discriminate]. }
      destruct (indexZ lines (Display.line result - 1)) as [src|msg] eqn:Hsrc;
        [|exact (Hstop msg Hc)].
      destruct (renderLine src (Display.highlights result)) as [text|msg] eqn:Htext;
        [|exact (Hstop msg Hc)].
      destruct (IH _ st' e (cacheInvariant_afterPrint st1 _ Hinv1) Hc)
        as [Hnd [[more [Hmore Hincl]] [Hdone [lines' [Hprinted
             [done_ [Hall [left_ [Hsplit Hleft]]]]]]]]].
      cbn [afterPrint filesRead printed] in Hmore, Hprinted.
      split; [exact Hnd|]. split; [exists more; split; assumption|].
      split.
      - intros He r [<-|Hr]; [|apply Hdone; assumption].
        rewrite Hmore. apply in_or_app. left. exact Hread.
      - exists (outputLine (simplify (Display.filename result))
                           (Display.line result) text :: lines').
        split; [rewrite Hprinted, <- app_assoc; reflexivity|].
        exists (result :: done_). split.
        + constructor; [|exact Hall].
          exists b, src, text. subst lines. repeat split; assumption.
        + exists left_. split; [rewrite Hsplit; reflexivity | exact Hleft]. }
    destruct (lookupLines (fileLines st) (Display.filename result))
      as [lines|] eqn:Hlook.
    + rewrite (printResults_hit result rest st lines Hlook) in Hrun.
      destruct Hinv as [Hnd [Hkeys Hcache]].
      destruct (Hcache _ _ Hlook) as [b [Hf Hlines]].
      assert (Hread : In (Display.filename result) (filesRead st))
        by (apply Hkeys; congruence).
      destruct (Hcontinue lines st b (conj Hnd (conj Hkeys Hcache)) Hf Hlines
                  Hread Hrun)
        as [H1 [[more [Hmore Hincl]] [H3 H4]]].
      split; [exact H1|]. split; [|split; [exact H3 | exact H4]].
      exists more. split; [exact Hmore|].
      intros x Hx. right. apply Hincl. exact Hx.
    + destruct (fsys (Display.filename result)) as [b|err] eqn:Hf.
      * rewrite (printResults_read result rest st b Hlook Hf) in Hrun.
        pose proof (cacheInvariant_afterRead st _ b Hinv Hlook Hf) as Hinv1.
        assert (Hread : In (Display.filename result)
                           (filesRead (afterRead st (Display.filename result)
                                         (Some (Split b (ascii_of_nat 10))))))
          by (cbn [afterRead filesRead]; apply in_or_app; right; left; reflexivity).
        destruct (Hcontinue _ _ b Hinv1 eq_refl eq_refl Hread Hrun)
          as [H1 [[more [Hmore Hincl]] [H3 H4]]].
        cbn [afterRead filesRead printed] in Hmore, H4.
        split; [exact H1|]. split; [|split; [exact H3 | exact H4]].
        exists (Display.filename result :: more).
        split; [rewrite Hmore, <- app_assoc; reflexivity|].
        intros x [<-|Hx]; [left; reflexivity | right; apply Hincl; exact Hx].
      * rewrite (printResults_read_error result rest st err Hlook Hf) in Hrun.
        injection Hrun as <- <-. cbn [afterRead filesRead printed].
        destruct Hinv as [Hnd [Hkeys _]].
        split.
        { apply NoDup_app; [exact Hnd | constructor; [intros [] | constructor] |].
          intros x Hx [<-|[]]. apply Hkeys in Hx. contradiction. }
        split; [exists [Display.filename result]; split;
                [reflexivity | intros x [<-|[]]; left; reflexivity]|].
        split; [discriminate|].
        exists []. rewrite app_nil_r. split; [reflexivity|].
        exists []. split; [constructor|]. exists (result :: rest).
        split; [reflexivity | split; discriminate].
Qed.

End Printing.

Lemma cacheInvariant_initial fsys : cacheInvariant fsys initialPrintState.
Proof.
  split; [constructor|]. split.
  - intros name. simpl. split; [intros [] | intros H; apply H; reflexivity].
  - intros name lines H. discriminate.
Qed.

(** X22.  The printing loop reads every file at most once, and only
    files of the records; when it gets through, it has read the file of
    every record. *)
Theorem each_file_is_read_once
    (simplify : string -> string) (fsys : FileSystem)
    (results : list Display.result) (st' : PrintState) (e : PrintEnd) :
  printResults simplify fsys results initialPrintState = (st', e) ->
  NoDup (filesRead st')
  /\ incl (filesRead st') (map Display.filename results)
  /\ (e = PrintDone -> incl (map Display.filename results) (filesRead st')).
Proof.
  intros Hrun.
  destruct (printResults_invariant simplify fsys results _ st' e
              (cacheInvariant_initial fsys) Hrun)
    as [Hnd [[more [Hmore Hincl]] [Hdone _]]].
  simpl in Hmore. subst more.
  split; [exact Hnd|]. split; [exact Hincl|].
  intros He name Hin. apply in_map_iff in Hin as [r [<- Hr]].
  apply Hdone; assumption.
Qed.

Lemma each_file_is_read_once_witness :
  filesRead
    (fst (printResults (simplifyFilename DemoMethod.pathEnv) DemoMethod.files
            [Display.mkResult "client.go" 1 [mkHighlight 0 7];
             Display.mkResult "client.go" 2 [mkHighlight 4 5; mkHighlight 6 12]]
            initialPrintState))
  = ["client.go"]
  /\ NoDup ["client.go"].
Proof.
  split; [reflexivity|].
  exact (proj1 (each_file_is_read_once
                  (simplifyFilename DemoMethod.pathEnv) DemoMethod.files
                  [Display.mkResult "client.go" 1 [mkHighlight 0 7];
                   Display.mkResult "client.go" 2 [mkHighlight 4 5; mkHighlight 6 12]]
                  _ _ eq_refl)).
Defined.

(** X23.  The lines printed are, in order, the lines of the first
    records, of all the records exactly when the loop gets through: for
    each, the display name of its file, its line number and the annotated
    text of that line of the file as it was read.  A failed read or a
    panic leaves the lines of the records before it printed. *)
Theorem printed_lines_follow_the_records
    (simplify : string -> string) (fsys : FileSystem)
    (results : list Display.result) (st' : PrintState) (e : PrintEnd) :
  printResults simplify fsys results initialPrintState = (st', e) ->
  exists done_ left_,
    results = done_ ++ left_
    /\ Forall2 (printsRecord simplify fsys) done_ (printed st')
    /\ (e = PrintDone <-> left_ = []).
Proof.
  intros Hrun.
  destruct (printResults_invariant simplify fsys results _ st' e
              (cacheInvariant_initial fsys) Hrun)
    as [_ [_ [_ [lines [Hprinted [done_ [Hall [left_ [Hsplit Hleft]]]]]]]]].
  simpl in Hprinted. subst lines.
  exists done_, left_. split; [exact Hsplit|]. split; [exact Hall | exact Hleft].
Qed.

Lemma printed_lines_follow_the_records_witness :
  printResults (simplifyFilename DemoMethod.pathEnv) DemoMethod.files
    [Display.mkResult "client.go" 2 [mkHighlight 4 5; mkHighlight 6 12];
     Display.mkResult "gone.go" 1 [mkHighlight 0 1]]
    initialPrintState
  = (mkPrintState
       [("client.go", ["package http"; "var c Client = x"; ""])]
       ["client.go"; "gone.go"]
       [("client.go:2:var " ++ red ++ "c" ++ reset ++ " " ++ red ++ "Client"
         ++ reset ++ " = x" ++ String (ascii_of_nat 10) "")%string],
     ReadFatal "no such file")
  /\ exists done_ left_,
       [Display.mkResult "client.go" 2 [mkHighlight 4 5; mkHighlight 6 12];
        Display.mkResult "gone.go" 1 [mkHighlight 0 1]] = done_ ++ left_
       /\ length done_ = 1 /\ left_ <> [].
Proof.
  split; [reflexivity|].
  destruct (printed_lines_follow_the_records
              (simplifyFilename DemoMethod.pathEnv) DemoMethod.files
              [Display.mkResult "client.go" 2 [mkHighlight 4 5; mkHighlight 6 12];
               Display.mkResult "gone.go" 1 [mkHighlight 0 1]]
              _ _ eq_refl)
    as [done_ [left_ [Hsplit [Hall Hend]]]].
  exists done_, left_. split; [exact Hsplit|]. split.
  - apply Forall2_length in Hall. exact Hall.
  - intros Hnil. apply Hend in Hnil. discriminate.
Defined.

(** X24.  Printing the records of two lists one after the other is
    printing the first list and then, if that got through, the second from
    the state reached, with the cache as the first left it; if the first
    stops, nothing of the second is looked at. *)
Theorem printResults_app
    (simplify : string -> string) (fsys : FileSystem)
    (results1 results2 : list Display.result) (st : PrintState) :
  printResults simplify fsys (results1 ++ results2) st
  = match printResults simplify fsys results1 st with
    | (st1, PrintDone) => printResults simplify fsys results2 st1
    | stopped => stopped
    end.
Proof.
  revert st. induction results1 as [|result rest IH]; intros st.
  - reflexivity.
  - cbn [app printResults]. cbv zeta.
    destruct (lookupLines (fileLines st) (Display.filename result)) as [lines|].
    + destruct (indexZ lines (Display.line result - 1)) as [src|msg];
        [|reflexivity].
      destruct (renderLine src (Display.highlights result)) as [text|msg];
        [|reflexivity].
      apply IH.
    + destruct (fsys (Display.filename result)) as [b|err]; [|reflexivity].
      destruct (indexZ (Split b (ascii_of_nat 10)) (Display.line result - 1))
        as [src|msg]; [|reflexivity].
      destruct (renderLine src (Display.highlights result)) as [text|msg];
        [|reflexivity].
      apply IH.
Qed.

(* ================================================================== *)
(** * [simplifyFilename] and the local-package test *)

Lemma fold_shorter env filename dirs simple0 :
  let simple := fold_left (shorter env filename) dirs simple0 in
  String.length simple <= String.length simple0
  /\ (simple = simple0
      \/ exists d, In d dirs /\ simple = Rel env d filename /\ simple <> "")
  /\ (forall d, In d dirs -> Rel env d filename <> "" ->
                String.length simple <= String.length (Rel env d filename)).
Proof.
  revert simple0. induction dirs as [|d dirs IH]; intros simple0; cbn [fold_left].
  - cbv zeta. split; [lia|]. split; [left; reflexivity | intros d []].
  - specialize (IH (shorter env filename simple0 d)). cbv zeta in *.
    destruct IH as [Hlen [Hfrom Hmin]].
    assert (Hstep : String.length (shorter env filename simple0 d)
                    <= String.length simple0
                    /\ (shorter env filename simple0 d = simple0
                        \/ (shorter env filename simple0 d = Rel env d filename
                            /\ Rel env d filename <> ""))
                    /\ (Rel env d filename <> "" ->
                        String.length (shorter env filename simple0 d)
                        <= String.length (Rel env d filename))).
    { unfold shorter.
      destruct (String.eqb_spec (Rel env d filename) "") as [He|Hne]; cbn [negb andb].
      - split; [lia|]. split; [left; reflexivity | contradiction].
      - destruct (String.length (Rel env d filename) <? String.length simple0)%nat
          eqn:Hlt.
        + apply Nat.ltb_lt in Hlt. split; [lia|].
          split; [right; split; [reflexivity | exact Hne] | lia].
        + apply Nat.ltb_ge in Hlt. split; [lia|].
          split; [left; reflexivity | intros _; exact Hlt]. }
    destruct Hstep as [Hlen1 [Hfrom1 Hmin1]].
    split; [lia|]. split.
    + destruct Hfrom as [Heq|[d' [Hin [Heq Hne]]]].
      * rewrite Heq. destruct Hfrom1 as [H|[H Hne]]; [left; exact H|].
        right. exists d. repeat split; [left; reflexivity | exact H | congruence].
      * right. exists d'. repeat split; [right; exact Hin | exact Heq | exact Hne].
    + intros d' [<-|Hin] Hne; [specialize (Hmin1 Hne); lia | apply Hmin; assumption].
Qed.

(** X25.  [simplifyFilename] returns the file name itself under [-p],
    which has precedence over [-s]; under [-s] alone its base name; and
    otherwise the file name or its path relative to one of the directories
    tried, never an empty relative path, never longer than the file name,
    and as short as the shortest non-empty relative path. *)
Theorem simplifyFilename_returns (env : PathEnv) (filename : string) :
  (flagFullpath env = true -> simplifyFilename env filename = filename)
  /\ (flagFullpath env = false -> flagSimple env = true ->
      simplifyFilename env filename = Base env filename)
  /\ (flagFullpath env = false -> flagSimple env = false ->
      (simplifyFilename env filename = filename
       \/ exists d, In d (searchDirs env)
                    /\ simplifyFilename env filename = Rel env d filename
                    /\ simplifyFilename env filename <> "")
      /\ String.length (simplifyFilename env filename) <= String.length filename
      /\ (forall d, In d (searchDirs env) -> Rel env d filename <> "" ->
                    String.length (simplifyFilename env filename)
                    <= String.length (Rel env d filename))).
Proof.
  unfold simplifyFilename. split; [|split].
  - intros ->. reflexivity.
  - intros -> ->. reflexivity.
  - intros -> ->.
    destruct (fold_shorter env filename (searchDirs env) filename)
      as [Hlen [Hfrom Hmin]].
    split; [exact Hfrom|]. split; [exact Hlen | exact Hmin].
Qed.

Lemma simplifyFilename_returns_witness :
  simplifyFilename DemoMethod.pathEnv "/go/src/net/http/client.go"
  = "net/http/client.go"
  /\ String.length (simplifyFilename DemoMethod.pathEnv "/go/src/net/http/client.go")
     <= String.length "/go/src/net/http/client.go".
Proof.
  split; [reflexivity|].
  exact (proj1 (proj2 (proj2 (proj2 (simplifyFilename_returns DemoMethod.pathEnv
                                       "/go/src/net/http/client.go"))
                               eq_refl eq_refl))).
Defined.

Lemma substring_app_left p t :
  substring 0 (String.length p) (p ++ t) = p.
Proof.
  induction p as [|x p IH]; simpl; [apply substring_0_0|].
  rewrite IH. reflexivity.
Qed.

Lemma substring_app_right t x :
  substring (String.length t) (String.length x) (t ++ x) = x.
Proof.
  induction t as [|c t IH]; simpl; [apply substring_full | exact IH].
Qed.

Lemma HasPrefix_iff s prefix :
  HasPrefix s prefix = true <-> exists t, s = (prefix ++ t)%string.
Proof.
  unfold HasPrefix. rewrite andb_true_iff, Nat.leb_le, String.eqb_eq. split.
  - intros [Hlen Hsub].
    exists (substring (String.length prefix)
                      (String.length s - String.length prefix) s).
    rewrite <- Hsub at 1.
    rewrite <- (substring_0_split (String.length prefix) (String.length s) s)
      by lia.
    symmetry. apply substring_full.
  - intros [t ->]. rewrite string_length_app. split; [lia|].
    apply substring_app_left.
Qed.

Lemma HasSuffix_iff s suffix :
  HasSuffix s suffix = true <-> exists t, s = (t ++ suffix)%string.
Proof.
  unfold HasSuffix. rewrite andb_true_iff, Nat.leb_le, String.eqb_eq. split.
  - intros [Hlen Hsub].
    set (k := String.length s - String.length suffix).
    exists (substring 0 k s).
    transitivity (substring 0 (String.length s) s);
      [symmetry; apply substring_full|].
    rewrite (substring_0_split k (String.length s) s) by (unfold k; lia).
    f_equal. replace (String.length s - k) with (String.length suffix)
      by (unfold k; lia).
    exact Hsub.
  - intros [t ->]. rewrite string_length_app. split; [lia|].
    replace (String.length t + String.length suffix - String.length suffix)
      with (String.length t) by lia.
    apply substring_app_right.
Qed.

(** X26.  [hasLocalPkg] is set exactly when some package argument ends
    in [.go], or starts with [./], or starts with a dot and the path
    separator; the arguments behind the first such argument play no
    part. *)
Theorem hasLocalPkg_iff (separator : ascii) (args : list string) :
  (localPkgLoop separator args false = true <->
   exists a, In a args
             /\ ((exists t, a = (t ++ ".go")%string)
                 \/ (exists t, a = ("./" ++ t)%string)
                 \/ (exists t, a = (String "." (String separator "") ++ t)%string)))
  /\ (forall before a after,
        isLocalArg separator a = true ->
        localPkgLoop separator (before ++ a :: after) false = true).
Proof.
  assert (Hlocal : forall a,
             isLocalArg separator a = true <->
             ((exists t, a = (t ++ ".go")%string)
              \/ (exists t, a = ("./" ++ t)%string)
              \/ (exists t, a = (String "." (String separator "") ++ t)%string))).
  { intros a. unfold isLocalArg.
    rewrite !orb_true_iff, HasSuffix_iff, !HasPrefix_iff. tauto. }
  split.
  - induction args as [|a args IH]; cbn [localPkgLoop].
    + split; [discriminate | intros [a [[] _]]].
    + destruct (isLocalArg separator a) eqn:Ha.
      * split; [|reflexivity]. intros _. exists a.
        split; [left; reflexivity | apply Hlocal; exact Ha].
      * rewrite IH. split.
        -- intros [b [Hin Hb]]. exists b. split; [right; exact Hin | exact Hb].
        -- intros [b [[<-|Hin] Hb]].
           ++ apply Hlocal in Hb. congruence.
           ++ exists b. split; assumption.
  - intros before a after Ha.
    induction before as [|b before IH]; cbn [app localPkgLoop].
    + rewrite Ha. reflexivity.
    + destruct (isLocalArg separator b); [reflexivity | exact IH].
Qed.

Lemma hasLocalPkg_iff_witness :
  localPkgLoop "/" ["net/http"; "main.go"; "fmt"] false = true
  /\ localPkgLoop "/" ["net/http"; "fmt"; "go"] false = false.
Proof.
  split.
  - apply (proj2 (hasLocalPkg_iff "/" ["net/http"; "main.go"; "fmt"])
             ["net/http"] "main.go" ["fmt"]).
    reflexivity.
  - reflexivity.
Defined.


(* ================================================================== *)
(** * The order of the output *)

(** C6.  In a run that completes, the Matches are put out by file name
    ascending, then by offset ascending.  The display records are built,
    by the grouping loop, from the collected nodes as [sort.Sort] with
    [Less] has left them, and their highlights, read record after record,
    are those of the nodes in that order; in that order a node whose file
    name is smaller than another's stands before it, and of two nodes of
    one file the one with the smaller offset stands before the other.  The
    comparison is total on (file name, offset): of two nodes one is [Less]
    than the other unless they start at the same offset of the same
    file. *)
Theorem output_is_sorted_by_filename_then_offset
    (schedule : list Node -> list Node)
    (sort_Sort : FileSet -> list Node -> list Node)
    (flagQuiet : bool) (args : list string)
    (frontEnd : list string -> LoadResult)
    (log : list string) (records : list Display.result) :
  schedules schedule ->
  sorts sort_Sort ->
  gofind schedule sort_Sort flagQuiet args frontEnd = Completed log records ->
  exists fs emitted,
    collected flagQuiet args frontEnd = Some (fs, emitted)
    /\ Permutation emitted (sort_Sort fs (schedule emitted))
    /\ records = groupNodes fs (sort_Sort fs (schedule emitted))
    /\ flat_map Display.highlights records
       = map (highlightOf fs) (sort_Sort fs (schedule emitted))
    /\ (forall i j m1 m2,
          nth_error (sort_Sort fs (schedule emitted)) i = Some m1 ->
          nth_error (sort_Sort fs (schedule emitted)) j = Some m2 ->
          ((Filename (fs (Pos m1)) <? Filename (fs (Pos m2)))%string = true ->
           i < j)
          /\ (Filename (fs (Pos m1)) = Filename (fs (Pos m2)) ->
              (Offset (fs (Pos m1)) < Offset (fs (Pos m2)))%Z -> i < j))
    /\ (forall m1 m2,
          lessNodes fs m1 m2 = true \/ lessNodes fs m2 m1 = true
          \/ (Filename (fs (Pos m1)) = Filename (fs (Pos m2))
              /\ Offset (fs (Pos m1)) = Offset (fs (Pos m2)))).
Proof.
  intros Hsch Hsort Hrun. unfold gofind, collected in *.
  destruct args as [|target [|pkgArg pkgArgs]]; try discriminate.
  destruct (parseQuery target) as [q|msg]; [|discriminate].
  destruct (frontEnd (pkgArg :: pkgArgs)) as [err|fs prog]; [discriminate|].
  destruct (scanProgram q flagQuiet prog) as [log' sent].
  destruct sent as [emitted|msg]; [|discriminate].
  cbn [fset nodes snd] in *. injection Hrun as <- <-.
  exists fs, emitted.
  pose proof (Hsort fs (schedule emitted)) as Hsorted.
  split; [reflexivity|].
  split; [exact (Permutation_trans (Hsch emitted) (proj1 Hsorted))|].
  split; [reflexivity|].
  split; [|exact (sorted_by_filename_then_offset fs _ _ Hsorted)].
  generalize (sort_Sort fs (schedule emitted)) as l. intros l.
  induction l as [|n l IH] using rev_ind; [reflexivity|].
  rewrite map_app. cbn [map].
  destruct (groupNodes_snoc_cases fs l n)
    as [[before [r [Hl [_ [_ Hsnoc]]]]]|[Hsnoc _]]; rewrite Hsnoc.
  - rewrite Hl in IH. rewrite !flat_map_app in *. cbn [flat_map] in *.
    rewrite !app_nil_r in *. cbn [appendHighlight Display.highlights].
    rewrite app_assoc, IH. reflexivity.
  - rewrite flat_map_app, IH. reflexivity.
Qed.

Lemma output_is_sorted_by_filename_then_offset_witness :
  gofind (@rev Node) insertionSort false ["net/http.Client"; "net/http"]
         (fun _ => Loaded Demo.twoFiles [DemoSorting.twoFilePkg])
  = Completed []
      [Display.mkResult "a.go" 1 [mkHighlight 20 21];
       Display.mkResult "a.go" 12 [mkHighlight 19 20];
       Display.mkResult "b.go" 1 [mkHighlight 4 5]]
  /\ exists fs emitted,
       collected false ["net/http.Client"; "net/http"]
         (fun _ => Loaded Demo.twoFiles [DemoSorting.twoFilePkg])
       = Some (fs, emitted)
       /\ insertionSort fs (rev emitted)
          = [mkNode 21 22; mkNode 900 901; mkNode 1005 1006].
Proof.
  split; [reflexivity|].
  destruct (output_is_sorted_by_filename_then_offset
              (@rev Node) insertionSort false ["net/http.Client"; "net/http"]
              (fun _ => Loaded Demo.twoFiles [DemoSorting.twoFilePkg])
              _ _
              (fun l => Permutation_rev l)
              (fun fs l => insertionSort_contract fs l)
              eq_refl)
    as [fs [emitted [Hcollected _]]].
  exists fs, emitted. split; [exact Hcollected|].
  injection Hcollected as <- <-. reflexivity.
Defined.

(* ================================================================== *)
(** * The log of a run *)

Lemma list_sum_empty {A : Type} (seqs : list (list A)) :
  Forall (fun s => s = []) seqs -> list_sum (map (@length A) seqs) = 0.
Proof.
  induction 1 as [|s seqs Hs Hall IH]; [reflexivity|].
  subst s. exact IH.
Qed.

(** The logger receives every line of every goroutine. *)
Lemma interleaving_length {A : Type} (seqs : list (list A)) (log : list A) :
  interleaving seqs log -> length log = list_sum (map (@length A) seqs).
Proof.
  induction 1 as [seqs Hall|before x s after log Hrest IH].
  - rewrite list_sum_empty by exact Hall. reflexivity.
  - cbn [length]. rewrite IH, !map_app, !list_sum_app.
    cbn [map list_sum length fold_right]. unfold list_sum. cbn [fold_right].
    lia.
Qed.

(** When one goroutine alone has lines, the log is its lines. *)
Lemma interleaving_alone {A : Type} (s : list A) (others : list (list A))
    (log : list A) :
  Forall (fun o => o = []) others ->
  interleaving (s :: others) log -> log = s.
Proof.
  intros Hothers Hlog. remember (s :: others) as seqs eqn:Hseqs.
  revert s Hseqs. induction Hlog as [seqs Hall|before x s' after log Hrest IH];
    intros s Hseqs.
  - subst seqs. inversion Hall; subst. congruence.
  - destruct before as [|b before].
    + cbn [app] in Hseqs. injection Hseqs as <- <-.
      f_equal. apply IH. reflexivity.
    + cbn [app] in Hseqs. injection Hseqs as -> <-.
      exfalso. apply Forall_app in Hothers as [_ Hbad].
      inversion Hbad; subst. discriminate.
Qed.

Lemma debugf_lines_length {A : Type} debugMode (message : A -> string) (l : list A) :
  length (flat_map (fun a => debugf debugMode (message a)) l)
  = if debugMode then length l else 0.
Proof.
  induction l as [|a l IH]; cbn [flat_map]; [destruct debugMode; reflexivity|].
  rewrite length_app, IH. destruct debugMode; reflexivity.
Qed.

Lemma debugf_off_lines {A : Type} (message : A -> string) (l : list A) :
  flat_map (fun a => debugf false (message a)) l = [].
Proof.
  induction l as [|a l IH]; [reflexivity | exact IH].
Qed.

Lemma goroutineDebug_off show q pi :
  Forall (fun s => s = []) (goroutineDebug false show q pi).
Proof.
  unfold goroutineDebug. destruct (Errors pi); [|constructor].
  repeat constructor; apply debugf_off_lines.
Qed.

(** The goroutines of a package log one debug line for each node they
    send, and none when [GOFIND_DEBUG] is not set. *)
Lemma goroutineDebug_length debugMode show q flagQuiet pi out :
  snd (visitPackage q flagQuiet pi) = Ok out ->
  list_sum (map (@length string) (goroutineDebug debugMode show q pi))
  = if debugMode then length out else 0.
Proof.
  unfold visitPackage, goroutineDebug.
  destruct (Errors pi) as [|err errs]; cbn [snd].
  - intros Hscan.
    destruct (scanPackage_Ok_inv q pi out Hscan) as [sels [lits [Hsels [Hlits ->]]]].
    rewrite Hsels. cbn [sentBy map list_sum].
    rewrite !debugf_lines_length.
    assert (Hl : (if negb (selName q =? "")%string
                  then sentBy (rangeOver (scanTypeExpr q) (Types pi)) else [])
                 = lits).
    { destruct (negb (selName q =? "")%string).
      - rewrite Hlits. reflexivity.
      - injection Hlits as <-. reflexivity. }
    rewrite Hl. destruct debugMode; [|reflexivity].
    rewrite !length_app. unfold list_sum. cbn [fold_right]. lia.
  - intros [= <-]. destruct debugMode; reflexivity.
Qed.

Lemma scanProgram_debug_length debugMode show q flagQuiet prog out :
  snd (scanProgram q flagQuiet prog) = Ok out ->
  list_sum (map (@length string)
              (flat_map (goroutineDebug debugMode show q) prog))
  = if debugMode then length out else 0.
Proof.
  revert out. induction prog as [|pi prog IH]; intros out.
  - cbn. intros [= <-]. destruct debugMode; reflexivity.
  - cbn [scanProgram flat_map].
    pose proof (goroutineDebug_length debugMode show q flagQuiet pi) as Hpi.
    destruct (visitPackage q flagQuiet pi) as [log1 sent1].
    destruct (scanProgram q flagQuiet prog) as [log2 sent2].
    cbn [snd] in *. destruct sent1 as [s1|]; [|discriminate].
    destruct sent2 as [s2|]; [|discriminate].
    cbn [bind]. intros [= <-].
    rewrite map_app, list_sum_app, (Hpi s1 eq_refl), (IH s2 eq_refl).
    destruct debugMode; [rewrite length_app; reflexivity | reflexivity].
Qed.

(** X17.  The log of a run in which no scanner panics.  When
    [GOFIND_DEBUG] is not set, the lines logged are the diagnostics of the
    packages that have type errors, one line for each such package and in
    the order of the packages, and with the quiet flag nothing is logged.
    When it is set, the goroutines log in addition one line for every node
    they send, also under the quiet flag, so that the log has one line for
    each diagnostic and one for each node sent. *)
Theorem log_of_a_run
    (debugMode : bool) (show : Node -> string) (q : Query) (flagQuiet : bool)
    (prog : list PackageInfo) (out : list Node) (log : list string) :
  snd (scanProgram q flagQuiet prog) = Ok out ->
  runLog debugMode show q flagQuiet prog log ->
  (debugMode = false ->
   log = if flagQuiet then []
         else map diagnostic (filter (fun pi => negb (errorFree pi)) prog))
  /\ length log
     = (if flagQuiet then 0
        else length (filter (fun pi => negb (errorFree pi)) prog))
       + (if debugMode then length out else 0).
Proof.
  intros Hout Hlog. unfold runLog in Hlog. split.
  - intros ->. rewrite <- (scanProgram_diagnostics q flagQuiet prog).
    apply (interleaving_alone _ (flat_map (goroutineDebug false show q) prog));
      [|exact Hlog].
    clear Hlog Hout. induction prog as [|pi prog IH]; [constructor|].
    cbn [flat_map]. apply Forall_app. split;
      [apply goroutineDebug_off | exact IH].
  - rewrite (interleaving_length _ _ Hlog).
    change (list_sum (map (@length string)
              (fst (scanProgram q flagQuiet prog)
               :: flat_map (goroutineDebug debugMode show q) prog)))
      with (length (fst (scanProgram q flagQuiet prog))
            + list_sum (map (@length string)
                (flat_map (goroutineDebug debugMode show q) prog))).
    rewrite (scanProgram_debug_length debugMode show q flagQuiet prog out Hout).
    rewrite scanProgram_diagnostics.
    destruct flagQuiet; [reflexivity|]. rewrite length_map. reflexivity.
Qed.

Lemma log_of_a_run_witness :
  ["gofind: broken: undeclared name: x and 2 error(s)"]
  = map diagnostic
        (filter (fun pi => negb (errorFree pi)) [Demo.badPkg; Demo.goodPkg])
  /\ length ["gofind: debug: use: found c";
             "gofind: broken: undeclared name: x and 2 error(s)";
             "gofind: debug: def: found %!v(MISSING)";
             "gofind: debug: use: found c"]
     = length (filter (fun pi => negb (errorFree pi))
                 [Demo.badPkg; Demo.goodPkg])
       + length [mkNode 110 111; mkNode 21 22; mkNode 5 6].
Proof.
  split.
  - refine (proj1 (log_of_a_run false (fun _ => "c") Demo.qClient false
                     [Demo.badPkg; Demo.goodPkg]
                     [mkNode 110 111; mkNode 21 22; mkNode 5 6]
                     ["gofind: broken: undeclared name: x and 2 error(s)"]
                     eq_refl _) eq_refl).
    apply (interleaving_next [] _ [] _ []).
    apply interleaving_end. repeat constructor.
  - assert (Hlog : runLog true (fun _ => "c") Demo.qClient false
                     [Demo.badPkg; Demo.goodPkg]
                     ["gofind: debug: use: found c";
                      "gofind: broken: undeclared name: x and 2 error(s)";
                      "gofind: debug: def: found %!v(MISSING)";
                      "gofind: debug: use: found c"]).
    { unfold runLog. cbn.
      apply (interleaving_next [[_]; []] _ [_] [[_]; []]).
      apply (interleaving_next [] _ [] [[]; [_]; [_]; []]).
      apply (interleaving_next [[]; []; [_]] _ [] [[]]).
      apply (interleaving_next [[]; []] _ [] [[]; []]).
      apply interleaving_end. repeat constructor. }
    exact (proj2 (log_of_a_run true (fun _ => "c") Demo.qClient false
                    [Demo.badPkg; Demo.goodPkg]
                    [mkNode 110 111; mkNode 21 22; mkNode 5 6] _
                    eq_refl Hlog)).
Defined.
